(** * The opportunity ranking pipeline of the PhD-opportunity browser

    A shallow embedding of the JavaScript sources

    - [src/OpportunityCard.jsx]: [extractKeywords], [hashCode],
      [calculateScores] and [getSortedAndFilteredOpportunities]; then
      [getCategory] and the image of a card, the saved opportunities, the
      filter menu, [handleSearch] and the requirements loop of
      [generateOpportunities];
    - [src/searchService.js]: [calculateCompatibilityScore] with its local
      [generateScore]; then [searchOpportunities] and [searchProfessors];
    - [src/CalendarPopup.jsx]: the handler of the date input.

    JavaScript strings are sequences of UTF-16 code units, numbers that the
    code forces through [<<], [&] or [|] are 32-bit two's-complement integers,
    a [TypeError] is an explicit error result, and the plain object used as a
    word counter is an insertion-ordered property list with the enumeration
    order and the prototype chain that [Object.entries] and the property
    reads of the source observe. *)

From Stdlib Require Import ZArith List Bool Lia Sorted Permutation.
From stdpp Require Import base decidable option list gmap strings.
Import ListNotations.
Local Open Scope Z_scope.

(** ** Strings *)

(** A JavaScript string: its UTF-16 code units, as [charCodeAt] returns
    them. *)
Abbreviation jsstring := (list Z).

(** The code units of an ASCII literal of the source. *)
Fixpoint str (s : string) : jsstring :=
  match s with
  | EmptyString => []
  | String a s' => Z.of_N (Ascii.N_of_ascii a) :: str s'
  end.

Arguments str : simpl never.

(** [s === t] on strings. *)
Definition streq (s t : jsstring) : bool := bool_decide (s = t).
Arguments streq : simpl never.

(** [s.startsWith(t)], the building block of [includes]. *)
Fixpoint startsWith (s t : jsstring) : bool :=
  match t, s with
  | [], _ => true
  | _ :: _, [] => false
  | b :: t', a :: s' => (a =? b) && startsWith s' t'
  end.

(** [s.includes(t)]: [t] occurs in [s] as a contiguous run of code units. *)
Fixpoint includes (s t : jsstring) : bool :=
  startsWith s t ||
  match s with
  | [] => false
  | _ :: s' => includes s' t
  end.

(** A value used as a condition: a string is truthy unless it is empty, and
    an absent ([undefined] or [null]) value is falsy. *)
Definition truthy (v : option jsstring) : bool :=
  match v with
  | Some (_ :: _) => true
  | _ => false
  end.

(** ** Numbers *)

(** A JavaScript number as the code observes it: an integer (all the
    arithmetic of these functions is exact in double precision) or [NaN]. *)
Inductive num : Type :=
| NaN
| Num (z : Z).

(** [a - b] on numbers: [NaN] is absorbing. *)
Definition numSub (a b : num) : num :=
  match a, b with
  | Num x, Num y => Num (x - y)
  | _, _ => NaN
  end.

(** [ToInt32]: the value modulo 2^32, read as a signed 32-bit integer. *)
Definition toInt32 (x : Z) : Z := (x + 2 ^ 31) mod 2 ^ 32 - 2 ^ 31.

(** [x << n] for a shift count [0 <= n < 32]. *)
Definition shl (x n : Z) : Z := toInt32 (Z.shiftl (toInt32 x) n).

(** [x & y]. *)
Definition band (x y : Z) : Z := Z.land (toInt32 x) (toInt32 y).

(** [x | y]. *)
Definition bor (x y : Z) : Z := Z.lor (toInt32 x) (toInt32 y).

(** [Math.min(Math.max(x, lo), hi)]. *)
Definition clamp (x lo hi : Z) : Z := Z.min (Z.max x lo) hi.

(** ** HashScore *)

Module HashScore.

(** The loop of [hashCode] (OpportunityCard.jsx):
    [hash = ((hash << 5) - hash) + char; hash = hash & hash]. *)
Fixpoint hashLoop (hash : Z) (s : jsstring) : Z :=
  match s with
  | [] => hash
  | char :: rest =>
      let hash1 := shl hash 5 - hash + char in
      hashLoop (band hash1 hash1) rest
  end.

(** [hashCode(str)]: [Math.abs] of the accumulator. *)
Definition hashCode (s : jsstring) : Z := Z.abs (hashLoop 0 s).

(** The derived helper of the specification,
    [min + (hash(text) % (max - min))], with [%] the remainder of
    JavaScript, which truncates towards zero. *)
Definition boundedHash (text : jsstring) (lo hi : Z) : Z :=
  lo + Z.rem (hashCode text) (hi - lo).

(** The accumulator step as the specification words it:
    [hash = (hash * 31 - hash) + codepoint] on an emulated 32-bit signed
    accumulator. *)
Definition specStep (hash c : Z) : Z := toInt32 (hash * 31 - hash + c).

Definition specHash (s : jsstring) : Z := Z.abs (fold_left specStep s 0).

(** The step the code performs, in plain arithmetic. *)
Definition wrapStep (hash c : Z) : Z := toInt32 (hash * 32 - hash + c).

End HashScore.

(** ** Errors *)

(** A call either returns a value or throws a [TypeError] (a method called
    on [undefined], or a method the receiver does not have). *)
Inductive result (A : Type) : Type :=
| Ok (a : A)
| TypeError.
Arguments Ok {A} a.
Arguments TypeError {A}.

#[global] Instance result_ret : MRet result := @Ok.
#[global] Instance result_bind : MBind result :=
  fun A B f m => match m with Ok a => f a | TypeError => TypeError end.

(** [Array.prototype.filter] with a callback that may throw. *)
Fixpoint filterM {A : Type} (f : A -> result bool) (l : list A) : result (list A) :=
  match l with
  | [] => Ok []
  | x :: l' =>
      b ← f x;
      r ← filterM f l';
      Ok (if b : bool then x :: r else r)
  end.

(** ** The host environment

    Two built-ins are too large to embed (the Unicode case tables and the
    date grammar), so the functions take them from the host. The host also
    decides what the language leaves to the engine: the order in which
    [Array.prototype.sort] returns the elements when the comparator is not a
    consistent comparator for them. *)
Class Host : Type := {
  (** [String.prototype.toLowerCase]. *)
  toLowerCase : jsstring -> jsstring;
  (** The time value of [new Date(s)] for a string [s], in milliseconds
      since the epoch; [NaN] when [s] does not parse (an Invalid Date). *)
  dateParse : jsstring -> num;
  (** The implementation-defined sort order. The engine knows the elements
      through the results of the comparator only, a [NaN] read as [+0]. *)
  implementationSort : forall A : Type, (A -> A -> Z) -> list A -> list A;
  (** The empty string has no letters to map. *)
  toLowerCase_nil : toLowerCase [] = [];
  (** Whatever the order, the result holds the elements of the array. *)
  implementationSort_Permutation :
    forall (A : Type) (compare : A -> A -> Z) (l : list A),
      Permutation (implementationSort A compare l) l;
}.

(** ** Data model *)

(** A field that holds text, a sequence of strings, or nothing
    ([subjects] and [requirements]). *)
Inductive field : Type :=
| Absent
| Text (s : jsstring)
| Items (l : list jsstring).

#[global] Instance field_eq_dec : EqDecision field.
Proof. solve_decision. Defined.

(** Such a field used as a condition ([Boolean(x)], [x && ...]): an array is
    always truthy, a string unless it is empty, an absent field never. *)
Definition fieldTruthy (f : field) : bool :=
  match f with
  | Absent => false
  | Text s => truthy (Some s)
  | Items _ => true
  end.

Module Opportunity.
Record t : Type := Build {
  id : jsstring;
  title : option jsstring;
  university : option jsstring;
  department : option jsstring;
  description : option jsstring;
  subjects : field;
  requirements : field;
  deadline : option jsstring;
  postedDate : option jsstring;
  fullyFunded : bool;
  international : bool;
  supervisor : option jsstring;
}.

#[global] Instance eq_dec : EqDecision t.
Proof. solve_decision. Defined.
End Opportunity.

Module UserProfile.
Record t : Type := Build {
  id : option jsstring;
  interests : option (list jsstring);
  sop : option jsstring;
}.
End UserProfile.

Module Filters.
Record t : Type := Build {
  fullyFunded : bool;
  international : bool;
  hasDeadline : bool;
  hasSupervisor : bool;
  subjects : list jsstring;
}.

(** The initial state of the page: every flag off. *)
Definition initial : t := Build false false false false [].
End Filters.

(** ** Sorting

    [Array.prototype.sort(comparefn)] reads a comparator result of [NaN] as
    [+0]. When the comparator is a consistent comparator for the elements of
    the array, the language fixes the result: the elements in ascending
    order of the comparator, those that compare equal in the order they had.
    A stable insertion sort computes it: an element moves behind another
    only when the comparator says it is strictly greater. When the
    comparator is not consistent (it returns [NaN], or it is not transitive),
    the order is implementation-defined, and the host gives it. *)

Definition sortCompare {A : Type} (comparefn : A -> A -> num) (x y : A) : Z :=
  match comparefn x y with
  | NaN => 0
  | Num v => v
  end.

(** A consistent comparator for the elements of [l]: every call returns a
    number that is not [NaN]; [a =CF a]; [a =CF b] gives [b =CF a]; and
    [=CF], [<CF] and [>CF] are transitive, where [a <CF b] stands for
    [comparefn(a, b) < 0], and so on. *)
Definition consistent {A : Type} (comparefn : A -> A -> num) (l : list A)
    : bool :=
  let cf := sortCompare comparefn in
  forallb
    (fun a =>
       (cf a a =? 0)
       && forallb
            (fun b =>
               match comparefn a b with NaN => false | Num _ => true end
               && implb (cf a b =? 0) (cf b a =? 0)
               && forallb
                    (fun c =>
                       implb ((cf a b =? 0) && (cf b c =? 0)) (cf a c =? 0)
                       && implb ((cf a b <? 0) && (cf b c <? 0)) (cf a c <? 0)
                       && implb ((0 <? cf a b) && (0 <? cf b c)) (0 <? cf a c))
                    l)
            l)
    l.

Fixpoint insertBy {A : Type} (gt : A -> A -> bool) (x : A) (l : list A) : list A :=
  match l with
  | [] => [x]
  | y :: l' => if gt x y then y :: insertBy gt x l' else x :: l
  end.

Definition sortBy {A : Type} (gt : A -> A -> bool) (l : list A) : list A :=
  fold_right (insertBy gt) [] l.

(** What the comparison must tell about an element [x] that stood before
    [y] for the result to be ordered by [R]. *)
Definition agrees {A : Type} (gt : A -> A -> bool) (R : A -> A -> Prop)
    (x y : A) : Prop :=
  (gt x y = true -> R y x) /\ (gt x y = false -> R x y).

Definition arraySort `{Host} {A : Type} (comparefn : A -> A -> num)
    (l : list A) : list A :=
  if consistent comparefn l
  then sortBy (fun x y => 0 <? sortCompare comparefn x y) l
  else implementationSort A (sortCompare comparefn) l.

(** ** searchService.js *)

Module SearchService.

(** The loop of the local [generateScore]:
    [hash = ((hash << 5) - hash) + combined.charCodeAt(i); hash |= 0]. *)
Fixpoint scoreLoop (hash : Z) (combined : jsstring) : Z :=
  match combined with
  | [] => hash
  | c :: rest => scoreLoop (bor (shl hash 5 - hash + c) 0) rest
  end.

(** [generateScore(oppId, userId)], on the template string
    [`${oppId}-${userId}`]; it returns [Math.abs(hash % 100)]. *)
Definition generateScore (oppId userId : jsstring) : Z :=
  let combined := oppId ++ str "-" ++ userId in
  Z.abs (Z.rem (scoreLoop 0 combined) 100).

(** The test of the inner loop:
    [subject.includes(interest) || interest.includes(subject)]. *)
Definition related (interest subject : jsstring) : bool :=
  includes subject interest || includes interest subject.

(** The two nested [for ... of] loops, adding 5 at every related pair. *)
Definition interestLoop (userInterests oppSubjects : list jsstring) : Z :=
  fold_left
    (fun bonus interest =>
       fold_left
         (fun bonus subject =>
            if related interest subject then bonus + 5 else bonus)
         oppSubjects bonus)
    userInterests 0.

(** The block guarded by [userProfile.interests && opportunity.subjects].
    [opportunity.subjects.map] exists for an array only: on a string the call
    throws. *)
Definition interestBonus `{Host} (interests : option (list jsstring))
    (subjects : field) : result Z :=
  match interests with
  | Some l =>
      if fieldTruthy subjects then
        let userInterests := map toLowerCase l in
        match subjects with
        | Items ss => Ok (interestLoop userInterests (map toLowerCase ss))
        | _ => TypeError
        end
      else Ok 0
  | None => Ok 0
  end.

(** [calculateCompatibilityScore(opportunity, userProfile)]; [None] is a
    [null] or [undefined] argument. *)
Definition calculateCompatibilityScore `{Host}
    (opportunity : option Opportunity.t) (userProfile : option UserProfile.t)
    : result Z :=
  match opportunity, userProfile with
  | Some opp, Some user =>
      let userId :=
        if truthy (UserProfile.id user) then default [] (UserProfile.id user)
        else str "user123" in
      let baseScore := generateScore (Opportunity.id opp) userId in
      bonus ← interestBonus (UserProfile.interests user) (Opportunity.subjects opp);
      let bonus := Z.min bonus 20 in
      Ok (Z.min (Z.max (baseScore + bonus) 0) 100)
  | _, _ => Ok 50
  end.

End SearchService.

(** ** OpportunityCard.jsx: keyword extraction *)

Module KeywordExtractor.

(** The class [\s] of a regular expression, which is also what [trim]
    removes: white space and line terminators. *)
Definition isWhiteSpace (c : Z) : bool :=
  ((9 <=? c) && (c <=? 13)) || (c =? 32) || (c =? 160) || (c =? 5760)
  || ((8192 <=? c) && (c <=? 8202)) || (c =? 8232) || (c =? 8233)
  || (c =? 8239) || (c =? 8287) || (c =? 12288) || (c =? 65279).

(** The class [\w]: [A-Z], [a-z], [0-9] and [_]. *)
Definition isWordChar (c : Z) : bool :=
  ((48 <=? c) && (c <=? 57)) || ((65 <=? c) && (c <=? 90))
  || ((97 <=? c) && (c <=? 122)) || (c =? 95).

Definition stopWords : list jsstring :=
  map str
    ["phd"; "research"; "project"; "study"; "university"; "department";
     "the"; "and"; "or"; "in"; "at"; "of"; "to"; "for"; "with"; "by";
     "funded"; "scholarship"; "position"; "available"; "applications";
     "apply"; "deadline"; "opportunity"; "program"; "student"; "students";
     "work"; "will"; "be"; "is"; "are"; "this"; "that"; "we"; "our"; "us";
     "you"; "your"; "they"; "their"; "them"; "it"; "its"; "have"; "has";
     "had"; "do"; "does"; "did"; "can"; "could"; "should"; "would"; "may";
     "might"; "must"; "a"; "an"; "on"; "from"]%string.

(** [stopWords.has(w)]. *)
Definition isStopWord (w : jsstring) : bool := existsb (streq w) stopWords.

(** [Array.prototype.join(sep)]. *)
Fixpoint joinWith (sep : jsstring) (l : list jsstring) : jsstring :=
  match l with
  | [] => []
  | x :: rest =>
      match rest with
      | [] => x
      | _ :: _ => x ++ sep ++ joinWith sep rest
      end
  end.

(** An optional string as an element of the array of fields, which
    [filter(Boolean)] then clears of the absent fields and the empty
    strings. *)
Definition ofOption (v : option jsstring) : field :=
  match v with
  | Some s => Text s
  | None => Absent
  end.

(** The string [join] makes of an element: an array becomes its elements
    joined by commas. *)
Definition fieldToString (f : field) : jsstring :=
  match f with
  | Absent => []
  | Text s => s
  | Items l => joinWith (str ",") l
  end.

(** [text.split(/\s+/)]: the pieces between the maximal runs of white space;
    [prevWs] tells that the previous code unit was white space. *)
Fixpoint splitWs (prevWs : bool) (s : jsstring) : list jsstring :=
  match s with
  | [] => [[]]
  | c :: s' =>
      if isWhiteSpace c then
        (if prevWs then splitWs true s' else [] :: splitWs true s')
      else
        match splitWs false s' with
        | t :: ts => (c :: t) :: ts
        | [] => [[c]]
        end
  end.

Definition splitWhitespace (s : jsstring) : list jsstring := splitWs false s.

(** [word.replace(/[^\w]/g, '')]. *)
Definition cleanWord (word : jsstring) : jsstring := List.filter isWordChar word.

(** The value of a property of [wordCount]: a count, or the text that
    [+ 1] makes once the read value is not a number (the source text of the
    inherited [Object] function followed by [ones] digits 1). *)
Inductive wcval : Type :=
| Count (n : Z)
| Garbled (ones : nat).

(** The own properties of [wordCount], in creation order. *)
Abbreviation jsobject := (list (jsstring * wcval)).

Fixpoint getOwn (obj : jsobject) (k : jsstring) : option wcval :=
  match obj with
  | [] => None
  | (k', v) :: rest => if streq k' k then Some v else getOwn rest k
  end.

(** Assignment to an existing own property: the value changes, the place in
    the creation order does not. *)
Fixpoint setOwn (obj : jsobject) (k : jsstring) (v : wcval) : jsobject :=
  match obj with
  | [] => []
  | (k', v') :: rest =>
      if streq k' k then (k', v) :: rest else (k', v') :: setOwn rest k v
  end.

(** [wordCount[k] = (wordCount[k] || 0) + 1] on an object created by [{}].
    A key with no own property is read through [Object.prototype]: for
    "constructor" the read gives a function, so [+ 1] concatenates; for
    "__proto__" it gives an object, and the assignment of the resulting
    string goes to the inherited setter, which ignores it; every other key
    reads [undefined]. *)
Definition increment (obj : jsobject) (k : jsstring) : jsobject :=
  match getOwn obj k with
  | Some (Count n) => setOwn obj k (Count (n + 1))
  | Some (Garbled j) => setOwn obj k (Garbled (S j))
  | None =>
      if streq k (str "__proto__") then obj
      else if streq k (str "constructor") then obj ++ [(k, Garbled 1)]
      else obj ++ [(k, Count 1)]
  end.

(** The body of the [for ... of] loop over the words. *)
Definition countWord (wordCount : jsobject) (word : jsstring) : jsobject :=
  let w := cleanWord word in
  if (Z.of_nat (length w) <? 4) || isStopWord w then wordCount
  else increment wordCount w.

(** A canonical array index: a decimal numeral without a leading zero whose
    value is at most 2^32 - 2. Such keys are enumerated before all others. *)
Definition isDigit (c : Z) : bool := (48 <=? c) && (c <=? 57).

Definition digitStep (v c : Z) : Z := 10 * v + (c - 48).

Definition decimalValue (k : jsstring) : Z := fold_left digitStep k 0.

Definition arrayIndex (k : jsstring) : option Z :=
  match k with
  | [] => None
  | c :: rest =>
      if forallb isDigit k
         && (negb (c =? 48) || bool_decide (rest = []))
         && (decimalValue k <=? 4294967294)
      then Some (decimalValue k)
      else None
  end.

Definition isIndexKey (e : jsstring * wcval) : bool :=
  bool_decide (is_Some (arrayIndex e.1)).

Definition indexOf (e : jsstring * wcval) : Z := default 0 (arrayIndex e.1).

(** [Object.entries(obj)]: the array-index keys in ascending numeric order,
    then the other keys in creation order. *)
Definition entries (obj : jsobject) : list (jsstring * wcval) :=
  sortBy (fun a b => indexOf b <? indexOf a) (List.filter isIndexKey obj)
  ++ List.filter (fun e => negb (isIndexKey e)) obj.

(** [ToNumber] of a property value, as the subtraction of the comparator
    applies it. *)
Definition toNumber (v : wcval) : num :=
  match v with
  | Count n => Num n
  | Garbled _ => NaN
  end.

(** The comparator [(a, b) => b[1] - a[1]]. *)
Definition byCount (a b : jsstring * wcval) : num :=
  numSub (toNumber b.2) (toNumber a.2).

(** The text the words are taken from. *)
Definition keywordText `{Host} (opportunity : Opportunity.t) : jsstring :=
  toLowerCase
    (joinWith (str " ")
       (map fieldToString
          (List.filter fieldTruthy
             [ofOption (Opportunity.title opportunity);
              ofOption (Opportunity.description opportunity);
              ofOption (Opportunity.department opportunity);
              Opportunity.subjects opportunity;
              Opportunity.requirements opportunity]))).

(** The object [wordCount] when the loop ends. *)
Definition wordCounts `{Host} (opportunity : Opportunity.t) : jsobject :=
  fold_left countWord (splitWhitespace (keywordText opportunity)) [].

(** [extractKeywords(opportunity)]. *)
Definition extractKeywords `{Host} (opportunity : Opportunity.t) : list jsstring :=
  map fst (firstn 3 (arraySort byCount (entries (wordCounts opportunity)))).

(** The test of the loop on a cleaned word. *)
Definition passes (w : jsstring) : bool :=
  negb ((Z.of_nat (length w) <? 4) || isStopWord w).

(** The words that pass the test of the loop, in the order of the text. *)
Definition keptWords `{Host} (opportunity : Opportunity.t) : list jsstring :=
  List.filter passes (map cleanWord (splitWhitespace (keywordText opportunity))).

(** The words that get counted: those that pass, but for "__proto__", which
    [increment] leaves out. *)
Definition counted (ws : list jsstring) : list jsstring :=
  List.filter (fun w => negb (streq w (str "__proto__"))) ws.

Definition countedWords `{Host} (opportunity : Opportunity.t) : list jsstring :=
  counted (keptWords opportunity).

(** How often a word occurs in a list of words. *)
Definition occurrences (w : jsstring) (ws : list jsstring) : nat :=
  length (List.filter (streq w) ws).

(** How often a word occurs among the counted words. *)
Definition frequency `{Host} (opportunity : Opportunity.t) (w : jsstring) : Z :=
  Z.of_nat (occurrences w (countedWords opportunity)).

(** The value [wordCount] holds for a word after the words [ws]. *)
Definition valueOf (ws : list jsstring) (w : jsstring) : wcval :=
  if streq w (str "constructor") then Garbled (occurrences w ws)
  else Count (Z.of_nat (occurrences w ws)).

(** The distinct words of a list, each at its first occurrence. *)
Fixpoint dedupFirst (ws : list jsstring) : list jsstring :=
  match ws with
  | [] => []
  | w :: rest => w :: List.filter (fun x => negb (streq x w)) (dedupFirst rest)
  end.

(** The position of the first occurrence of a word in a list of words
    (the length of the list when there is none). *)
Fixpoint firstIndex (w : jsstring) (l : list jsstring) : nat :=
  match l with
  | [] => O
  | x :: rest => if streq x w then O else S (firstIndex w rest)
  end.

(** The order the specification gives the result: by descending frequency,
    ties by the first occurrence in the text. *)
Definition specBefore `{Host} (opportunity : Opportunity.t) (x y : jsstring) : Prop :=
  frequency opportunity y < frequency opportunity x
  \/ (frequency opportunity x = frequency opportunity y
      /\ (firstIndex x (countedWords opportunity)
          <= firstIndex y (countedWords opportunity))%nat).

(** The order in which [Object.entries] lists the keys that were created in
    the order of the words [ws]. *)
Definition keyBefore (ws : list jsstring) (x y : jsstring) : Prop :=
  match arrayIndex x, arrayIndex y with
  | Some i, Some j => i < j
  | Some _, None => True
  | None, Some _ => False
  | None, None => (firstIndex x ws < firstIndex y ws)%nat
  end.

(** The order of the result: by descending frequency, ties in the order of
    [Object.entries]. *)
Definition codeBefore `{Host} (opportunity : Opportunity.t) (x y : jsstring) : Prop :=
  frequency opportunity y < frequency opportunity x
  \/ (frequency opportunity x = frequency opportunity y
      /\ keyBefore (countedWords opportunity) x y).

End KeywordExtractor.

(** ** OpportunityCard.jsx: the page that lists the opportunities *)

Module Opportunities.
Import HashScore.

(** The score [calculateScores] gives an opportunity:
    [32 + (hash % (92 - 32))] with [hash = hashCode(opp.id)]. *)
Definition randomScore (oppId : jsstring) : Z :=
  let hash := hashCode oppId in
  32 + Z.rem hash (92 - 32).

(** The body of the loop over the opportunities: an id that has a score
    keeps it. *)
Definition scoreStep (scores : gmap jsstring Z) (opp : Opportunity.t)
    : gmap jsstring Z :=
  match scores !! Opportunity.id opp with
  | Some _ => scores
  | None => <[Opportunity.id opp := randomScore (Opportunity.id opp)]> scores
  end.

(** The effect [calculateScores] as a transition of the state
    [sortedScores]: it returns early, leaving the state as it is, when there
    are no opportunities or when the stored profile has no statement of
    purpose; otherwise a fresh map replaces the state. *)
Definition calculateScores (opportunities : list Opportunity.t)
    (userProfile : UserProfile.t) (sortedScores : gmap jsstring Z)
    : gmap jsstring Z :=
  match opportunities with
  | [] => sortedScores
  | _ :: _ =>
      if negb (truthy (UserProfile.sop userProfile)) then sortedScores
      else fold_left scoreStep opportunities ∅
  end.

(** [searchQuery.trim()]. *)
Fixpoint trimStart (s : jsstring) : jsstring :=
  match s with
  | [] => []
  | c :: s' => if KeywordExtractor.isWhiteSpace c then trimStart s' else s
  end.

Definition trim (s : jsstring) : jsstring :=
  rev (trimStart (rev (trimStart s))).

(** [field.toLowerCase().includes(query)]; the method call on an absent
    field throws. *)
Definition lowerIncludes `{Host} (v : option jsstring) (query : jsstring)
    : result bool :=
  match v with
  | Some s => Ok (includes (toLowerCase s) query)
  | None => TypeError
  end.

(** The callback of the search filter; [||] evaluates its right operand only
    when the left one is false. *)
Definition matchesQuery `{Host} (query : jsstring) (opp : Opportunity.t)
    : result bool :=
  b ← lowerIncludes (Opportunity.title opp) query;
  if b : bool then Ok true else
  b ← lowerIncludes (Opportunity.university opp) query;
  if b : bool then Ok true else
  b ← lowerIncludes (Opportunity.department opp) query;
  if b : bool then Ok true else
  lowerIncludes (Opportunity.description opp) query.

(** The callback of the deadline filter:
    [opp.deadline && opp.deadline !== 'Deadline Not Specified']. *)
Definition deadlineSpecified (opp : Opportunity.t) : bool :=
  truthy (Opportunity.deadline opp)
  && negb (streq (default [] (Opportunity.deadline opp))
             (str "Deadline Not Specified")).

(** The four flag filters, each applied when its flag is set. *)
Definition applyFlags (filters : Filters.t) (filtered : list Opportunity.t)
    : list Opportunity.t :=
  let filtered :=
    if Filters.fullyFunded filters
    then List.filter Opportunity.fullyFunded filtered else filtered in
  let filtered :=
    if Filters.international filters
    then List.filter Opportunity.international filtered else filtered in
  let filtered :=
    if Filters.hasDeadline filters
    then List.filter deadlineSpecified filtered else filtered in
  if Filters.hasSupervisor filters
  then List.filter (fun opp => truthy (Opportunity.supervisor opp)) filtered
  else filtered.

(** The conjunction of the flag predicates that are switched on. *)
Definition passesFlags (filters : Filters.t) (opp : Opportunity.t) : bool :=
  implb (Filters.fullyFunded filters) (Opportunity.fullyFunded opp)
  && implb (Filters.international filters) (Opportunity.international opp)
  && implb (Filters.hasDeadline filters) (deadlineSpecified opp)
  && implb (Filters.hasSupervisor filters) (truthy (Opportunity.supervisor opp)).

(** Does the search callback return true on the opportunity? *)
Definition passesQuery `{Host} (searchQuery : jsstring) (opp : Opportunity.t)
    : bool :=
  match matchesQuery (toLowerCase searchQuery) opp with
  | Ok b => b
  | TypeError => false
  end.

(** The four fields the search reads are all there. *)
Definition searchable (opp : Opportunity.t) : bool :=
  bool_decide (is_Some (Opportunity.title opp))
  && bool_decide (is_Some (Opportunity.university opp))
  && bool_decide (is_Some (Opportunity.department opp))
  && bool_decide (is_Some (Opportunity.description opp)).

(** The filtering half of [getSortedAndFilteredOpportunities]. *)
Definition filterOpportunities `{Host} (opportunities : list Opportunity.t)
    (searchQuery : jsstring) (filters : Filters.t)
    : result (list Opportunity.t) :=
  filtered ←
    (if truthy (Some (trim searchQuery))
     then filterM (matchesQuery (toLowerCase searchQuery)) opportunities
     else Ok opportunities);
  Ok (applyFlags filters filtered).

(** [sortedScores.get(opp.id) || 32]: 32 replaces a missing entry and also
    a score of 0, which is falsy. *)
Definition scoreOf (sortedScores : gmap jsstring Z) (opp : Opportunity.t) : Z :=
  match sortedScores !! Opportunity.id opp with
  | Some v => if v =? 0 then 32 else v
  | None => 32
  end.

(** The time value of [new Date(opp.postedDate || opp.deadline || 0)]. *)
Definition dateOf `{Host} (opp : Opportunity.t) : num :=
  if truthy (Opportunity.postedDate opp)
  then dateParse (default [] (Opportunity.postedDate opp))
  else if truthy (Opportunity.deadline opp)
  then dateParse (default [] (Opportunity.deadline opp))
  else Num 0.

(** The time value as an integer, for an opportunity whose date parses. *)
Definition timeOf `{Host} (opp : Opportunity.t) : Z :=
  match dateOf opp with
  | Num t => t
  | NaN => 0
  end.

(** The opportunity has neither a posted date nor a deadline. *)
Definition undated (opp : Opportunity.t) : bool :=
  negb (truthy (Opportunity.postedDate opp))
  && negb (truthy (Opportunity.deadline opp)).

(** The comparator of the sort. The difference of two time values may be
    rounded by the double arithmetic of the source, but never across zero,
    and the sort reads its sign only. *)
Definition compareOpportunities `{Host} (sortBy : jsstring)
    (sortedScores : gmap jsstring Z) (a b : Opportunity.t) : num :=
  if streq sortBy (str "compatibility") then
    let scoreA := scoreOf sortedScores a in
    let scoreB := scoreOf sortedScores b in
    Num (scoreB - scoreA)
  else
    let dateA := dateOf a in
    let dateB := dateOf b in
    numSub dateB dateA.

(** The sorting half of [getSortedAndFilteredOpportunities]. *)
Definition sortOpportunities `{Host} (sortBy : jsstring)
    (sortedScores : gmap jsstring Z) (filtered : list Opportunity.t)
    : list Opportunity.t :=
  arraySort (compareOpportunities sortBy sortedScores) filtered.

(** [getSortedAndFilteredOpportunities()], a function of the state of the
    page. *)
Definition getSortedAndFilteredOpportunities `{Host}
    (opportunities : list Opportunity.t) (searchQuery : jsstring)
    (filters : Filters.t) (sortBy : jsstring) (sortedScores : gmap jsstring Z)
    : result (list Opportunity.t) :=
  filtered ← filterOpportunities opportunities searchQuery filters;
  Ok (sortOpportunities sortBy sortedScores filtered).

End Opportunities.

(** ** A host to evaluate with

    The fragment of the two built-ins that the data of the repository needs:
    the case mapping of Basic Latin, and the date-only form [YYYY-MM-DD] that
    [toISOString().split('T')[0]] produces, read as midnight UTC. On Basic
    Latin text and on the days of the calendar every engine agrees with it;
    any other string is taken not to parse. Where the order of a sort is
    implementation-defined, the host sorts as V8 (Node, Chrome) sorts a
    short array. *)

Module BasicLatin.

Definition lowerUnit (c : Z) : Z :=
  if (65 <=? c) && (c <=? 90) then c + 32 else c.

(** Days from 1970-01-01 to a day of the proleptic Gregorian calendar. *)
Definition daysFromCivil (y m d : Z) : Z :=
  let y := if m <=? 2 then y - 1 else y in
  let era := y / 400 in
  let yoe := y - era * 400 in
  let mp := if 2 <? m then m - 3 else m + 9 in
  let doy := (153 * mp + 2) / 5 + d - 1 in
  let doe := yoe * 365 + yoe / 4 - yoe / 100 + doy in
  era * 146097 + doe - 719468.

Definition isLeap (y : Z) : bool :=
  ((y mod 4 =? 0) && negb (y mod 100 =? 0)) || (y mod 400 =? 0).

Definition daysInMonth (y m : Z) : Z :=
  if m =? 2 then (if isLeap y then 29 else 28)
  else if (m =? 4) || (m =? 6) || (m =? 9) || (m =? 11) then 30
  else 31.

Definition isoDate (s : jsstring) : num :=
  match s with
  | [y1; y2; y3; y4; h1; m1; m2; h2; d1; d2] =>
      let y := KeywordExtractor.decimalValue [y1; y2; y3; y4] in
      let m := KeywordExtractor.decimalValue [m1; m2] in
      let d := KeywordExtractor.decimalValue [d1; d2] in
      if forallb KeywordExtractor.isDigit [y1; y2; y3; y4; m1; m2; d1; d2]
         && (h1 =? 45) && (h2 =? 45)
         && (1 <=? m) && (m <=? 12) && (1 <=? d) && (d <=? daysInMonth y m)
      then Num (daysFromCivil y m d * 86400000)
      else NaN
  | _ => NaN
  end.

(** The order V8 gives an array of fewer than 64 elements: the run at the
    head of the array is found (and reversed when it descends), then every
    further element goes into the sorted part at the place a binary search
    finds. V8 merges the runs of a longer array, which is not embedded; the
    host treats a longer array like a short one. *)

(** The loop of [CountAndMakeRun]: how many more elements continue the
    run. *)
Fixpoint runRest {A : Type} (compare : A -> A -> Z) (isDescending : bool)
    (previousElement : A) (l : list A) : nat :=
  match l with
  | [] => O
  | currentElement :: rest =>
      let order := compare currentElement previousElement in
      if (if isDescending then 0 <=? order else order <? 0) then O
      else S (runRest compare isDescending currentElement rest)
  end.

(** [CountAndMakeRun]: the length of the run, and whether it descends. *)
Definition countRun {A : Type} (compare : A -> A -> Z) (l : list A)
    : nat * bool :=
  match l with
  | elementHigh :: elementLow :: rest =>
      let isDescending := compare elementLow elementHigh <? 0 in
      (S (S (runRest compare isDescending elementLow rest)), isDescending)
  | _ => (length l, false)
  end.

(** The binary search of [BinaryInsertionSort] between [left] and
    [right]. *)
Fixpoint insertionPoint {A : Type} (compare : A -> A -> Z) (fuel : nat)
    (pivot : A) (workArray : list A) (left right : nat) : nat :=
  match fuel with
  | O => left
  | S fuel' =>
      if (left <? right)%nat then
        let mid := (left + (right - left) / 2)%nat in
        match nth_error workArray mid with
        | Some element =>
            if compare pivot element <? 0
            then insertionPoint compare fuel' pivot workArray left mid
            else insertionPoint compare fuel' pivot workArray (S mid) right
        | None => left
        end
      else left
  end.

(** The elements from [left] on slide over by one, and [pivot] takes the
    place. *)
Fixpoint insertAt {A : Type} (left : nat) (pivot : A) (workArray : list A)
    : list A :=
  match left, workArray with
  | S left', element :: rest => element :: insertAt left' pivot rest
  | _, _ => pivot :: workArray
  end.

(** One turn of the outer loop of [BinaryInsertionSort]. *)
Definition binaryInsert {A : Type} (compare : A -> A -> Z)
    (workArray : list A) (pivot : A) : list A :=
  insertAt
    (insertionPoint compare (S (length workArray)) pivot workArray
       O (length workArray))
    pivot workArray.

Definition shortArraySort (A : Type) (compare : A -> A -> Z) (l : list A)
    : list A :=
  let (runLength, isDescending) := countRun compare l in
  let run := firstn runLength l in
  fold_left (binaryInsert compare) (skipn runLength l)
    (if isDescending then rev run else run).

#[global, refine] Instance host : Host := {|
  toLowerCase := map lowerUnit;
  dateParse := isoDate;
  implementationSort := shortArraySort;
  toLowerCase_nil := eq_refl;
|}.
Proof.
  intros A compare l.
  assert (Hat : forall left (pivot : A) workArray,
            Permutation (insertAt left pivot workArray) (pivot :: workArray)).
  { induction left as [|left IH]; intros pivot [|element rest]; simpl;
      try reflexivity.
    rewrite IH. apply perm_swap. }
  assert (Hall : forall rest workArray,
            Permutation (fold_left (binaryInsert compare) rest workArray)
              (workArray ++ rest)).
  { induction rest as [|pivot rest IH]; intros workArray; simpl.
    - now rewrite app_nil_r.
    - rewrite IH. unfold binaryInsert. rewrite Hat.
      apply Permutation_middle. }
  unfold shortArraySort. destruct (countRun compare l) as [runLength isDescending].
  rewrite Hall.
  transitivity (firstn runLength l ++ skipn runLength l);
    [|now rewrite firstn_skipn].
  apply Permutation_app_tail.
  destruct isDescending; [symmetry; apply Permutation_rev | reflexivity].
Defined.

End BasicLatin.

(** ** The readings of the specification that the code is compared with *)

Module Spec.

(** A field is present when it holds a value. *)
Definition present (v : option jsstring) : bool := bool_decide (is_Some v).

(** The predicate the flags stand for: [hasDeadline] asks for a deadline
    that is present, [hasSupervisor] for a supervisor that is present. *)
Definition keeps (filters : Filters.t) (opp : Opportunity.t) : bool :=
  implb (Filters.fullyFunded filters) (Opportunity.fullyFunded opp)
  && implb (Filters.international filters) (Opportunity.international opp)
  && implb (Filters.hasDeadline filters) (present (Opportunity.deadline opp))
  && implb (Filters.hasSupervisor filters) (present (Opportunity.supervisor opp)).

(** The pairs (user interest, opportunity subject) in which one string
    contains the other once both are lower-cased. *)
Definition relatedPairs `{Host} (interests subjects : list jsstring)
    : list (jsstring * jsstring) :=
  List.filter
    (fun p => includes (toLowerCase p.2) (toLowerCase p.1)
              || includes (toLowerCase p.1) (toLowerCase p.2))
    (list_prod interests subjects).

(** The sequence a field of subjects stands for in the scorer; a field that
    is absent or empty has no subjects. *)
Definition subjectsOf (f : field) : list jsstring :=
  match f with
  | Items l => l
  | _ => []
  end.

(** The id the base score is computed with: the profile's, or "user123". *)
Definition userIdOf (user : UserProfile.t) : jsstring :=
  match UserProfile.id user with
  | Some (c :: s) => c :: s
  | _ => str "user123"
  end.

(** [scoreCache.get(id) ?? 32]: 32 for an id without an entry only. *)
Definition scoreOf (scoreCache : gmap jsstring Z) (opp : Opportunity.t) : Z :=
  default 32 (scoreCache !! Opportunity.id opp).

(** An opportunity has a usable date when the date field the sort reads
    parses. *)
Definition usableDate `{Host} (opp : Opportunity.t) : bool :=
  if truthy (Opportunity.postedDate opp)
  then match dateParse (default [] (Opportunity.postedDate opp)) with
       | Num _ => true | NaN => false end
  else if truthy (Opportunity.deadline opp)
  then match dateParse (default [] (Opportunity.deadline opp)) with
       | Num _ => true | NaN => false end
  else false.

(** The opportunities without a usable date come after all the others. *)
Fixpoint undatedLast `{Host} (l : list Opportunity.t) : bool :=
  match l with
  | [] => true
  | opp :: rest =>
      (usableDate opp || forallb (fun o => negb (usableDate o)) rest)
      && undatedLast rest
  end.

(** What the session's score cache is expected to hold: for every id, the
    bounded hash of that id and nothing else. *)
Definition cacheStable (scoreCache : gmap jsstring Z) : Prop :=
  forall k v, scoreCache !! k = Some v -> v = HashScore.boundedHash k 32 92.

(** The bulk score as the specification words it, [32 + (hash(id) mod 60)],
    in plain arithmetic: the hash runs through the code units of the id,
    each turn [hash * 32 - hash + code unit] wrapped to a signed 32-bit
    integer, and ends with the absolute value. *)
Definition bulkScore (id : jsstring) : Z :=
  32 + Z.abs (fold_left HashScore.wrapStep id 0) mod 60.

(** A cache whose entries are the bulk scores of their ids. *)
Definition holdsBulkScores (scoreCache : gmap jsstring Z) : Prop :=
  forall k v, scoreCache !! k = Some v -> v = bulkScore k.

End Spec.

(** ** Sample data *)

Module Samples.

Definition bare (id : string) : Opportunity.t :=
  Opportunity.Build (str id) None None None None Absent Absent None None
    false false None.

(** A listing as [searchOpportunities] builds them. *)
Definition robotics : Opportunity.t :=
  Opportunity.Build (str "opp-042")
    (Some (str "PhD in Robotics Research"))
    (Some (str "Stanford University"))
    (Some (str "Computer Science"))
    (Some (str "Work on robotics and machine learning; robotics labs, learning"))
    (Items [str "Machine Learning"; str "Robotics"])
    (Items [str "Strong programming skills"; str "Research experience"])
    (Some (str "2025-06-15")) (Some (str "2025-02-10")) true true
    (Some (str "Prof. Smith")).

(** The same listing with its subjects as one comma-delimited string. *)
Definition roboticsCommaSubjects : Opportunity.t :=
  Opportunity.Build (str "opp-042")
    (Some (str "PhD in Robotics Research"))
    (Some (str "Stanford University"))
    (Some (str "Computer Science"))
    (Some (str "Work on robotics and machine learning; robotics labs, learning"))
    (Text (str "Machine Learning, Robotics"))
    (Items [str "Strong programming skills"; str "Research experience"])
    (Some (str "2025-06-15")) (Some (str "2025-02-10")) true true
    (Some (str "Prof. Smith")).

(** A listing that carries the placeholder the page knows for a missing
    deadline. *)
Definition unspecifiedDeadline : Opportunity.t :=
  Opportunity.Build (str "phd-007") None None None None Absent Absent
    (Some (str "Deadline Not Specified")) None false false None.

Definition hasDeadlineOnly : Filters.t := Filters.Build false false true false [].

(** A listing with a year in its title. *)
Definition robotics2025 : Opportunity.t :=
  Opportunity.Build (str "phd-004") (Some (str "Robotics 2025")) None None None
    Absent Absent None None false false None.

Definition posted (id date : string) : Opportunity.t :=
  Opportunity.Build (str id) None None None None Absent Absent None
    (Some (str date)) false false None.

(** A fully funded listing with a posted date. *)
Definition postedFunded (id date : string) : Opportunity.t :=
  Opportunity.Build (str id) None None None None Absent Absent None
    (Some (str date)) true false None.

(** A listing whose description uses a word that every object inherits. *)
Definition compilers : Opportunity.t :=
  Opportunity.Build (str "phd-009") (Some (str "Verified compilers")) None None
    (Some (str "Every constructor of the syntax tree; each constructor twice"))
    Absent Absent None None false false None.

(** A cache that holds a score of 0, as the specification lets it. *)
Definition zeroCache : gmap jsstring Z :=
  <[str "a" := 0]> (<[str "b" := 10]> ∅).

Definition student : UserProfile.t :=
  UserProfile.Build (Some (str "user123"))
    (Some [str "machine learning"; str "Learning"; str "Biology"])
    (Some (str "I want to build robots.")).

(** A stored profile without a statement of purpose. *)
Definition noStatement : UserProfile.t :=
  UserProfile.Build (Some (str "user123"))
    (Some [str "machine learning"; str "Learning"; str "Biology"])
    None.

End Samples.

(** ** OpportunityCard.jsx: the saved opportunities *)

Module SavedList.

(** An element of the state [savedOpportunities]: an opportunity object,
    which [handleStatusChange] may have given a [status]. *)
Record entry : Type := Entry {
  listing : Opportunity.t;
  status : option jsstring;
}.

Definition idOf (e : entry) : jsstring := Opportunity.id (listing e).

(** [isOpportunitySaved(opportunityId)]:
    [savedOpportunities.some(saved => saved.id === opportunityId)]. *)
Definition isOpportunitySaved (savedOpportunities : list entry)
    (opportunityId : jsstring) : bool :=
  existsb (fun saved => streq (idOf saved) opportunityId) savedOpportunities.

(** [handleSaveOpportunity(opportunity)], as the next value of the state:
    an opportunity that is saved is filtered out by its id, one that is not
    is put at the end. *)
Definition handleSaveOpportunity (savedOpportunities : list entry)
    (opportunity : entry) : list entry :=
  let isAlreadySaved :=
    existsb (fun saved => streq (idOf saved) (idOf opportunity))
      savedOpportunities in
  if isAlreadySaved
  then List.filter (fun saved => negb (streq (idOf saved) (idOf opportunity)))
         savedOpportunities
  else savedOpportunities ++ [opportunity].

(** [handleStatusChange(opportunityId, status)], as the next value of the
    state: [{ ...opp, status }] for the entries with that id. *)
Definition handleStatusChange (savedOpportunities : list entry)
    (opportunityId status : jsstring) : list entry :=
  map (fun opp =>
         if streq (idOf opp) opportunityId
         then Entry (listing opp) (Some status)
         else opp)
    savedOpportunities.

(** The prop the page hands to a card:
    [onStatusChange={(status) => handleStatusChange(opportunity.id, status)}]. *)
Definition onStatusChange (savedOpportunities : list entry)
    (opportunity : entry) (status : jsstring) : list entry :=
  handleStatusChange savedOpportunities (idOf opportunity) status.

(** The click on a status of the dropdown of the card:
    [onStatusChange(opportunity.id, status)]. The prop takes one parameter,
    so the id is what it receives, and the second argument is dropped. *)
Definition statusClick (savedOpportunities : list entry)
    (opportunity : entry) (status : jsstring) : list entry :=
  onStatusChange savedOpportunities opportunity (idOf opportunity).

End SavedList.

(** ** OpportunityCard.jsx: the filter menu *)

Module FilterMenu.

(** [toggleFilter(filterName)], as the next value of the state [filters]:
    [{ ...prev, [filterName]: !prev[filterName] }]. The four names the
    buttons pass flip their flag; with any other name the state would leave
    the shape of [Filters.t], which is [None] here. *)
Definition toggleFilter (filterName : jsstring) (prev : Filters.t)
    : option Filters.t :=
  let ff := Filters.fullyFunded prev in
  let intl := Filters.international prev in
  let hd := Filters.hasDeadline prev in
  let hs := Filters.hasSupervisor prev in
  let subj := Filters.subjects prev in
  if streq filterName (str "fullyFunded")
  then Some (Filters.Build (negb ff) intl hd hs subj)
  else if streq filterName (str "international")
  then Some (Filters.Build ff (negb intl) hd hs subj)
  else if streq filterName (str "hasDeadline")
  then Some (Filters.Build ff intl (negb hd) hs subj)
  else if streq filterName (str "hasSupervisor")
  then Some (Filters.Build ff intl hd (negb hs) subj)
  else None.

(** A value of a property of [filters]. *)
Inductive value : Type :=
| VBool (b : bool)
| VArray (l : list jsstring).

(** [Boolean(v)]: an array is truthy, also when it is empty. *)
Definition toBoolean (v : value) : bool :=
  match v with
  | VBool b => b
  | VArray _ => true
  end.

(** [Object.values(filters)], in the order the keys were created. *)
Definition values (filters : Filters.t) : list value :=
  [VBool (Filters.fullyFunded filters); VBool (Filters.international filters);
   VBool (Filters.hasDeadline filters); VBool (Filters.hasSupervisor filters);
   VArray (Filters.subjects filters)].

(** The condition under which the button shows its badge. *)
Definition badgeShown (filters : Filters.t) : bool :=
  Filters.fullyFunded filters || Filters.international filters
  || Filters.hasDeadline filters || Filters.hasSupervisor filters.

(** The number in the badge:
    [Object.values(filters).filter(Boolean).length]. *)
Definition badgeCount (filters : Filters.t) : nat :=
  length (List.filter toBoolean (values filters)).

(** How many of the four flags are set. *)
Definition flagsSet (filters : Filters.t) : nat :=
  length (List.filter (fun b : bool => b)
            [Filters.fullyFunded filters; Filters.international filters;
             Filters.hasDeadline filters; Filters.hasSupervisor filters]).

(** In how many of the four flags two configurations differ. *)
Definition flagsChanged (f g : Filters.t) : nat :=
  length (List.filter (fun b : bool => b)
            [xorb (Filters.fullyFunded f) (Filters.fullyFunded g);
             xorb (Filters.international f) (Filters.international g);
             xorb (Filters.hasDeadline f) (Filters.hasDeadline g);
             xorb (Filters.hasSupervisor f) (Filters.hasSupervisor g)]).

(** The flags of two configurations together. *)
Definition both (f g : Filters.t) : Filters.t :=
  Filters.Build
    (Filters.fullyFunded f || Filters.fullyFunded g)
    (Filters.international f || Filters.international g)
    (Filters.hasDeadline f || Filters.hasDeadline g)
    (Filters.hasSupervisor f || Filters.hasSupervisor g)
    (Filters.subjects f).

End FilterMenu.

(** ** searchService.js: the two searches *)

Module Listing.
(** An opportunity as [searchOpportunities] builds it. *)
Record t : Type := Build {
  id : jsstring;
  title : jsstring;
  university : jsstring;
  department : jsstring;
  description : jsstring;
  requirements : list jsstring;
  deadline : jsstring;
  location : jsstring;
  stipend : jsstring;
  duration : jsstring;
  fullyFunded : bool;
  international : bool;
  supervisor : jsstring;
  subjects : list jsstring;
  postedDate : jsstring;
}.

(** The same object as the scorer and the page read it. *)
Definition toOpportunity (o : t) : Opportunity.t :=
  Opportunity.Build (id o) (Some (title o)) (Some (university o))
    (Some (department o)) (Some (description o)) (Items (subjects o))
    (Items (requirements o)) (Some (deadline o)) (Some (postedDate o))
    (fullyFunded o) (international o) (Some (supervisor o)).
End Listing.

Module Professor.
Record metrics : Type := Metrics {
  citations : Z;
  hIndex : Z;
  i10Index : Z;
}.

Record t : Type := Build {
  id : jsstring;
  name : jsstring;
  title : jsstring;
  university : jsstring;
  department : jsstring;
  researchAreas : list jsstring;
  publications : list jsstring;
  scholarMetrics : metrics;
  email : jsstring;
  profileUrl : jsstring;
}.
End Professor.

(** [String.prototype.toUpperCase], which the name of a professor needs,
    comes from the host like [toLowerCase]. *)
Class UpperCase : Type := {
  toUpperCase : jsstring -> jsstring;
}.

Module SearchResults.

(** The decimal digits of a non-negative integer, the last digit first
    pushed: what a template string makes of such a number. *)
Fixpoint digitsFrom (fuel : nat) (n : Z) (acc : jsstring) : jsstring :=
  match fuel with
  | O => acc
  | S fuel' =>
      let acc' := (48 + n mod 10) :: acc in
      if n <? 10 then acc' else digitsFrom fuel' (n / 10) acc'
  end.

Definition numberToString (n : Z) : jsstring :=
  digitsFrom (S (Z.to_nat (Z.log2 n))) n [].

(** The local [generateScore(str)] of both searches: the loop of the
    scorer, then [Math.abs(hash % 100)]. *)
Definition generateScore (s : jsstring) : Z :=
  Z.abs (Z.rem (SearchService.scoreLoop 0 s) 100).

(** [keyword || fallback]. *)
Definition orElse (keyword fallback : jsstring) : jsstring :=
  if truthy (Some keyword) then keyword else fallback.

(** [mockOpportunities] of [searchOpportunities]. *)
Definition stanford (keyword : jsstring) : Listing.t :=
  let k := orElse keyword (str "Computer Science") in
  Listing.Build
    (str "opp-" ++ numberToString (generateScore (keyword ++ str "1")))
    (str "PhD in " ++ k ++ str " Research")
    (str "Stanford University")
    (str "Computer Science")
    (str "This fully-funded position offers the opportunity to work on cutting-edge "
       ++ k ++ str " research with world-renowned faculty.")
    [str "Master's degree in " ++ k ++ str " or related field";
     str "Strong programming skills";
     str "Research experience";
     str "GRE scores above 320"]
    (str "2025-06-15")
    (str "Stanford, CA, USA")
    (str "$40,000 per year")
    (str "4-5 years")
    true true
    (str "Prof. Smith")
    [k; str "Machine Learning"; str "Artificial Intelligence"]
    (str "2025-02-10").

Definition mit (keyword : jsstring) : Listing.t :=
  let k := orElse keyword (str "Physics") in
  Listing.Build
    (str "opp-" ++ numberToString (generateScore (keyword ++ str "2")))
    (str "PhD Position in " ++ k ++ str " and Computing")
    (str "MIT")
    (str "Physics")
    (str "Join our vibrant research community at the forefront of "
       ++ k ++ str " and computing research.")
    [str "Master's degree in " ++ k ++ str " or related field";
     str "Strong background in mathematics";
     str "Programming experience";
     str "GRE subject test recommended"]
    (str "2025-05-01")
    (str "Cambridge, MA, USA")
    (str "$42,000 per year")
    (str "5 years")
    true true
    (str "Prof. Johnson")
    [k; str "Quantum Computing"; str "Computer Science"]
    (str "2025-01-15").

Definition berkeley (keyword : jsstring) : Listing.t :=
  let k := orElse keyword (str "Data Science") in
  Listing.Build
    (str "opp-" ++ numberToString (generateScore (keyword ++ str "3")))
    (str "PhD Scholarship in " ++ k)
    (str "UC Berkeley")
    (str "School of Information")
    (str "This scholarship supports research in " ++ k
       ++ str " with applications in various domains.")
    [str "Master's degree in " ++ k ++ str ", Computer Science, or Statistics";
     str "Strong analytical skills";
     str "Experience with data analysis tools";
     str "Excellent communication skills"]
    (str "2025-04-30")
    (str "Berkeley, CA, USA")
    (str "$38,000 per year")
    (str "4 years")
    false false
    (str "Prof. Chen")
    [k; str "Machine Learning"; str "Statistics"]
    (str "2025-01-05").

Definition mockOpportunities (keyword : jsstring) : list Listing.t :=
  [stanford keyword; mit keyword; berkeley keyword].

(** The four conditional filters of [searchOpportunities]; here the deadline
    filter asks for a truthy deadline and nothing more. *)
Definition applyFilters (filters : Filters.t) (l : list Listing.t)
    : list Listing.t :=
  let l :=
    if Filters.fullyFunded filters
    then List.filter Listing.fullyFunded l else l in
  let l :=
    if Filters.international filters
    then List.filter Listing.international l else l in
  let l :=
    if Filters.hasDeadline filters
    then List.filter (fun opp => truthy (Some (Listing.deadline opp))) l
    else l in
  if Filters.hasSupervisor filters
  then List.filter (fun opp => truthy (Some (Listing.supervisor opp))) l
  else l.

(** The time value of [new Date(opp.deadline)]. *)
Definition deadlineOf `{Host} (opp : Listing.t) : num :=
  dateParse (Listing.deadline opp).

(** The comparator of the sort by deadline: two invalid dates are equal, an
    invalid date comes after a valid one, and valid dates compare by
    [dateA - dateB]. *)
Definition compareDeadline `{Host} (a b : Listing.t) : num :=
  match deadlineOf a, deadlineOf b with
  | NaN, NaN => Num 0
  | NaN, Num _ => Num 1
  | Num _, NaN => Num (-1)
  | Num dateA, Num dateB => Num (dateA - dateB)
  end.

Definition sortByDeadline `{Host} (l : list Listing.t) : list Listing.t :=
  arraySort compareDeadline l.

(** The order the sort by deadline aims at. *)
Definition deadlineLe `{Host} (a b : Listing.t) : Prop :=
  match deadlineOf a, deadlineOf b with
  | Num dateA, Num dateB => dateA <= dateB
  | _, NaN => True
  | NaN, Num _ => False
  end.

(** [searchOpportunities(keyword, filters)]: the opportunities of the
    result it resolves to (the delay and the log apart). *)
Definition searchOpportunities `{Host} (keyword : jsstring)
    (filters : Filters.t) : list Listing.t :=
  sortByDeadline (applyFilters filters (mockOpportunities keyword)).

(** [query.toLowerCase().replace(/[^a-z0-9]/g, '')]. *)
Definition isLowerAlnum (c : Z) : bool :=
  ((97 <=? c) && (c <=? 122)) || ((48 <=? c) && (c <=? 57)).

Definition mailName `{Host} (query : jsstring) : jsstring :=
  List.filter isLowerAlnum (toLowerCase query).

(** [query.charAt(0).toUpperCase() + query.slice(1)] followed by a family
    name, or the fixed name when the query is empty. *)
Definition professorName `{UpperCase} (query family fixed : jsstring)
    : jsstring :=
  match query with
  | [] => fixed
  | c :: rest => toUpperCase [c] ++ rest ++ str " " ++ family
  end.

(** [mockProfessors] of [searchProfessors]. *)
Definition smith `{Host} `{UpperCase} (query : jsstring) : Professor.t :=
  Professor.Build
    (str "prof-" ++ numberToString (generateScore (query ++ str "1")))
    (professorName query (str "Smith") (str "John Smith"))
    (str "Professor")
    (str "Stanford University")
    (str "Computer Science")
    [str "Machine Learning"; str "Artificial Intelligence"; str "Computer Vision"]
    [str "Deep Learning for Computer Vision";
     str "Advances in Neural Networks";
     str "Reinforcement Learning Applications"]
    (Professor.Metrics
       (5000 + generateScore query)
       (30 + Z.rem (generateScore query) 20)
       (50 + Z.rem (generateScore query) 30))
    (mailName query ++ str "@stanford.edu")
    (str "https://cs.stanford.edu/faculty").

Definition johnson `{Host} `{UpperCase} (query : jsstring) : Professor.t :=
  Professor.Build
    (str "prof-" ++ numberToString (generateScore (query ++ str "2")))
    (professorName query (str "Johnson") (str "Sarah Johnson"))
    (str "Associate Professor")
    (str "MIT")
    (str "Electrical Engineering and Computer Science")
    [str "Natural Language Processing"; str "Machine Learning";
     str "Computational Linguistics"]
    [str "Transformer Models for NLP";
     str "Language Understanding in Context";
     str "Semantic Analysis Techniques"]
    (Professor.Metrics
       (3000 + generateScore query)
       (25 + Z.rem (generateScore query) 15)
       (40 + Z.rem (generateScore query) 20))
    (mailName query ++ str "@mit.edu")
    (str "https://eecs.mit.edu/faculty").

Definition chen `{Host} `{UpperCase} (query : jsstring) : Professor.t :=
  Professor.Build
    (str "prof-" ++ numberToString (generateScore (query ++ str "3")))
    (professorName query (str "Chen") (str "David Chen"))
    (str "Assistant Professor")
    (str "UC Berkeley")
    (str "Computer Science")
    [str "Robotics"; str "Computer Vision"; str "Human-Computer Interaction"]
    [str "Robotic Perception Systems";
     str "Vision-based Navigation";
     str "Interactive Learning for Robots"]
    (Professor.Metrics
       (1500 + generateScore query)
       (18 + Z.rem (generateScore query) 10)
       (25 + Z.rem (generateScore query) 15))
    (mailName query ++ str "@berkeley.edu")
    (str "https://cs.berkeley.edu/faculty").

(** [searchProfessors(query)]: the professors of the result it resolves
    to. *)
Definition searchProfessors `{Host} `{UpperCase} (query : jsstring)
    : list Professor.t :=
  [smith query; johnson query; chen query].

(** Upper-casing of Basic Latin, to evaluate with. *)
Definition upperUnit (c : Z) : Z :=
  if (97 <=? c) && (c <=? 122) then c - 32 else c.

#[global] Instance basicLatinUpper : UpperCase := {|
  toUpperCase := map upperUnit;
|}.

End SearchResults.
(** ** OpportunityCard.jsx: the image of a card *)

Module OpportunityImage.

(** [imageConfig.images]. *)
Definition images : list (jsstring * jsstring) :=
  [(str "default",
    str "https://images.pexels.com/photos/267885/pexels-photo-267885.jpeg");
   (str "biology",
    str "https://images.pexels.com/photos/356040/pexels-photo-356040.jpeg");
   (str "chemistry",
    str "https://images.pexels.com/photos/2280549/pexels-photo-2280549.jpeg");
   (str "physics",
    str "https://images.pexels.com/photos/60582/newton-s-cradle-balls-sphere-60582.jpeg");
   (str "math",
    str "https://images.pexels.com/photos/3683056/pexels-photo-3683056.jpeg");
   (str "computerScience",
    str "https://images.pexels.com/photos/546819/pexels-photo-546819.jpeg");
   (str "engineering",
    str "https://images.pexels.com/photos/3861969/pexels-photo-3861969.jpeg");
   (str "medicine",
    str "https://images.pexels.com/photos/3938022/pexels-photo-3938022.jpeg");
   (str "socialScience",
    str "https://images.pexels.com/photos/3184418/pexels-photo-3184418.jpeg");
   (str "arts",
    str "https://images.pexels.com/photos/1266808/pexels-photo-1266808.jpeg");
   (str "humanities",
    str "https://images.pexels.com/photos/159866/books-book-pages-read-literature-159866.jpeg");
   (str "business",
    str "https://images.pexels.com/photos/3183150/pexels-photo-3183150.jpeg");
   (str "science",
    str "https://images.pexels.com/photos/2280571/pexels-photo-2280571.jpeg")].

(** [obj[key]] for a key that is one of the object's own or none at all;
    the names of the categories are not names of [Object.prototype]. *)
Fixpoint get (key : jsstring) (obj : list (jsstring * jsstring))
    : option jsstring :=
  match obj with
  | [] => None
  | (k, v) :: rest => if streq k key then Some v else get key rest
  end.

(** [imageConfig.images.default]. *)
Definition defaultImage : jsstring :=
  default [] (get (str "default") images).

(** [s.split(',')]. *)
Fixpoint split (sep : Z) (s : jsstring) : list jsstring :=
  match s with
  | [] => [[]]
  | c :: rest =>
      if c =? sep then [] :: split sep rest
      else match split sep rest with
           | [] => [[c]]
           | piece :: pieces => (c :: piece) :: pieces
           end
  end.

(** The chain of tests on one term of the loop of [getCategory]: the
    category it returns, if any. *)
Definition categoryOf (term : jsstring) : option jsstring :=
  if includes term (str "bio") || includes term (str "life")
  then Some (str "biology")
  else if includes term (str "chem")
  then Some (str "chemistry")
  else if includes term (str "phys")
  then Some (str "physics")
  else if includes term (str "math") || includes term (str "stat")
  then Some (str "math")
  else if includes term (str "comp") || includes term (str "software")
          || includes term (str "data")
  then Some (str "computerScience")
  else if includes term (str "eng") || includes term (str "mech")
          || includes term (str "civil")
  then Some (str "engineering")
  else if includes term (str "med") || includes term (str "health")
          || includes term (str "nurs")
  then Some (str "medicine")
  else if includes term (str "soci") || includes term (str "psych")
          || includes term (str "econ")
  then Some (str "socialScience")
  else if includes term (str "art") || includes term (str "music")
          || includes term (str "design")
  then Some (str "arts")
  else if includes term (str "hist") || includes term (str "phil")
          || includes term (str "lang")
  then Some (str "humanities")
  else if includes term (str "business") || includes term (str "finance")
          || includes term (str "market")
  then Some (str "business")
  else None.

(** The loop over [allTerms]: an empty term is passed over, the first term
    that meets a test decides, and 'science' is what is left. *)
Fixpoint firstCategory (allTerms : list jsstring) : jsstring :=
  match allTerms with
  | [] => str "science"
  | term :: rest =>
      if negb (truthy (Some term)) then firstCategory rest
      else match categoryOf term with
           | Some category => category
           | None => firstCategory rest
           end
  end.

(** [allTerms]: the department, when there is one, then the subjects, an
    array as it is and a string cut at its commas and trimmed, all in lower
    case. *)
Definition allTerms `{Host} (department : option jsstring) (subjects : field)
    : list jsstring :=
  (if truthy department then [toLowerCase (default [] department)] else [])
  ++ (if fieldTruthy subjects
      then map toLowerCase
             match subjects with
             | Items l => l
             | Text s => map Opportunities.trim (split 44 s)
             | Absent => []
             end
      else []).

(** [getCategory()] for the opportunity of the card. *)
Definition getCategory `{Host} (opportunity : Opportunity.t) : jsstring :=
  firstCategory
    (allTerms (Opportunity.department opportunity)
       (Opportunity.subjects opportunity)).

(** The image the effect sets:
    [imageConfig.images[category] || imageConfig.images.default]. *)
Definition image `{Host} (opportunity : Opportunity.t) : jsstring :=
  let category := getCategory opportunity in
  match get category images with
  | Some url => if truthy (Some url) then url else defaultImage
  | None => defaultImage
  end.

(** The names [getCategory] can return. *)
Definition categories : list jsstring :=
  map str
    ["biology"; "chemistry"; "physics"; "math"; "computerScience";
     "engineering"; "medicine"; "socialScience"; "arts"; "humanities";
     "business"; "science"].

End OpportunityImage.
(** ** OpportunityCard.jsx: searching and generating *)

Module Page.
Import Opportunities.

(** The part of the state of the page that [handleSearch] writes. *)
Record state : Type := State {
  opportunities : list Opportunity.t;
  error : option jsstring;
}.

(** [handleSearch()], with [generated] what its call of
    [generateOpportunities()] returns. A blank query ends it with a warning
    before anything is set; otherwise the error is cleared and the generated
    opportunities that match the query in lower case replace the list. An
    exception of the filter is caught, and leaves the message and the list
    as it was. *)
Definition handleSearch `{Host} (generated : list Opportunity.t)
    (searchQuery : jsstring) (s : state) : state :=
  if negb (truthy (Some (trim searchQuery))) then s
  else
    let query := toLowerCase searchQuery in
    match filterM (matchesQuery query) generated with
    | Ok results => State results None
    | TypeError =>
        State (opportunities s)
          (Some (str "Failed to fetch opportunities. Please try again."))
    end.

(** [requirements] of [generateOpportunities]. *)
Definition requirements : list jsstring :=
  [str "Master's degree in relevant field";
   str "Strong programming skills";
   str "Background in machine learning";
   str "Experience with data analysis";
   str "Good communication skills";
   str "Publications in relevant conferences";
   str "Knowledge of statistical methods";
   str "Proficiency in Python/R";
   str "Background in mathematics";
   str "Research experience"].

(** The loop that picks the requirements of one opportunity. [draws] holds
    [Math.floor(Math.random() * requirements.length)] of each turn, so it
    has [numRequirements] elements, each below 10; a requirement that was
    picked before is not pushed again. *)
Fixpoint pickRequirements (draws : list nat)
    (opportunityRequirements : list jsstring) : list jsstring :=
  match draws with
  | [] => opportunityRequirements
  | draw :: rest =>
      let req := nth draw requirements [] in
      if existsb (streq req) opportunityRequirements
      then pickRequirements rest opportunityRequirements
      else pickRequirements rest (opportunityRequirements ++ [req])
  end.

End Page.
(** ** CalendarPopup.jsx: the date of the event *)

Module CalendarPopup.

(** The calendar day a [Date] stands for in local time, the months counted
    from 0 as [getMonth] and [setMonth] count them. The three setters of the
    handler leave the time of day alone. *)
Record date : Type := Date {
  fullYear : Z;
  month : Z;
  day : Z;
}.

(** The length of a month counted from 0. *)
Definition monthLength (y m : Z) : Z := BasicLatin.daysInMonth y (m + 1).

(** [MakeDay(year, month, date)] read back as a calendar day: a day of the
    month past the end of the month runs on into the months that follow. *)
Fixpoint rollOver (fuel : nat) (y m d : Z) : date :=
  match fuel with
  | O => Date y m d
  | S fuel' =>
      if d <=? monthLength y m then Date y m d
      else if m =? 11 then rollOver fuel' (y + 1) 0 (d - monthLength y m)
      else rollOver fuel' y (m + 1) (d - monthLength y m)
  end.

Definition makeDay (y m d : Z) : date := rollOver (Z.to_nat d) y m d.

(** [t.setFullYear(y)], [t.setMonth(m)] and [t.setDate(d)]: each replaces
    one field and keeps the two others as they read before the call. *)
Definition setFullYear (t : date) (y : Z) : date := makeDay y (month t) (day t).

Definition setMonth (t : date) (m : Z) : date := makeDay (fullYear t) m (day t).

Definition setDate (t : date) (d : Z) : date := makeDay (fullYear t) (month t) d.

(** The [onChange] of the date input; [year], [month] and [day] are the
    numbers the value of the input splits into, a day of the calendar with
    the months counted from 1. *)
Definition changeDate (current : date) (year month day : Z) : date :=
  let newDate := current in
  let newDate := setFullYear newDate year in
  let newDate := setMonth newDate (month - 1) in
  let newDate := setDate newDate day in
  newDate.

(** A day that exists in the calendar. *)
Definition valid (t : date) : Prop :=
  0 <= month t <= 11 /\ 1 <= day t <= monthLength (fullYear t) (month t).

(** The day of the month that [setMonth] finds: the day of the current
    date, or 1 when the current date is February 29 and the year that was
    picked has no such day. *)
Definition dayCarried (current : date) (year : Z) : Z :=
  if (month current =? 1) && (day current =? 29)
     && negb (BasicLatin.isLeap year)
  then 1 else day current.

End CalendarPopup.

(** ** Tactics *)

(** Use a [Forall] hypothesis at an element of the list. *)
Ltac forall_elim H := apply (proj1 (List.Forall_forall _ _) H).

(** Turn a boolean comparison of integers in a hypothesis into the
    inequality it decides. *)
Ltac ltb_prop E :=
  first [apply Z.ltb_lt in E | apply Z.ltb_ge in E].

(** * Proofs *)

(** ** The functions on concrete inputs *)

Section Evaluation.
Import HashScore SearchService KeywordExtractor Opportunities.

Example hashCode_phd_001 :
  hashCode (str "phd-001") = 607630768 /\ randomScore (str "phd-001") = 60.
Proof. split; reflexivity. Qed.

(** A hash whose accumulator ends negative. *)
Example hashCode_pangram :
  hashLoop 0 (str "the quick brown fox jumps over the lazy dog") = -2082818701
  /\ hashCode (str "the quick brown fox jumps over the lazy dog") = 2082818701.
Proof. split; reflexivity. Qed.

Example generateScore_opp_042 : generateScore (str "opp-042") (str "user123") = 6.
Proof. reflexivity. Qed.

Example splitWhitespace_runs :
  splitWhitespace (str " a  b ") = [[]; str "a"; str "b"; []]
  /\ splitWhitespace [] = [[]].
Proof. split; reflexivity. Qed.

(** The elements of an array of subjects are joined by commas, so the words
    on both sides of a comma run together. *)
Example extractKeywords_robotics :
  @keywordText BasicLatin.host Samples.robotics
  = str ("phd in robotics research work on robotics and machine learning; "
         ++ "robotics labs, learning computer science machine learning,robotics "
         ++ "strong programming skills,research experience")
  /\ @extractKeywords BasicLatin.host Samples.robotics
     = [str "robotics"; str "machine"; str "learning"].
Proof. split; reflexivity. Qed.

(** The word "constructor" is read through the prototype: its count is a
    text, not a number. *)
Example wordCounts_constructor :
  @wordCounts BasicLatin.host Samples.compilers
  = [(str "verified", Count 1); (str "compilers", Count 1);
     (str "every", Count 1); (str "constructor", Garbled 2);
     (str "syntax", Count 1); (str "tree", Count 1); (str "each", Count 1);
     (str "twice", Count 1)].
Proof. reflexivity. Qed.

(** The end-to-end example of the specification. *)
Example getSortedAndFilteredOpportunities_funded :
  @getSortedAndFilteredOpportunities BasicLatin.host
    [Samples.postedFunded "a" "2025-01-01"; Samples.posted "b" "2025-02-01"]
    [] (Filters.Build true false false false []) (str "date") ∅
  = Ok [Samples.postedFunded "a" "2025-01-01"].
Proof. reflexivity. Qed.

Example sortOpportunities_newest_first :
  map Opportunity.id
    (@sortOpportunities BasicLatin.host (str "date") ∅
       [Samples.bare "a"; Samples.posted "b" "2025-01-01";
        Samples.posted "c" "2025-03-01"; Samples.posted "d" "2025-01-01"])
  = [str "c"; str "b"; str "d"; str "a"].
Proof. reflexivity. Qed.

(** On a consistent comparator the order of the engine is the order of the
    stable insertion sort, as the language demands of every engine. *)
Example shortArraySort_dates :
  BasicLatin.shortArraySort Opportunity.t
    (sortCompare (@compareOpportunities BasicLatin.host (str "date") ∅))
    [Samples.posted "o1" "2024-03-01"; Samples.posted "o2" "2024-02-01";
     Samples.bare "u"; Samples.posted "e1" "2025-01-01";
     Samples.posted "n1" "2025-06-01"; Samples.posted "e2" "2025-01-01"]
  = sortBy
      (fun x y =>
         0 <? sortCompare (@compareOpportunities BasicLatin.host (str "date") ∅)
                x y)
      [Samples.posted "o1" "2024-03-01"; Samples.posted "o2" "2024-02-01";
       Samples.bare "u"; Samples.posted "e1" "2025-01-01";
       Samples.posted "n1" "2025-06-01"; Samples.posted "e2" "2025-01-01"]
  /\ map Opportunity.id
       (@sortOpportunities BasicLatin.host (str "date") ∅
          [Samples.posted "o1" "2024-03-01"; Samples.posted "o2" "2024-02-01";
           Samples.bare "u"; Samples.posted "e1" "2025-01-01";
           Samples.posted "n1" "2025-06-01"; Samples.posted "e2" "2025-01-01"])
     = [str "n1"; str "e1"; str "e2"; str "o1"; str "o2"; str "u"].
Proof. split; vm_compute; reflexivity. Qed.

End Evaluation.

(** ** 32-bit arithmetic *)

Section Int32.

Lemma toInt32_range x : - 2 ^ 31 <= toInt32 x < 2 ^ 31.
Proof. unfold toInt32. pose proof (Z.mod_pos_bound (x + 2 ^ 31) (2 ^ 32)). lia. Qed.

Lemma toInt32_small x : - 2 ^ 31 <= x < 2 ^ 31 -> toInt32 x = x.
Proof. intros Hx. unfold toInt32. rewrite Z.mod_small; lia. Qed.

Lemma toInt32_idem x : toInt32 (toInt32 x) = toInt32 x.
Proof. apply toInt32_small, toInt32_range. Qed.

(** [toInt32] only depends on the value modulo 2^32. *)
Lemma toInt32_congr x y : (x - y) mod 2 ^ 32 = 0 -> toInt32 x = toInt32 y.
Proof.
  intros Hxy. unfold toInt32. f_equal.
  apply Z.mod_divide in Hxy; [|lia]. destruct Hxy as [k Hk].
  replace (x + 2 ^ 31) with (y + 2 ^ 31 + k * 2 ^ 32) by lia.
  apply Z_mod_plus_full.
Qed.

Lemma toInt32_diff x : exists k, toInt32 x = x + k * 2 ^ 32.
Proof.
  exists (- ((x + 2 ^ 31) / 2 ^ 32)). unfold toInt32.
  rewrite Z.mod_eq by lia. lia.
Qed.

Lemma band_diag x : band x x = toInt32 x.
Proof. unfold band. apply Z.land_diag. Qed.

Lemma bor_0_r x : bor x 0 = toInt32 x.
Proof. unfold bor. change (toInt32 0) with 0. apply Z.lor_0_r. Qed.

Lemma shl_5 x : exists k, shl x 5 = x * 32 + k * 2 ^ 32.
Proof.
  unfold shl. rewrite Z.shiftl_mul_pow2 by lia.
  destruct (toInt32_diff x) as [k1 ->].
  destruct (toInt32_diff ((x + k1 * 2 ^ 32) * 2 ^ 5)) as [k2 ->].
  exists (k1 * 32 + k2). lia.
Qed.

End Int32.

(** ** HashScore *)

Section HashScoreProofs.
Import HashScore.

Lemma wrapStep_range h c : - 2 ^ 31 <= wrapStep h c < 2 ^ 31.
Proof. apply toInt32_range. Qed.

(** One turn of the loop of [hashCode] is one wrapping step. *)
Lemma hashCode_step h c :
  band (shl h 5 - h + c) (shl h 5 - h + c) = wrapStep h c.
Proof.
  rewrite band_diag. unfold wrapStep.
  destruct (shl_5 h) as [k ->]. apply toInt32_congr.
  replace (h * 32 + k * 2 ^ 32 - h + c - (h * 32 - h + c)) with (k * 2 ^ 32) by lia.
  apply Z.mod_mul. lia.
Qed.

(** So is one turn of the loop of [generateScore], which wraps with [|= 0]. *)
Lemma generateScore_step h c : bor (shl h 5 - h + c) 0 = wrapStep h c.
Proof. rewrite bor_0_r, <- band_diag. apply hashCode_step. Qed.

Lemma hashLoop_fold s : forall h, hashLoop h s = fold_left wrapStep s h.
Proof.
  induction s as [|c s IH]; intros h; simpl; [reflexivity|].
  rewrite hashCode_step. apply IH.
Qed.

Lemma scoreLoop_hashLoop s : forall h, SearchService.scoreLoop h s = hashLoop h s.
Proof.
  induction s as [|c s IH]; intros h; simpl; [reflexivity|].
  rewrite generateScore_step, hashCode_step. apply IH.
Qed.

Lemma fold_wrapStep_range s :
  forall h, - 2 ^ 31 <= h < 2 ^ 31 -> - 2 ^ 31 <= fold_left wrapStep s h < 2 ^ 31.
Proof.
  induction s as [|c s IH]; intros h Hh; simpl; [exact Hh|].
  apply IH, wrapStep_range.
Qed.

Lemma hashCode_range s : 0 <= hashCode s <= 2 ^ 31.
Proof.
  unfold hashCode. rewrite hashLoop_fold.
  pose proof (fold_wrapStep_range s 0 ltac:(lia)). lia.
Qed.

(** [boundedHash] stays in its interval. *)
Lemma boundedHash_range text lo hi :
  lo < hi -> lo <= boundedHash text lo hi < hi.
Proof.
  intros Hlt. unfold boundedHash.
  pose proof (hashCode_range text) as [H0 _].
  pose proof (Z.rem_bound_pos (hashCode text) (hi - lo) H0 ltac:(lia)). lia.
Qed.

(** C2, as the specification states it, fails on a two-letter string: the
    code computes [97 * 31 + 98] for "ab", the formula
    [(hash * 31 - hash) + codepoint] gives [97 * 30 + 98]. *)
Lemma hashCode_differs_from_specHash :
  hashCode (str "ab") = 3105 /\ specHash (str "ab") = 3008
  /\ hashCode (str "ab") <> specHash (str "ab").
Proof. vm_compute. repeat split; discriminate. Qed.

(** C2, amended: [hashCode] runs through the code units in sequence, each
    turn replacing the accumulator by [(hash * 32 - hash) + code unit], that
    is [hash * 31 + code unit], wrapped to a signed 32-bit integer as
    two's-complement overflow does; the accumulator never leaves the 32-bit
    range; the result is the absolute value of the accumulator, and it is 0
    for the empty string. The result is a function of the string alone, so
    two calls on the same string agree. *)
Theorem hashCode_wrapping (s : jsstring) :
  hashCode s = Z.abs (fold_left wrapStep s 0)
  /\ (forall h c, wrapStep h c = toInt32 (31 * h + c))
  /\ (forall h c,
        exists k, wrapStep h c = 31 * h + c + k * 2 ^ 32
                  /\ - 2 ^ 31 <= wrapStep h c < 2 ^ 31)
  /\ - 2 ^ 31 <= fold_left wrapStep s 0 < 2 ^ 31
  /\ hashCode [] = 0.
Proof.
  split; [unfold hashCode; now rewrite hashLoop_fold|].
  split; [intros h c; unfold wrapStep; f_equal; lia|].
  split.
  - intros h c. destruct (toInt32_diff (h * 32 - h + c)) as [k Hk].
    exists k. split; [unfold wrapStep; lia | apply wrapStep_range].
  - split; [apply fold_wrapStep_range; lia | reflexivity].
Qed.

End HashScoreProofs.

(** ** CompatibilityScorer *)

Section ScorerProofs.
Context `{Host}.
Import HashScore SearchService Spec.

(** [generateScore] is the bounded hash of the combined string: taking the
    remainder before the absolute value, as the code does, or after it, as
    [boundedHash] does, gives the same number. *)
Lemma generateScore_boundedHash oppId userId :
  generateScore oppId userId = boundedHash (oppId ++ str "-" ++ userId) 0 100.
Proof.
  unfold generateScore, boundedHash, hashCode.
  rewrite scoreLoop_hashLoop, Z.sub_0_r, Z.add_0_l.
  set (h := hashLoop 0 _). clearbody h.
  rewrite <- (Z.rem_abs h 100) by lia. reflexivity.
Qed.

(** The inner loop adds 5 for every subject related to the interest. *)
Lemma inner_loop_count (f : jsstring -> jsstring) interest subjects :
  forall bonus,
    fold_left
      (fun bonus subject => if related interest subject then bonus + 5 else bonus)
      (map f subjects) bonus
    = bonus + 5 * Z.of_nat (length (List.filter
                                     (fun s => related interest (f s)) subjects)).
Proof.
  induction subjects as [|s ss IH]; intros bonus; simpl; [lia|].
  rewrite IH. destruct (related interest (f s)); simpl length; lia.
Qed.

Lemma filter_map_pair {A B : Type} (P : A * B -> bool) (a : A) (l : list B) :
  length (List.filter P (map (fun y => (a, y)) l))
  = length (List.filter (fun y => P (a, y)) l).
Proof.
  induction l as [|y l IH]; simpl; [reflexivity|].
  destruct (P (a, y)); simpl; now rewrite IH.
Qed.

Lemma relatedPairs_cons i interests subjects :
  length (relatedPairs (i :: interests) subjects)
  = (length (List.filter (fun s => related (toLowerCase i) (toLowerCase s)) subjects)
     + length (relatedPairs interests subjects))%nat.
Proof.
  unfold relatedPairs. simpl list_prod.
  rewrite List.filter_app, length_app, filter_map_pair. reflexivity.
Qed.

Lemma interestLoop_count interests subjects :
  interestLoop (map toLowerCase interests) (map toLowerCase subjects)
  = 5 * Z.of_nat (length (relatedPairs interests subjects)).
Proof.
  unfold interestLoop.
  enough (forall b,
    fold_left
      (fun bonus interest =>
         fold_left
           (fun bonus subject =>
              if related interest subject then bonus + 5 else bonus)
           (map toLowerCase subjects) bonus)
      (map toLowerCase interests) b
    = b + 5 * Z.of_nat (length (relatedPairs interests subjects))) as E
    by (rewrite E; lia).
  induction interests as [|i rest IH]; intros b; simpl fold_left.
  - unfold relatedPairs. simpl. lia.
  - rewrite inner_loop_count, IH, relatedPairs_cons. lia.
Qed.

End ScorerProofs.

Section ScorerClaims.
Context `{Host}.
Import HashScore SearchService Spec.

Lemma related_lower i s :
  related (toLowerCase i) (toLowerCase s)
  = includes (toLowerCase s) (toLowerCase i)
    || includes (toLowerCase i) (toLowerCase s).
Proof. reflexivity. Qed.

Lemma userId_userIdOf user :
  (if truthy (UserProfile.id user) then default [] (UserProfile.id user)
   else str "user123") = userIdOf user.
Proof. unfold userIdOf. now destruct (UserProfile.id user) as [[|c s]|]. Qed.

Lemma relatedPairs_nil_r interests : relatedPairs interests [] = [].
Proof. unfold relatedPairs. now induction interests. Qed.

Lemma interestBonus_ok interests subjects :
  interests = None \/ (forall c s, subjects <> Text (c :: s)) ->
  interestBonus interests subjects
  = Ok (5 * Z.of_nat (length (relatedPairs (default [] interests)
                                (subjectsOf subjects)))).
Proof.
  intros Hty. unfold interestBonus.
  destruct interests as [l|]; [|reflexivity].
  destruct subjects as [|[|c s]|ss]; simpl.
  - now rewrite relatedPairs_nil_r.
  - now rewrite relatedPairs_nil_r.
  - destruct Hty as [Hn|Hn]; [discriminate | now destruct (Hn c s)].
  - now rewrite interestLoop_count.
Qed.



(** C8: an absent opportunity or an absent profile gives the default 50. *)
Theorem calculateCompatibilityScore_absent (opportunity : option Opportunity.t)
    (userProfile : option UserProfile.t) :
  calculateCompatibilityScore opportunity None = Ok 50
  /\ calculateCompatibilityScore None userProfile = Ok 50.
Proof. split; [now destruct opportunity | reflexivity]. Qed.

End ScorerClaims.


(** ** The score cache *)

Section ScoreCacheProofs.
Import HashScore Opportunities Spec.

Lemma randomScore_boundedHash oppId : randomScore oppId = boundedHash oppId 32 92.
Proof. reflexivity. Qed.

(** A turn of the loop leaves every score that is already there alone. *)
Lemma scoreStep_keeps (scores : gmap jsstring Z) opp k v :
  scores !! k = Some v -> scoreStep scores opp !! k = Some v.
Proof.
  intros Hk. unfold scoreStep.
  destruct (scores !! Opportunity.id opp) eqn:Hid; [exact Hk|].
  rewrite lookup_insert_ne; [exact Hk | congruence].
Qed.

Lemma scoreLoop_keeps opps : forall (scores : gmap jsstring Z) k v,
  scores !! k = Some v -> fold_left scoreStep opps scores !! k = Some v.
Proof.
  induction opps as [|o opps IH]; intros scores k v Hk; simpl; [exact Hk|].
  apply IH, scoreStep_keeps, Hk.
Qed.

Lemma scoreStep_stable (scores : gmap jsstring Z) opp :
  cacheStable scores -> cacheStable (scoreStep scores opp).
Proof.
  intros Hst k v. unfold scoreStep.
  destruct (scores !! Opportunity.id opp) eqn:Hid; [apply Hst|].
  destruct (decide (Opportunity.id opp = k)) as [->|Hne].
  - rewrite lookup_insert_eq. intros [= <-]. apply randomScore_boundedHash.
  - rewrite lookup_insert_ne by exact Hne. apply Hst.
Qed.

Lemma scoreLoop_stable opps : forall scores : gmap jsstring Z,
  cacheStable scores -> cacheStable (fold_left scoreStep opps scores).
Proof.
  induction opps as [|o opps IH]; intros scores Hst; simpl; [exact Hst|].
  apply IH, scoreStep_stable, Hst.
Qed.

Lemma scoreStep_sets (scores : gmap jsstring Z) opp :
  is_Some (scoreStep scores opp !! Opportunity.id opp).
Proof.
  unfold scoreStep. destruct (scores !! Opportunity.id opp) eqn:Hid.
  - rewrite Hid. eauto.
  - rewrite lookup_insert_eq. eauto.
Qed.

Lemma scoreLoop_sets opps : forall (scores : gmap jsstring Z) o,
  In o opps -> is_Some (fold_left scoreStep opps scores !! Opportunity.id o).
Proof.
  induction opps as [|o' opps IH]; intros scores o Hin; simpl; [destruct Hin|].
  destruct Hin as [->|Hin]; [|now apply IH].
  destruct (scoreStep_sets scores o) as [v Hv].
  exists v. now apply scoreLoop_keeps.
Qed.

Lemma cacheStable_empty : cacheStable ∅.
Proof. intros k v Hk. rewrite lookup_empty in Hk. discriminate. Qed.

Lemma randomScore_bulkScore oppId : randomScore oppId = bulkScore oppId.
Proof.
  unfold randomScore, bulkScore, hashCode. cbv zeta. rewrite hashLoop_fold.
  change (92 - 32) with 60. f_equal.
  apply Z.rem_mod_nonneg; lia.
Qed.

Lemma bulkScore_range oppId : 32 <= bulkScore oppId < 92.
Proof.
  unfold bulkScore.
  pose proof (Z.mod_pos_bound (Z.abs (fold_left wrapStep oppId 0)) 60). lia.
Qed.

Lemma holdsBulkScores_cacheStable (scoreCache : gmap jsstring Z) :
  holdsBulkScores scoreCache <-> cacheStable scoreCache.
Proof.
  unfold holdsBulkScores, cacheStable.
  split; intros Hc k v Hk; rewrite (Hc k v Hk);
    [rewrite <- randomScore_boundedHash | rewrite <- randomScore_bulkScore];
    [symmetry; apply randomScore_bulkScore | apply randomScore_boundedHash].
Qed.

(** C9, as the specification states it, fails where it places the score:
    without a statement of purpose [calculateScores] returns before it
    computes anything, the cache stays empty, and the score the page uses
    for "opp-042" is the default 32, not its bulk score 36. *)
Lemma calculateScores_without_statement :
  truthy (UserProfile.sop Samples.noStatement) = false
  /\ calculateScores [Samples.robotics] Samples.noStatement ∅ = ∅
  /\ scoreOf (calculateScores [Samples.robotics] Samples.noStatement ∅)
       Samples.robotics = 32
  /\ bulkScore (Opportunity.id Samples.robotics) = 36
  /\ boundedHash (Opportunity.id Samples.robotics) 32 92 = 36.
Proof. repeat split; reflexivity. Qed.

(** C9, amended: when the stored profile has a statement of purpose,
    [calculateScores] gives every listed id the score
    [32 + (hash(id) mod 60)], with [hash] the absolute value of the 32-bit
    wrapped accumulator, which lies in [32, 92). Starting from a cache that
    holds only such scores, the cache again holds only such scores after any
    run, so an id that has an entry before and after has the same entry;
    inside one run, a score that is set is never overwritten. Without a
    statement of purpose the run computes nothing and leaves the cache as it
    is. *)
Theorem calculateScores_stable (opportunities : list Opportunity.t)
    (userProfile : UserProfile.t) (sortedScores : gmap jsstring Z) :
  holdsBulkScores sortedScores ->
  let scores := calculateScores opportunities userProfile sortedScores in
  holdsBulkScores scores
  /\ (forall k, randomScore k = bulkScore k /\ 32 <= bulkScore k < 92)
  /\ (forall k v v', sortedScores !! k = Some v -> scores !! k = Some v' -> v' = v)
  /\ (forall (partial : gmap jsstring Z) k v,
        partial !! k = Some v ->
        fold_left scoreStep opportunities partial !! k = Some v)
  /\ (truthy (UserProfile.sop userProfile) = true ->
      forall o, In o opportunities ->
        scores !! Opportunity.id o = Some (bulkScore (Opportunity.id o)))
  /\ (truthy (UserProfile.sop userProfile) = false -> scores = sortedScores).
Proof.
  intros Hst scores.
  assert (Hst' : holdsBulkScores scores).
  { unfold scores, calculateScores. destruct opportunities as [|o l]; [exact Hst|].
    destruct (negb _); [exact Hst|].
    apply holdsBulkScores_cacheStable, scoreLoop_stable, cacheStable_empty. }
  split; [exact Hst'|]. split; [|split; [|split; [|split]]].
  - intros k. split; [apply randomScore_bulkScore | apply bulkScore_range].
  - intros k v v' Hk Hk'. rewrite (Hst _ _ Hk), (Hst' _ _ Hk'). reflexivity.
  - intros partial k v. apply scoreLoop_keeps.
  - intros Hsop o Hin. unfold scores, calculateScores in *.
    destruct opportunities as [|o' l]; [destruct Hin|]. rewrite Hsop in *. simpl negb in *.
    cbv iota in *.
    destruct (scoreLoop_sets (o' :: l) ∅ o Hin) as [v Hv].
    rewrite Hv. f_equal. exact (Hst' _ _ Hv).
  - intros Hsop. unfold scores, calculateScores.
    destruct opportunities; [reflexivity|]. now rewrite Hsop.
Qed.

End ScoreCacheProofs.

Lemma calculateScores_stable_witness :
  Spec.holdsBulkScores (∅ : gmap jsstring Z)
  /\ Opportunities.calculateScores [Samples.robotics] Samples.student ∅
       !! str "opp-042"
     = Some 36.
Proof.
  assert (Hempty : Spec.holdsBulkScores (∅ : gmap jsstring Z)).
  { intros k v Hk. rewrite lookup_empty in Hk. discriminate. }
  split; [exact Hempty|].
  exact (proj1 (proj2 (proj2 (proj2 (proj2
    (calculateScores_stable [Samples.robotics] Samples.student ∅ Hempty)))))
    eq_refl Samples.robotics (or_introl eq_refl)).
Defined.

(** ** The insertion sort *)

Section SortProofs.
Context {A : Type} (gt : A -> A -> bool).

Lemma insertBy_Permutation x l : Permutation (insertBy gt x l) (x :: l).
Proof.
  induction l as [|y l IH]; simpl; [reflexivity|].
  destruct (gt x y); [|reflexivity].
  rewrite IH. apply perm_swap.
Qed.

Lemma sortBy_Permutation l : Permutation (sortBy gt l) l.
Proof.
  induction l as [|x l IH]; simpl; [reflexivity|].
  rewrite insertBy_Permutation. now apply perm_skip.
Qed.

Lemma sortBy_In l x : In x (sortBy gt l) <-> In x l.
Proof.
  split; apply Permutation_in;
    [apply sortBy_Permutation | symmetry; apply sortBy_Permutation].
Qed.

Lemma insertBy_sorted (R : A -> A -> Prop) x l :
  (forall a b c, R a b -> R b c -> R a c) ->
  StronglySorted R l -> Forall (agrees gt R x) l ->
  StronglySorted R (insertBy gt x l).
Proof.
  intros Htrans Hs Hx. induction Hs as [|y l Hs IH Hy]; simpl.
  - repeat constructor.
  - apply Forall_cons_iff in Hx as [[Hgt Hle] Hx].
    destruct (gt x y) eqn:E.
    + constructor; [now apply IH|].
      apply (Permutation_Forall (x := x :: l)).
      * symmetry. apply insertBy_Permutation.
      * constructor; [now apply Hgt | exact Hy].
    + constructor; [now constructor|].
      constructor; [now apply Hle|].
      eapply List.Forall_impl; [|exact Hy]. intros z Hz.
      eapply Htrans; [now apply Hle | exact Hz].
Qed.

Lemma sortBy_sorted (R : A -> A -> Prop) l :
  (forall a b c, R a b -> R b c -> R a c) ->
  ForallOrdPairs (agrees gt R) l -> StronglySorted R (sortBy gt l).
Proof.
  intros Htrans Hl. induction Hl as [|x l Hx Hl IH]; simpl; [constructor|].
  apply insertBy_sorted; [exact Htrans | exact IH |].
  eapply Permutation_Forall; [symmetry; apply sortBy_Permutation | exact Hx].
Qed.

(** Stability: the elements of a class whose members the comparator never
    puts behind one another keep their order. *)
Lemma insertBy_filter (P : A -> bool) x l :
  (forall y, P x = true -> P y = true -> gt x y = false) ->
  List.filter P (insertBy gt x l) = List.filter P (x :: l).
Proof.
  intros Hx. induction l as [|y l IH]; simpl; [reflexivity|].
  destruct (gt x y) eqn:E; [|reflexivity].
  simpl. rewrite IH. simpl.
  destruct (P x) eqn:Px; [|reflexivity].
  destruct (P y) eqn:Py; [|reflexivity].
  rewrite (Hx y eq_refl Py) in E. discriminate.
Qed.

Lemma sortBy_stable (P : A -> bool) l :
  (forall x y, P x = true -> P y = true -> gt x y = false) ->
  List.filter P (sortBy gt l) = List.filter P l.
Proof.
  intros HP. induction l as [|x l IH]; simpl; [reflexivity|].
  rewrite insertBy_filter by (intros y; apply HP).
  simpl. now rewrite IH.
Qed.

End SortProofs.

(** ** [Array.prototype.sort] *)

Section ArraySortProofs.
Context `{Host} {A : Type}.
Implicit Types (comparefn : A -> A -> num) (l : list A).

(** Whatever the comparator, the sort returns the elements it was given. *)
Lemma arraySort_Permutation comparefn l : Permutation (arraySort comparefn l) l.
Proof.
  unfold arraySort. destruct (consistent comparefn l);
    [apply sortBy_Permutation | apply implementationSort_Permutation].
Qed.

Lemma arraySort_In comparefn l x : In x (arraySort comparefn l) <-> In x l.
Proof.
  split; apply Permutation_in;
    [apply arraySort_Permutation | symmetry; apply arraySort_Permutation].
Qed.

(** With a consistent comparator the result is that of the stable
    insertion sort. *)
Lemma arraySort_consistent comparefn l :
  consistent comparefn l = true ->
  arraySort comparefn l = sortBy (fun x y => 0 <? sortCompare comparefn x y) l.
Proof. unfold arraySort. now intros ->. Qed.

Lemma arraySort_singleton comparefn (x : A) : arraySort comparefn [x] = [x].
Proof.
  apply Permutation_length_1_inv. symmetry. apply arraySort_Permutation.
Qed.

Lemma consistent_intro comparefn l :
  (forall a b, In a l -> In b l -> comparefn a b <> NaN) ->
  (forall a, In a l -> sortCompare comparefn a a = 0) ->
  (forall a b, In a l -> In b l ->
     sortCompare comparefn a b = 0 -> sortCompare comparefn b a = 0) ->
  (forall a b c, In a l -> In b l -> In c l ->
     sortCompare comparefn a b = 0 -> sortCompare comparefn b c = 0 ->
     sortCompare comparefn a c = 0) ->
  (forall a b c, In a l -> In b l -> In c l ->
     sortCompare comparefn a b < 0 -> sortCompare comparefn b c < 0 ->
     sortCompare comparefn a c < 0) ->
  (forall a b c, In a l -> In b l -> In c l ->
     0 < sortCompare comparefn a b -> 0 < sortCompare comparefn b c ->
     0 < sortCompare comparefn a c) ->
  consistent comparefn l = true.
Proof.
  intros Hnum Hrefl Hsym Heq Hlt Hgt. unfold consistent. cbv zeta.
  apply forallb_forall. intros a Ha. apply andb_true_iff. split.
  { apply Z.eqb_eq. now apply Hrefl. }
  apply forallb_forall. intros b Hb. rewrite !andb_true_iff. split; [split|].
  - specialize (Hnum a b Ha Hb). now destruct (comparefn a b).
  - destruct (Z.eqb_spec (sortCompare comparefn a b) 0) as [E|]; [|reflexivity].
    simpl. apply Z.eqb_eq. now apply Hsym.
  - apply forallb_forall. intros c Hc. rewrite !andb_true_iff. split; [split|].
    + destruct (Z.eqb_spec (sortCompare comparefn a b) 0) as [E1|]; [|reflexivity].
      destruct (Z.eqb_spec (sortCompare comparefn b c) 0) as [E2|]; [|reflexivity].
      simpl. apply Z.eqb_eq. now apply (Heq a b c).
    + destruct (Z.ltb_spec (sortCompare comparefn a b) 0) as [E1|]; [|reflexivity].
      destruct (Z.ltb_spec (sortCompare comparefn b c) 0) as [E2|]; [|reflexivity].
      simpl. apply Z.ltb_lt. now apply (Hlt a b c).
    + destruct (Z.ltb_spec 0 (sortCompare comparefn a b)) as [E1|]; [|reflexivity].
      destruct (Z.ltb_spec 0 (sortCompare comparefn b c)) as [E2|]; [|reflexivity].
      simpl. apply Z.ltb_lt. now apply (Hgt a b c).
Qed.

(** A comparator that subtracts the keys of its arguments is consistent. *)
Lemma consistent_by_key (key : A -> Z) comparefn l :
  (forall a b, In a l -> In b l -> comparefn a b = Num (key b - key a)) ->
  consistent comparefn l = true.
Proof.
  intros Hkey.
  assert (Hcf : forall a b, In a l -> In b l ->
            sortCompare comparefn a b = key b - key a).
  { intros a b Ha Hb. unfold sortCompare. now rewrite (Hkey a b Ha Hb). }
  apply consistent_intro.
  - intros a b Ha Hb. now rewrite (Hkey a b Ha Hb).
  - intros a Ha. rewrite Hcf by assumption. lia.
  - intros a b Ha Hb. rewrite !Hcf by assumption. lia.
  - intros a b c Ha Hb Hc. rewrite !Hcf by assumption. lia.
  - intros a b c Ha Hb Hc. rewrite !Hcf by assumption. lia.
  - intros a b c Ha Hb Hc. rewrite !Hcf by assumption. lia.
Qed.

(** A comparator that is not consistent on some of the elements is not
    consistent on all of them: one call that returns [NaN] is enough. *)
Lemma consistent_NaN comparefn l a b :
  In a l -> In b l -> comparefn a b = NaN -> consistent comparefn l = false.
Proof.
  intros Ha Hb E. apply not_true_iff_false. intros Hc.
  unfold consistent in Hc. cbv zeta in Hc.
  rewrite forallb_forall in Hc. specialize (Hc a Ha).
  apply andb_true_iff in Hc as [_ Hc].
  rewrite forallb_forall in Hc. specialize (Hc b Hb).
  rewrite E in Hc. discriminate.
Qed.

End ArraySortProofs.

(** ** FilterPipeline *)

Section FilterProofs.
Context `{Host}.
Import Opportunities.

Lemma filter_and {A : Type} (f g : A -> bool) l :
  List.filter g (List.filter f l) = List.filter (fun x => f x && g x) l.
Proof.
  induction l as [|x l IH]; simpl; [reflexivity|].
  destruct (f x); simpl; [destruct (g x)|]; now rewrite IH.
Qed.

Lemma filter_all {A : Type} (l : list A) : List.filter (fun _ => true) l = l.
Proof. induction l as [|x l IH]; simpl; now rewrite ?IH. Qed.

Lemma filter_if {A : Type} (c : bool) (f : A -> bool) l :
  (if c then List.filter f l else l) = List.filter (fun x => implb c (f x)) l.
Proof. destruct c; simpl; [reflexivity | now rewrite filter_all]. Qed.

(** The chain of conditional filters is one filter by [passesFlags]. *)
Lemma applyFlags_filter filters l :
  applyFlags filters l = List.filter (passesFlags filters) l.
Proof.
  unfold applyFlags, passesFlags. cbv zeta.
  rewrite !filter_if, !filter_and.
  apply List.filter_ext. intros o. now rewrite !andb_assoc.
Qed.

(** A search that returns has kept the opportunities on which the callback
    returned true. *)
Lemma filterM_Ok {A : Type} (f : A -> result bool) l : forall r,
  filterM f l = Ok r ->
  r = List.filter (fun x => match f x with Ok b => b | TypeError => false end) l.
Proof.
  induction l as [|x l IH]; simpl; intros r Hr; [now inversion Hr|].
  destruct (f x) as [b|]; simpl in Hr; [|discriminate].
  destruct (filterM f l) as [r'|]; simpl in Hr; [|discriminate].
  inversion Hr; subst. rewrite (IH r' eq_refl). now destruct b.
Qed.

(** The search returns when the callback does on every element. *)
Lemma filterM_total {A : Type} (f : A -> result bool) l :
  Forall (fun x => exists b, f x = Ok b) l -> exists r, filterM f l = Ok r.
Proof.
  induction 1 as [|x l [b Hb] _ [r Hr]]; simpl; [eauto|].
  rewrite Hb, Hr. simpl. eauto.
Qed.

Lemma matchesQuery_total query opp :
  searchable opp = true -> exists b, matchesQuery query opp = Ok b.
Proof.
  unfold searchable, matchesQuery, lowerIncludes.
  destruct (Opportunity.title opp), (Opportunity.university opp),
    (Opportunity.department opp), (Opportunity.description opp);
    simpl; try discriminate; intros _.
  repeat (match goal with |- context [if ?b then _ else _] => destruct b end;
          simpl; eauto).
Qed.

Lemma filterOpportunities_blank opportunities searchQuery filters :
  truthy (Some (trim searchQuery)) = false ->
  filterOpportunities opportunities searchQuery filters
  = Ok (List.filter (passesFlags filters) opportunities).
Proof.
  intros E. unfold filterOpportunities. rewrite E.
  now rewrite <- applyFlags_filter.
Qed.

(** C3, as the specification states it, fails on the placeholder deadline:
    the listing has a deadline field, so a filter on the presence of the
    deadline keeps it, and the code drops it. *)
Lemma filterOpportunities_placeholder_deadline :
  @filterOpportunities BasicLatin.host [Samples.unspecifiedDeadline] []
    Samples.hasDeadlineOnly = Ok []
  /\ List.filter (Spec.keeps Samples.hasDeadlineOnly) [Samples.unspecifiedDeadline]
     = [Samples.unspecifiedDeadline].
Proof. split; reflexivity. Qed.

(** C3, amended: filtering keeps, in the order of the input, exactly the
    opportunities that pass the search and every flag that is set, where
    [fullyFunded] and [international] ask for the field to be true,
    [hasDeadline] for a deadline that is a non-empty string other than the
    placeholder "Deadline Not Specified", and [hasSupervisor] for a supervisor
    that is a non-empty string. With a blank query the flags alone decide, so
    [filter(opps, "", {fullyFunded:true})] is exactly the fully funded
    opportunities in their original order; with a query the call returns
    whenever every opportunity has the four fields the search reads. *)
Theorem filterOpportunities_flags (opportunities : list Opportunity.t)
    (searchQuery : jsstring) (filters : Filters.t) :
  (truthy (Some (trim searchQuery)) = false ->
   filterOpportunities opportunities searchQuery filters
   = Ok (List.filter (passesFlags filters) opportunities))
  /\ (truthy (Some (trim searchQuery)) = true ->
      forall r, filterOpportunities opportunities searchQuery filters = Ok r ->
        r = List.filter
              (fun o => passesQuery searchQuery o && passesFlags filters o)
              opportunities)
  /\ (Forall (fun o => searchable o = true) opportunities ->
      exists r, filterOpportunities opportunities searchQuery filters = Ok r)
  /\ (forall subjects,
        filterOpportunities opportunities []
          (Filters.Build true false false false subjects)
        = Ok (List.filter Opportunity.fullyFunded opportunities))
  /\ (forall o, passesFlags filters o = true <->
        (Filters.fullyFunded filters = true -> Opportunity.fullyFunded o = true)
        /\ (Filters.international filters = true ->
            Opportunity.international o = true)
        /\ (Filters.hasDeadline filters = true ->
            exists c d, Opportunity.deadline o = Some (c :: d)
                        /\ c :: d <> str "Deadline Not Specified")
        /\ (Filters.hasSupervisor filters = true ->
            exists c s, Opportunity.supervisor o = Some (c :: s))).
Proof.
  split; [apply filterOpportunities_blank|].
  split; [|split; [|split]].
  - unfold filterOpportunities. intros -> r Hr.
    destruct (filterM _ opportunities) as [r'|] eqn:E; simpl in Hr; [|discriminate].
    inversion Hr; subst. rewrite applyFlags_filter.
    rewrite (filterM_Ok _ _ _ E), filter_and. reflexivity.
  - unfold filterOpportunities.
    intros Hall. destruct (truthy (Some (trim searchQuery))); simpl; [|eauto].
    destruct (filterM_total (matchesQuery (toLowerCase searchQuery)) opportunities)
      as [r Hr].
    + eapply List.Forall_impl; [|exact Hall].
      intros o Ho. now apply matchesQuery_total.
    + rewrite Hr. simpl. eauto.
  - intros subjects. rewrite filterOpportunities_blank by reflexivity. f_equal.
    apply List.filter_ext. intros o. unfold passesFlags. simpl.
    now rewrite !andb_true_r.
  - intros o. unfold passesFlags. rewrite !andb_true_iff. split.
    { intros (((Hf & Hi) & Hd) & Hs). repeat split.
    + intros E. now rewrite E in Hf.
    + intros E. now rewrite E in Hi.
    + intros E. rewrite E in Hd. simpl in Hd. unfold deadlineSpecified in Hd.
      destruct (Opportunity.deadline o) as [[|c d]|]; try discriminate.
      exists c, d. split; [reflexivity|]. simpl in Hd. unfold streq in Hd.
      intros Eq. rewrite bool_decide_eq_true_2 in Hd by exact Eq. discriminate.
    + intros E. rewrite E in Hs. simpl in Hs.
      destruct (Opportunity.supervisor o) as [[|c s]|]; try discriminate. eauto. }
    intros (Hf & Hi & Hd & Hs). repeat split.
    + destruct (Filters.fullyFunded filters); [now apply Hf | reflexivity].
    + destruct (Filters.international filters); [now apply Hi | reflexivity].
    + destruct (Filters.hasDeadline filters); [|reflexivity].
      destruct (Hd eq_refl) as (c & d & E & Hne). simpl.
      unfold deadlineSpecified. rewrite E. simpl. unfold streq.
      now rewrite bool_decide_eq_false_2.
    + destruct (Filters.hasSupervisor filters); [|reflexivity].
      destruct (Hs eq_refl) as (c & s & E). simpl. now rewrite E.
Qed.

End FilterProofs.

Lemma filterOpportunities_flags_witness :
  truthy (Some (Opportunities.trim (str "  "))) = false
  /\ @Opportunities.filterOpportunities BasicLatin.host
       [Samples.postedFunded "a" "2025-01-01"; Samples.posted "b" "2025-02-01";
        Samples.robotics]
       (str "  ") (Filters.Build true false false false [])
     = Ok [Samples.postedFunded "a" "2025-01-01"; Samples.robotics].
Proof.
  split; [reflexivity|].
  exact (proj1 (@filterOpportunities_flags BasicLatin.host
                  [Samples.postedFunded "a" "2025-01-01";
                   Samples.posted "b" "2025-02-01"; Samples.robotics]
                  (str "  ") (Filters.Build true false false false []))
               eq_refl).
Defined.

(** ** SortPipeline *)

Section SortPipelineProofs.
Context `{Host}.
Import Opportunities.



Lemma compare_by_score scores a b :
  sortCompare (compareOpportunities (str "compatibility") scores) a b
  = scoreOf scores b - scoreOf scores a.
Proof. reflexivity. Qed.

Lemma compare_by_date sortBy scores a b :
  sortBy <> str "compatibility" -> dateOf a <> NaN -> dateOf b <> NaN ->
  sortCompare (compareOpportunities sortBy scores) a b = timeOf b - timeOf a.
Proof.
  intros Hk Ha Hb. unfold sortCompare, compareOpportunities, streq, timeOf.
  rewrite bool_decide_eq_false_2 by exact Hk.
  destruct (dateOf a), (dateOf b); simpl; congruence.
Qed.

Lemma compareOpportunities_by_date sortBy scores a b :
  sortBy <> str "compatibility" -> dateOf a <> NaN -> dateOf b <> NaN ->
  compareOpportunities sortBy scores a b = Num (timeOf b - timeOf a).
Proof.
  intros Hk Ha Hb. unfold compareOpportunities, streq, timeOf.
  rewrite bool_decide_eq_false_2 by exact Hk.
  destruct (dateOf a), (dateOf b); simpl; congruence.
Qed.

(** A list sorted by a key that descends carries its pairs in order. *)
Lemma ordered_pairs_of_Forall {A : Type} (R : A -> A -> Prop) (P : A -> Prop) l :
  (forall x y, P x -> P y -> R x y) -> Forall P l -> ForallOrdPairs R l.
Proof.
  intros HR Hl. induction Hl as [|x l Px Hl IH]; constructor; [|exact IH].
  eapply List.Forall_impl; [|exact Hl]. intros y Py. now apply HR.
Qed.

Lemma sorted_descending (key : Opportunity.t -> Z) (P : Opportunity.t -> Prop)
    (comparefn : Opportunity.t -> Opportunity.t -> num) l :
  (forall a b, P a -> P b -> comparefn a b = Num (key b - key a)) ->
  Forall P l ->
  StronglySorted (fun a b => key b <= key a) (arraySort comparefn l).
Proof.
  intros Hcmp Hl.
  rewrite arraySort_consistent.
  - apply sortBy_sorted; [intros; lia|].
    eapply ordered_pairs_of_Forall; [|exact Hl].
    intros a b Pa Pb. unfold agrees, sortCompare. rewrite (Hcmp a b Pa Pb).
    split; intros E; ltb_prop E; lia.
  - apply (consistent_by_key key). intros a b Ha Hb.
    apply Hcmp; [forall_elim Hl | forall_elim Hl]; assumption.
Qed.

(** C6, as the specification states it, fails on a cached score of 0: the
    specification ranks it as 0, below a score of 10, and the code ranks it
    as 32, above. *)
Lemma sortOpportunities_zero_score :
  @sortOpportunities BasicLatin.host (str "compatibility") Samples.zeroCache
    [Samples.bare "a"; Samples.bare "b"]
  = [Samples.bare "a"; Samples.bare "b"]
  /\ Spec.scoreOf Samples.zeroCache (Samples.bare "a") = 0
  /\ Spec.scoreOf Samples.zeroCache (Samples.bare "b") = 10
  /\ ~ StronglySorted
         (fun x y => Spec.scoreOf Samples.zeroCache y
                     <= Spec.scoreOf Samples.zeroCache x)
         (@sortOpportunities BasicLatin.host (str "compatibility")
            Samples.zeroCache [Samples.bare "a"; Samples.bare "b"]).
Proof.
  assert (Ha : Spec.scoreOf Samples.zeroCache (Samples.bare "a") = 0)
    by reflexivity.
  assert (Hb : Spec.scoreOf Samples.zeroCache (Samples.bare "b") = 10)
    by reflexivity.
  assert (Hs : @sortOpportunities BasicLatin.host (str "compatibility")
                 Samples.zeroCache [Samples.bare "a"; Samples.bare "b"]
               = [Samples.bare "a"; Samples.bare "b"]) by reflexivity.
  repeat split; try assumption.
  rewrite Hs. intros Hsorted.
  apply StronglySorted_inv in Hsorted as [_ Hall].
  apply Forall_cons_iff in Hall as [Hle _]. rewrite Ha, Hb in Hle. lia.
Qed.

(** C6, amended: with the key "compatibility" the result is the input
    reordered so that the scores descend, where the score of an opportunity
    is its cached score, and 32 when its id has no entry in the cache or when
    the cached score is 0 ([scoreCache.get(id) || 32]). *)
Theorem sortOpportunities_by_compatibility (sortedScores : gmap jsstring Z)
    (filtered : list Opportunity.t) :
  Permutation (sortOpportunities (str "compatibility") sortedScores filtered)
    filtered
  /\ StronglySorted
       (fun a b => scoreOf sortedScores b <= scoreOf sortedScores a)
       (sortOpportunities (str "compatibility") sortedScores filtered)
  /\ (forall o,
        scoreOf sortedScores o
        = match sortedScores !! Opportunity.id o with
          | None | Some 0 => 32
          | Some v => v
          end).
Proof.
  split; [apply arraySort_Permutation|]. split.
  - unfold sortOpportunities.
    apply (sorted_descending (scoreOf sortedScores) (fun _ => True)).
    + intros a b _ _. reflexivity.
    + apply Forall_forall. trivial.
  - intros o. unfold scoreOf.
    destruct (sortedScores !! Opportunity.id o) as [[| |]|]; reflexivity.
Qed.

Lemma timeOf_undated o : undated o = true -> dateOf o = Num 0 /\ timeOf o = 0.
Proof.
  unfold undated, timeOf, dateOf. intros E.
  apply andb_true_iff in E as [E1 E2].
  apply negb_true_iff in E1, E2. now rewrite E1, E2.
Qed.

(** C5, as the specification states it, fails twice. A listing whose only
    date is the placeholder deadline has no usable date, the comparator
    returns [NaN] for it, and it stays in front of a dated listing. A listing
    without date fields is keyed at the epoch and so stands in front of a
    listing dated before 1970. *)
Lemma sortOpportunities_undated_not_last :
  (@sortOpportunities BasicLatin.host (str "date") ∅
     [Samples.unspecifiedDeadline; Samples.posted "b" "2025-01-01"]
   = [Samples.unspecifiedDeadline; Samples.posted "b" "2025-01-01"]
   /\ @Spec.usableDate BasicLatin.host Samples.unspecifiedDeadline = false
   /\ @Spec.usableDate BasicLatin.host (Samples.posted "b" "2025-01-01") = true
   /\ @Spec.undatedLast BasicLatin.host
        (@sortOpportunities BasicLatin.host (str "date") ∅
           [Samples.unspecifiedDeadline; Samples.posted "b" "2025-01-01"])
      = false)
  /\ (@sortOpportunities BasicLatin.host (str "date") ∅
        [Samples.bare "a"; Samples.posted "b" "1960-01-01"]
      = [Samples.bare "a"; Samples.posted "b" "1960-01-01"]
      /\ @Spec.usableDate BasicLatin.host (Samples.bare "a") = false
      /\ @Spec.usableDate BasicLatin.host (Samples.posted "b" "1960-01-01") = true
      /\ @Spec.undatedLast BasicLatin.host
           (@sortOpportunities BasicLatin.host (str "date") ∅
              [Samples.bare "a"; Samples.posted "b" "1960-01-01"])
         = false).
Proof. repeat split; reflexivity. Qed.

(** C5, amended: with the key "date" (any key but "compatibility"), and as
    long as every date the sort reads parses, the result is the input
    reordered so that the time values descend, where the time value of an
    opportunity is that of [postedDate] if it is a non-empty string, else
    that of [deadline] if it is a non-empty string, else the epoch (0). An
    opportunity with neither field therefore comes after every opportunity
    dated later than the epoch: whatever follows it has a time value of at
    most 0. *)
Theorem sortOpportunities_by_date (sortBy : jsstring)
    (sortedScores : gmap jsstring Z) (filtered : list Opportunity.t) :
  sortBy <> str "compatibility" ->
  Forall (fun o => dateOf o <> NaN) filtered ->
  Permutation (sortOpportunities sortBy sortedScores filtered) filtered
  /\ StronglySorted (fun a b => timeOf b <= timeOf a)
       (sortOpportunities sortBy sortedScores filtered)
  /\ Forall
       (fun o =>
          Num (timeOf o)
          = if truthy (Opportunity.postedDate o)
            then dateParse (default [] (Opportunity.postedDate o))
            else if truthy (Opportunity.deadline o)
            then dateParse (default [] (Opportunity.deadline o))
            else Num 0)
       filtered
  /\ (forall before o after,
        sortOpportunities sortBy sortedScores filtered = before ++ o :: after ->
        undated o = true -> Forall (fun o' => timeOf o' <= 0) after).
Proof.
  intros Hkey Hparse.
  assert (Hsorted : StronglySorted (fun a b => timeOf b <= timeOf a)
                      (sortOpportunities sortBy sortedScores filtered)).
  { unfold sortOpportunities.
    apply (sorted_descending timeOf (fun o => dateOf o <> NaN)); [|exact Hparse].
    intros a b Ha Hb. now apply compareOpportunities_by_date. }
  split; [apply arraySort_Permutation|]. split; [exact Hsorted|].
  split.
  { eapply List.Forall_impl; [|exact Hparse]. intros o Ho.
    change (Num (timeOf o) = dateOf o). unfold timeOf.
    destruct (dateOf o) eqn:E; [congruence | reflexivity]. }
  intros before o after E Hund. rewrite E in Hsorted.
  clear E. induction before as [|x before IH]; simpl in Hsorted.
  - apply StronglySorted_inv in Hsorted as [_ Hall].
    destruct (timeOf_undated o Hund) as [_ <-]. exact Hall.
  - apply StronglySorted_inv in Hsorted as [Hs _]. now apply IH.
Qed.

(** Two opportunities with the same posted date compare equal under the
    key "date", and two with the same score under "compatibility". *)
Lemma same_postedDate_compare sortBy scores a b :
  sortBy <> str "compatibility" ->
  truthy (Opportunity.postedDate a) = true ->
  Opportunity.postedDate a = Opportunity.postedDate b ->
  sortCompare (compareOpportunities sortBy scores) a b = 0.
Proof.
  intros Hkey Ht E. unfold sortCompare, compareOpportunities, streq.
  rewrite bool_decide_eq_false_2 by exact Hkey.
  unfold dateOf. rewrite <- E, Ht.
  destruct (dateParse _); simpl; [reflexivity | lia].
Qed.

Lemma same_score_compare scores a b :
  scoreOf scores a = scoreOf scores b ->
  sortCompare (compareOpportunities (str "compatibility") scores) a b = 0.
Proof. intros E. rewrite compare_by_score. lia. Qed.




End SortPipelineProofs.

Lemma sortOpportunities_by_date_witness :
  (str "date" <> str "compatibility"
   /\ Forall (fun o => @Opportunities.dateOf BasicLatin.host o <> NaN)
        [Samples.bare "a"; Samples.posted "b" "2025-01-01";
         Samples.posted "c" "2025-03-01"])
  /\ StronglySorted
       (fun a b => @Opportunities.timeOf BasicLatin.host b
                   <= @Opportunities.timeOf BasicLatin.host a)
       (@Opportunities.sortOpportunities BasicLatin.host (str "date") ∅
          [Samples.bare "a"; Samples.posted "b" "2025-01-01";
           Samples.posted "c" "2025-03-01"]).
Proof.
  assert (Hkey : str "date" <> str "compatibility") by discriminate.
  assert (Hparse : Forall (fun o => @Opportunities.dateOf BasicLatin.host o <> NaN)
                     [Samples.bare "a"; Samples.posted "b" "2025-01-01";
                      Samples.posted "c" "2025-03-01"])
    by (repeat constructor; discriminate).
  split; [split; assumption|].
  exact (proj1 (proj2 (@sortOpportunities_by_date BasicLatin.host (str "date") ∅
                         _ Hkey Hparse))).
Defined.


(** ** KeywordExtractor: the word counter *)

Section WordCountProofs.
Import KeywordExtractor.

Lemma streq_true s t : streq s t = true <-> s = t.
Proof. unfold streq. apply bool_decide_eq_true. Qed.

Lemma streq_false s t : streq s t = false <-> s <> t.
Proof. unfold streq. apply bool_decide_eq_false. Qed.

Lemma streq_refl s : streq s s = true.
Proof. now apply streq_true. Qed.

Lemma streq_sym s t : streq s t = streq t s.
Proof.
  destruct (streq t s) eqn:E.
  - apply streq_true. symmetry. now apply streq_true.
  - apply streq_false. intros ->. now rewrite streq_refl in E.
Qed.

(** *** Own properties *)

Lemma getOwn_Some obj k v : getOwn obj k = Some v -> In (k, v) obj.
Proof.
  induction obj as [|[k' v'] obj IH]; simpl; [discriminate|].
  destruct (streq k' k) eqn:E.
  - apply streq_true in E. intros [= ->]. subst. now left.
  - intros Hg. right. now apply IH.
Qed.

Lemma getOwn_None obj k : getOwn obj k = None -> ~ In k (map fst obj).
Proof.
  induction obj as [|[k' v'] obj IH]; simpl; [tauto|].
  destruct (streq k' k) eqn:E; [discriminate|].
  apply streq_false in E. intros Hg [Heq|Hin]; [congruence | now apply IH].
Qed.

Lemma setOwn_keys obj k v : map fst (setOwn obj k v) = map fst obj.
Proof.
  induction obj as [|[k' v'] obj IH]; simpl; [reflexivity|].
  destruct (streq k' k); simpl; [reflexivity | now rewrite IH].
Qed.

(** With distinct keys, an assignment changes the value under its key and
    nothing else. *)
Lemma setOwn_In obj k v k' v' :
  List.NoDup (map fst obj) -> In (k', v') (setOwn obj k v) ->
  (k' = k /\ v' = v) \/ (k' <> k /\ In (k', v') obj).
Proof.
  induction obj as [|[k0 v0] obj IH]; simpl; [tauto|].
  intros Hnd. apply List.NoDup_cons_iff in Hnd as [Hk0 Hnd].
  destruct (streq k0 k) eqn:E.
  - apply streq_true in E. subst k0. intros [[= <- <-]|Hin]; [now left|].
    right. split; [|now right].
    intros ->. apply Hk0. now apply (in_map fst) in Hin.
  - apply streq_false in E. intros [[= <- <-]|Hin].
    + right. split; [exact E | now left].
    + destruct (IH Hnd Hin) as [?|[? ?]]; [now left | right; split; auto].
Qed.

(** *** The distinct words *)

Lemma dedupFirst_In ws w : In w (dedupFirst ws) <-> In w ws.
Proof.
  induction ws as [|x ws IH]; simpl; [tauto|].
  rewrite filter_In, IH, negb_true_iff, streq_false.
  destruct (decide (x = w)); intuition congruence.
Qed.

Lemma NoDup_filter {A : Type} (f : A -> bool) l : List.NoDup l -> List.NoDup (List.filter f l).
Proof.
  induction 1 as [|x l Hx Hl IH]; simpl; [constructor|].
  destruct (f x); [|exact IH].
  constructor; [|exact IH]. rewrite filter_In. tauto.
Qed.

Lemma dedupFirst_NoDup ws : List.NoDup (dedupFirst ws).
Proof.
  induction ws as [|x ws IH]; simpl; constructor.
  - rewrite filter_In, negb_true_iff, streq_false. tauto.
  - now apply NoDup_filter.
Qed.

Lemma filter_snoc_out {A : Type} (f : A -> bool) l x :
  f x = false -> List.filter f (l ++ [x]) = List.filter f l.
Proof. intros E. rewrite List.filter_app. simpl. rewrite E. apply app_nil_r. Qed.

Lemma filter_snoc_in {A : Type} (f : A -> bool) l x :
  f x = true -> List.filter f (l ++ [x]) = List.filter f l ++ [x].
Proof. intros E. rewrite List.filter_app. simpl. now rewrite E. Qed.

Lemma filter_comm {A : Type} (f g : A -> bool) l :
  List.filter f (List.filter g l) = List.filter g (List.filter f l).
Proof.
  rewrite !filter_and. apply List.filter_ext. intros x. apply andb_comm.
Qed.

Lemma dedupFirst_snoc_filter ws w :
  List.filter (fun x => negb (streq x w)) (dedupFirst (ws ++ [w]))
  = List.filter (fun x => negb (streq x w)) (dedupFirst ws).
Proof.
  induction ws as [|x ws IH]; simpl.
  - now rewrite streq_refl.
  - rewrite (filter_comm _ _ (dedupFirst (ws ++ [w]))), IH, filter_comm.
    reflexivity.
Qed.

(** A word that comes again adds nothing; a new word comes last. *)
Lemma dedupFirst_snoc_old ws w :
  In w ws -> dedupFirst (ws ++ [w]) = dedupFirst ws.
Proof.
  induction ws as [|x ws IH]; simpl; [tauto|].
  intros Hin. destruct (decide (x = w)) as [->|Hne].
  - now rewrite dedupFirst_snoc_filter.
  - destruct Hin as [?|Hin]; [congruence|]. now rewrite IH.
Qed.

Lemma dedupFirst_snoc_new ws w :
  ~ In w ws -> dedupFirst (ws ++ [w]) = dedupFirst ws ++ [w].
Proof.
  induction ws as [|x ws IH]; simpl; [reflexivity|].
  intros Hn. rewrite IH by tauto.
  rewrite filter_snoc_in; [reflexivity|].
  apply negb_true_iff, streq_false. intros ->. tauto.
Qed.

Lemma occurrences_snoc w ws x :
  occurrences w (ws ++ [x])
  = (occurrences w ws + if streq w x then 1 else 0)%nat.
Proof.
  unfold occurrences. rewrite List.filter_app, length_app. simpl.
  now destruct (streq w x).
Qed.

Lemma occurrences_0 w ws : ~ In w ws -> occurrences w ws = O.
Proof.
  unfold occurrences. induction ws as [|x ws IH]; simpl; [reflexivity|].
  intros Hn. destruct (streq w x) eqn:E.
  - apply streq_true in E. subst. tauto.
  - apply IH. tauto.
Qed.

End WordCountProofs.

Section CountingLoopProofs.
Import KeywordExtractor.

(** The loop counts the words that pass its test. *)
Lemma countWord_fold words : forall obj,
  fold_left countWord words obj
  = fold_left increment (List.filter passes (map cleanWord words)) obj.
Proof.
  induction words as [|w words IH]; intros obj; simpl; [reflexivity|].
  unfold countWord at 2, passes.
  destruct (_ || _); simpl; apply IH.
Qed.

Lemma increment_keys obj w k :
  In k (map fst (increment obj w)) ->
  In k (map fst obj) \/ (k = w /\ w <> str "__proto__").
Proof.
  unfold increment. destruct (getOwn obj w) as [[n|j]|] eqn:E.
  - rewrite setOwn_keys. tauto.
  - rewrite setOwn_keys. tauto.
  - destruct (streq w (str "__proto__")) eqn:Ep; [tauto|].
    apply streq_false in Ep.
    destruct (streq w (str "constructor"));
      rewrite map_app, in_app_iff; simpl; intuition.
Qed.

(** The assignment to "__proto__" never creates a property. *)
Lemma increment_skips_proto ws : forall obj,
  ~ In (str "__proto__") (map fst obj) ->
  fold_left increment ws obj = fold_left increment (counted ws) obj.
Proof.
  induction ws as [|w ws IH]; intros obj Hobj; [reflexivity|].
  unfold counted. simpl. fold (counted ws).
  destruct (streq w (str "__proto__")) eqn:Ep; simpl.
  - apply streq_true in Ep. subst w.
    replace (increment obj (str "__proto__")) with obj; [now apply IH|].
    unfold increment. destruct (getOwn obj (str "__proto__")) as [v|] eqn:E.
    + apply getOwn_Some in E. apply (in_map fst) in E. tauto.
    + reflexivity.
  - apply IH. intros Hin. apply increment_keys in Hin as [Hin|[E _]]; [tauto|].
    apply streq_false in Ep. congruence.
Qed.

Lemma counted_no_proto ws : Forall (fun w => w <> str "__proto__") (counted ws).
Proof.
  apply List.Forall_forall. intros w Hin. apply filter_In in Hin as [_ Hw].
  now apply negb_true_iff, streq_false in Hw.
Qed.

Lemma valueOf_snoc_other ws w k : k <> w -> valueOf (ws ++ [w]) k = valueOf ws k.
Proof.
  intros Hne. unfold valueOf. rewrite occurrences_snoc.
  apply streq_false in Hne. rewrite Hne, Nat.add_0_r. reflexivity.
Qed.

(** What [wordCount] holds after a run over words without "__proto__": its
    keys are the distinct words in the order of their first occurrence, and
    the value under a word tells how often the word occurred. *)
Lemma increment_fold ws :
  Forall (fun w => w <> str "__proto__") ws ->
  map fst (fold_left increment ws []) = dedupFirst ws
  /\ (forall k v, In (k, v) (fold_left increment ws []) -> v = valueOf ws k).
Proof.
  induction ws as [|w ws IH] using rev_ind; intros Hws.
  - simpl. split; [reflexivity | tauto].
  - apply Forall_app in Hws as [Hws Hw]. apply Forall_cons_iff in Hw as [Hw _].
    destruct (IH Hws) as [Hkeys Hvals]. clear IH.
    rewrite fold_left_app. simpl. set (obj := fold_left increment ws []) in *.
    assert (Hnd : List.NoDup (map fst obj))
      by (rewrite Hkeys; apply dedupFirst_NoDup).
    unfold increment. destruct (getOwn obj w) as [v|] eqn:E.
    + pose proof (getOwn_Some _ _ _ E) as Hin.
      assert (Hw_in : In w ws).
      { apply dedupFirst_In. rewrite <- Hkeys. now apply (in_map fst) in Hin. }
      pose proof (Hvals _ _ Hin) as Hv.
      assert (Hnew : match v with
                     | Count n => Count (n + 1)
                     | Garbled j => Garbled (S j)
                     end = valueOf (ws ++ [w]) w).
      { rewrite Hv. unfold valueOf. rewrite occurrences_snoc, streq_refl.
        destruct (streq w (str "constructor")); f_equal; lia. }
      assert (Hgoal : forall v',
                map fst (setOwn obj w v') = dedupFirst (ws ++ [w])
                /\ (v' = valueOf (ws ++ [w]) w ->
                    forall k v0, In (k, v0) (setOwn obj w v') ->
                                 v0 = valueOf (ws ++ [w]) k)).
      { intros v'. split.
        - rewrite setOwn_keys, Hkeys. symmetry. now apply dedupFirst_snoc_old.
        - intros Hv' k v0 Hk.
          apply setOwn_In in Hk as [[-> ->]|[Hne Hk]]; [exact Hv' | | exact Hnd].
          rewrite valueOf_snoc_other by exact Hne. now apply Hvals. }
      destruct v as [n|j]; (split; [apply Hgoal | now apply Hgoal]).
    + pose proof (getOwn_None _ _ E) as Hout.
      assert (Hw_out : ~ In w ws).
      { intros Hin. apply Hout. rewrite Hkeys. now apply dedupFirst_In. }
      apply streq_false in Hw. rewrite Hw.
      assert (Hnew : (if streq w (str "constructor") then Garbled 1 else Count 1)
                     = valueOf (ws ++ [w]) w).
      { unfold valueOf. rewrite occurrences_snoc, streq_refl.
        rewrite (occurrences_0 _ _ Hw_out).
        now destruct (streq w (str "constructor")). }
      assert (Hgoal : forall v',
                v' = valueOf (ws ++ [w]) w ->
                map fst (obj ++ [(w, v')]) = dedupFirst (ws ++ [w])
                /\ (forall k v0, In (k, v0) (obj ++ [(w, v')]) ->
                                 v0 = valueOf (ws ++ [w]) k)).
      { intros v' Hv'. split.
        - rewrite map_app, Hkeys. simpl. symmetry.
          now apply dedupFirst_snoc_new.
        - intros k v0 Hk. apply in_app_iff in Hk as [Hk|[[= <- <-]|[]]].
          + rewrite valueOf_snoc_other; [now apply Hvals|].
            intros ->. apply Hout. now apply (in_map fst) in Hk.
          + exact Hv'. }
      destruct (streq w (str "constructor")); now apply Hgoal.
Qed.

End CountingLoopProofs.

(** ** KeywordExtractor: the order of the entries *)

Section SortedLists.
Context {A : Type}.

Lemma StronglySorted_app (R : A -> A -> Prop) l1 l2 :
  StronglySorted R l1 -> StronglySorted R l2 ->
  (forall x y, In x l1 -> In y l2 -> R x y) ->
  StronglySorted R (l1 ++ l2).
Proof.
  intros H1 H2 H12. induction H1 as [|x l1 H1 IH Hx]; simpl; [exact H2|].
  constructor.
  - apply IH. intros a b Ha Hb. apply H12; [now right | exact Hb].
  - apply Forall_app. split; [exact Hx|].
    apply List.Forall_forall. intros y Hy. apply H12; [now left | exact Hy].
Qed.

Lemma StronglySorted_app_inv (R : A -> A -> Prop) l1 l2 :
  StronglySorted R (l1 ++ l2) ->
  StronglySorted R l1 /\ (forall x y, In x l1 -> In y l2 -> R x y).
Proof.
  induction l1 as [|a l1 IH]; simpl; intros Hs.
  - split; [constructor | tauto].
  - apply StronglySorted_inv in Hs as [Hs Ha].
    destruct (IH Hs) as [H1 H12]. apply Forall_app in Ha as [Ha1 Ha2]. split.
    + now constructor.
    + intros x y [<-|Hx] Hy; [|now apply H12].
      now forall_elim Ha2.
Qed.

Lemma StronglySorted_filter (R : A -> A -> Prop) (f : A -> bool) l :
  StronglySorted R l -> StronglySorted R (List.filter f l).
Proof.
  induction 1 as [|x l Hs IH Hx]; simpl; [constructor|].
  destruct (f x); [|exact IH]. constructor; [exact IH|].
  apply List.Forall_forall. intros y Hy. apply filter_In in Hy as [Hy _].
  now forall_elim Hx.
Qed.

(** An order may be exchanged for another that agrees with it on the
    elements of the list. *)
Lemma StronglySorted_weaken (R R' : A -> A -> Prop) l :
  (forall x y, In x l -> In y l -> R x y -> R' x y) ->
  StronglySorted R l -> StronglySorted R' l.
Proof.
  intros HR Hs. induction Hs as [|x l Hs IH Hx]; constructor.
  - apply IH. intros a b Ha Hb. apply HR; now right.
  - apply List.Forall_forall. intros y Hy. apply HR; [now left | now right |].
    now forall_elim Hx.
Qed.

Lemma StronglySorted_map {B : Type} (g : A -> B) (R : B -> B -> Prop) l :
  StronglySorted R (map g l) <-> StronglySorted (fun x y => R (g x) (g y)) l.
Proof.
  induction l as [|x l IH]; simpl; split; intros Hs; try constructor;
    apply StronglySorted_inv in Hs as [Hs Hx]; try (now apply IH).
  - apply List.Forall_forall. intros y Hy.
    forall_elim Hx. now apply in_map.
  - apply List.Forall_forall. intros y Hy.
    apply in_map_iff in Hy as (z & <- & Hz).
    now forall_elim Hx.
Qed.

Lemma filter_Permutation (f : A -> bool) l :
  Permutation (List.filter f l ++ List.filter (fun x => negb (f x)) l) l.
Proof.
  induction l as [|x l IH]; simpl; [reflexivity|].
  destruct (f x); simpl.
  - now apply perm_skip.
  - rewrite <- Permutation_middle. now apply perm_skip.
Qed.

Lemma NoDup_firstn (n : nat) (l : list A) : List.NoDup l -> List.NoDup (firstn n l).
Proof.
  intros Hl. revert n. induction Hl as [|x l Hx Hl IH]; intros [|n]; simpl;
    try constructor; [|apply IH].
  intros Hin. apply Hx. rewrite <- (firstn_skipn n l). apply in_app_iff. now left.
Qed.

End SortedLists.

(** ** Array indices *)

Section ArrayIndexProofs.
Import KeywordExtractor.

Lemma digitStep_eq v c : digitStep v c = 10 * v + (c - 48).
Proof. reflexivity. Qed.

Lemma isDigit_range c : isDigit c = true -> 0 <= c - 48 <= 9.
Proof. unfold isDigit. intros E. apply andb_true_iff in E as [E1 E2]. lia. Qed.

Lemma digits_shift k : forall v,
  fold_left digitStep k v
  = v * 10 ^ Z.of_nat (length k) + fold_left digitStep k 0.
Proof.
  induction k as [|c k IH]; intros v.
  - simpl. lia.
  - cbn [fold_left length]. rewrite IH, (IH (digitStep 0 c)).
    rewrite Nat2Z.inj_succ, Z.pow_succ_r by lia. rewrite !digitStep_eq. ring.
Qed.

Lemma digits_bound k :
  forallb isDigit k = true ->
  0 <= fold_left digitStep k 0 < 10 ^ Z.of_nat (length k).
Proof.
  induction k as [|c k IH]; intros Hd.
  - simpl. lia.
  - cbn [forallb] in Hd. apply andb_true_iff in Hd as [Hc Hd].
    apply isDigit_range in Hc. specialize (IH Hd).
    cbn [fold_left length]. rewrite digits_shift.
    rewrite Nat2Z.inj_succ, Z.pow_succ_r by lia. rewrite digitStep_eq.
    set (p := 10 ^ Z.of_nat (length k)) in *. clearbody p.
    assert (0 <= (c - 48) * p <= 9 * p) by nia. lia.
Qed.

(** Numerals of one length with one value are one numeral. *)
Lemma digits_inj k1 : forall k2 v,
  length k1 = length k2 ->
  forallb isDigit k1 = true -> forallb isDigit k2 = true ->
  fold_left digitStep k1 v = fold_left digitStep k2 v -> k1 = k2.
Proof.
  induction k1 as [|c1 k1 IH]; intros [|c2 k2] v Hlen H1 H2 E;
    try discriminate; [reflexivity|].
  cbn [forallb] in H1, H2.
  apply andb_true_iff in H1 as [Hc1 H1], H2 as [Hc2 H2].
  injection Hlen as Hlen. cbn [fold_left] in E.
  rewrite (digits_shift k1), (digits_shift k2), <- Hlen in E.
  pose proof (digits_bound k1 H1) as B1.
  pose proof (digits_bound k2 H2) as B2. rewrite <- Hlen in B2.
  apply isDigit_range in Hc1, Hc2.
  set (p := 10 ^ Z.of_nat (length k1)) in *. clearbody p.
  rewrite !digitStep_eq in E.
  assert (Hc : c1 = c2).
  { destruct (Z.lt_trichotomy c1 c2) as [Hlt|[Heq|Hgt]]; [|exact Heq|].
    - assert (p <= (c2 - c1) * p) by nia. nia.
    - assert (p <= (c1 - c2) * p) by nia. nia. }
  subst c2. f_equal. apply (IH k2 0 Hlen H1 H2). lia.
Qed.

Lemma arrayIndex_Some k i :
  arrayIndex k = Some i ->
  forallb isDigit k = true /\ i = decimalValue k
  /\ (k = [48] \/ exists c rest, k = c :: rest /\ c <> 48).
Proof.
  unfold arrayIndex. destruct k as [|c rest]; [discriminate|].
  destruct (forallb isDigit (c :: rest)) eqn:Hd; [|discriminate].
  destruct (negb (c =? 48) || bool_decide (rest = [])) eqn:Hlead;
    [|discriminate].
  destruct (decimalValue (c :: rest) <=? 4294967294); [|discriminate].
  intros [= <-]. repeat split.
  apply orb_true_iff in Hlead as [Hc|Hr].
  - right. exists c, rest. split; [reflexivity|].
    apply negb_true_iff, Z.eqb_neq in Hc. exact Hc.
  - apply bool_decide_eq_true in Hr. subst rest.
    destruct (Z.eq_dec c 48) as [->|Hne]; [now left|].
    right. exists c, []. auto.
Qed.

(** A numeral without a leading zero is at least the power of ten of its
    length. *)
Lemma leading_digit_bound c rest :
  forallb isDigit (c :: rest) = true -> c <> 48 ->
  10 ^ Z.of_nat (length rest) <= decimalValue (c :: rest).
Proof.
  intros Hd Hc. cbn [forallb] in Hd. apply andb_true_iff in Hd as [Hc' Hd].
  apply isDigit_range in Hc'. pose proof (digits_bound rest Hd) as B.
  unfold decimalValue. cbn [fold_left]. rewrite digits_shift, digitStep_eq.
  set (p := 10 ^ Z.of_nat (length rest)) in *. clearbody p.
  assert (p <= (c - 48) * p) by nia. lia.
Qed.

(** Two keys that are the same array index are the same key. *)
Lemma arrayIndex_inj k1 k2 i :
  arrayIndex k1 = Some i -> arrayIndex k2 = Some i -> k1 = k2.
Proof.
  intros H1 H2.
  apply arrayIndex_Some in H1 as (D1 & E1 & L1), H2 as (D2 & E2 & L2).
  assert (Hlen : forall ka kb,
            forallb isDigit ka = true -> forallb isDigit kb = true ->
            decimalValue ka = decimalValue kb ->
            (exists c rest, ka = c :: rest /\ c <> 48) ->
            (exists c rest, kb = c :: rest /\ c <> 48) ->
            (length ka <= length kb)%nat).
  { intros ka kb Da Db E (ca & ra & -> & Hca) (cb & rb & -> & Hcb).
    pose proof (leading_digit_bound ca ra Da Hca) as La.
    pose proof (digits_bound (cb :: rb) Db) as Bb.
    fold (decimalValue (cb :: rb)) in Bb. rewrite <- E in Bb.
    destruct (Nat.le_gt_cases (length (ca :: ra)) (length (cb :: rb)))
      as [Hle|Hgt]; [exact Hle|].
    assert (10 ^ Z.of_nat (length (cb :: rb)) <= 10 ^ Z.of_nat (length ra)).
    { apply Z.pow_le_mono_r; [lia|]. simpl in Hgt |- *. lia. }
    lia. }
  destruct L1 as [->|N1], L2 as [->|N2]; [reflexivity| | |].
  - destruct N2 as (c & rest & -> & Hc). exfalso.
    pose proof (leading_digit_bound c rest D2 Hc) as B.
    rewrite <- E2, E1 in B. change (decimalValue [48]) with 0 in B.
    pose proof (Z.pow_pos_nonneg 10 (Z.of_nat (length rest))). lia.
  - destruct N1 as (c & rest & -> & Hc). exfalso.
    pose proof (leading_digit_bound c rest D1 Hc) as B.
    rewrite <- E1, E2 in B. change (decimalValue [48]) with 0 in B.
    pose proof (Z.pow_pos_nonneg 10 (Z.of_nat (length rest))). lia.
  - apply (digits_inj k1 k2 0); [|exact D1|exact D2|].
    + apply Nat.le_antisymm; apply Hlen; auto; congruence.
    + unfold decimalValue in E1, E2. congruence.
Qed.

End ArrayIndexProofs.

Section EntriesProofs.
Import KeywordExtractor.

(** Sorting a list that is already in the order [Q], with a comparison that
    agrees with [R] on the pairs [Q] relates, orders it by [R]. *)
Lemma sortBy_sorted_from {A : Type} (gt : A -> A -> bool)
    (Q R : A -> A -> Prop) (P : A -> Prop) l :
  (forall a b c, R a b -> R b c -> R a c) ->
  (forall x y, P x -> P y -> Q x y -> agrees gt R x y) ->
  StronglySorted Q l -> Forall P l -> StronglySorted R (sortBy gt l).
Proof.
  intros Htrans Hagree Hs HP. apply sortBy_sorted; [exact Htrans|].
  induction Hs as [|x l Hs IH Hx]; constructor.
  - apply Forall_cons_iff in HP as [Px HP].
    apply List.Forall_forall. intros y Hy. apply Hagree.
    + exact Px.
    + now forall_elim HP.
    + now forall_elim Hx.
  - apply IH. now apply Forall_cons_iff in HP as [_ HP].
Qed.

Lemma firstIndex_head w ws : firstIndex w (w :: ws) = O.
Proof. simpl. now rewrite streq_refl. Qed.

Lemma firstIndex_tail x w ws :
  x <> w -> firstIndex w (x :: ws) = S (firstIndex w ws).
Proof. intros Hne. simpl. apply streq_false in Hne. now rewrite Hne. Qed.

(** The distinct words stand in the order of their first occurrences. *)
Lemma dedupFirst_sorted ws :
  StronglySorted (fun a b => (firstIndex a ws < firstIndex b ws)%nat)
    (dedupFirst ws).
Proof.
  induction ws as [|x ws IH]; [constructor|].
  change (dedupFirst (x :: ws))
    with (x :: List.filter (fun y => negb (streq y x)) (dedupFirst ws)).
  assert (Hneq : forall y,
            In y (List.filter (fun y => negb (streq y x)) (dedupFirst ws)) ->
            x <> y).
  { intros y Hy. apply filter_In in Hy as [_ Hy].
    apply negb_true_iff, streq_false in Hy. congruence. }
  constructor.
  - eapply StronglySorted_weaken; [|apply StronglySorted_filter, IH].
    intros a b Ha Hb Hab. cbv beta in *.
    rewrite !firstIndex_tail by now apply Hneq. lia.
  - apply List.Forall_forall. intros y Hy.
    rewrite firstIndex_head, firstIndex_tail by now apply Hneq. lia.
Qed.

Lemma isIndexKey_true e : isIndexKey e = true -> arrayIndex e.1 = Some (indexOf e).
Proof.
  unfold isIndexKey, indexOf. intros E. apply bool_decide_eq_true in E.
  destruct E as [i ->]. reflexivity.
Qed.

Lemma isIndexKey_false e : isIndexKey e = false -> arrayIndex e.1 = None.
Proof.
  unfold isIndexKey. intros E. apply bool_decide_eq_false in E.
  destruct (arrayIndex e.1); [|reflexivity]. destruct E. eauto.
Qed.

Lemma entries_Permutation obj : Permutation (entries obj) obj.
Proof.
  unfold entries. rewrite sortBy_Permutation. apply filter_Permutation.
Qed.

Lemma NoDup_map_filter {A B : Type} (g : A -> B) (f : A -> bool) l :
  List.NoDup (map g l) -> List.NoDup (map g (List.filter f l)).
Proof.
  induction l as [|x l IH]; simpl; intros Hnd; [constructor|].
  apply List.NoDup_cons_iff in Hnd as [Hx Hnd].
  destruct (f x); simpl; [|now apply IH].
  constructor; [|now apply IH].
  intros Hin. apply Hx. apply in_map_iff in Hin as (y & <- & Hy).
  apply in_map. now apply filter_In in Hy as [Hy _].
Qed.

(** In a sorted list without repetition, an element differs from those
    behind it. *)
Lemma StronglySorted_distinct {A B : Type} (g : A -> B) (R : A -> A -> Prop) l :
  List.NoDup (map g l) -> StronglySorted R l ->
  StronglySorted (fun x y => R x y /\ g x <> g y) l.
Proof.
  intros Hnd Hs. induction Hs as [|x l Hs IH Hx]; [constructor|].
  simpl in Hnd. apply List.NoDup_cons_iff in Hnd as [Hnx Hnd].
  constructor; [now apply IH|].
  apply List.Forall_forall. intros y Hy. split.
  - now forall_elim Hx.
  - intros E. apply Hnx. rewrite E. now apply in_map.
Qed.

(** [Object.entries] lists the keys in the order [keyBefore]. *)
Lemma entries_sorted ws obj :
  map fst obj = dedupFirst ws ->
  StronglySorted (fun e1 e2 => keyBefore ws e1.1 e2.1) (entries obj).
Proof.
  intros Hkeys.
  assert (Hnd : List.NoDup (map fst obj))
    by (rewrite Hkeys; apply dedupFirst_NoDup).
  assert (Hobj : StronglySorted
                   (fun e1 e2 => (firstIndex e1.1 ws < firstIndex e2.1 ws)%nat) obj).
  { apply (StronglySorted_map fst
             (fun a b => (firstIndex a ws < firstIndex b ws)%nat)).
    rewrite Hkeys. apply dedupFirst_sorted. }
  unfold entries. apply StronglySorted_app.
  - eapply StronglySorted_weaken;
      [|apply (StronglySorted_distinct fst);
        [|apply (sortBy_sorted _ (fun e1 e2 => indexOf e1 <= indexOf e2))]].
    + intros e1 e2 H1 H2 [Hle Hne]. unfold keyBefore.
      apply sortBy_In, filter_In in H1 as [_ H1], H2 as [_ H2].
      pose proof (isIndexKey_true _ H1) as I1.
      pose proof (isIndexKey_true _ H2) as I2. rewrite I1, I2.
      destruct (Z.eq_dec (indexOf e1) (indexOf e2)) as [E|E]; [|lia].
      rewrite E in I1. destruct Hne. eapply arrayIndex_inj; eassumption.
    + eapply Permutation_NoDup.
      * symmetry. apply Permutation_map, sortBy_Permutation.
      * now apply NoDup_map_filter.
    + intros; lia.
    + apply (ordered_pairs_of_Forall _ (fun _ => True)).
      * intros e1 e2 _ _. unfold agrees.
        split; intros E; ltb_prop E; lia.
      * apply List.Forall_forall. trivial.
  - eapply StronglySorted_weaken; [|apply StronglySorted_filter, Hobj].
    intros e1 e2 H1 H2 Hlt. unfold keyBefore.
    apply filter_In in H1 as [_ H1], H2 as [_ H2].
    apply negb_true_iff in H1, H2.
    now rewrite (isIndexKey_false _ H1), (isIndexKey_false _ H2).
  - intros e1 e2 H1 H2. unfold keyBefore.
    apply sortBy_In, filter_In in H1 as [_ H1].
    apply filter_In in H2 as [_ H2]. apply negb_true_iff in H2.
    now rewrite (isIndexKey_true _ H1), (isIndexKey_false _ H2).
Qed.

Lemma keyBefore_trans ws a b c :
  keyBefore ws a b -> keyBefore ws b c -> keyBefore ws a c.
Proof.
  unfold keyBefore.
  destruct (arrayIndex a), (arrayIndex b), (arrayIndex c); try tauto; lia.
Qed.

End EntriesProofs.

(** ** KeywordExtractor: the result *)

Section KeywordProofs.
Context `{Host}.
Import KeywordExtractor.

Lemma wordCounts_fold opportunity :
  wordCounts opportunity = fold_left increment (countedWords opportunity) [].
Proof.
  unfold wordCounts, countedWords, keptWords.
  rewrite countWord_fold. apply increment_skips_proto. simpl. tauto.
Qed.

Lemma wordCounts_keys opportunity :
  map fst (wordCounts opportunity) = dedupFirst (countedWords opportunity).
Proof.
  rewrite wordCounts_fold. apply increment_fold, counted_no_proto.
Qed.

Lemma wordCounts_values opportunity k v :
  In (k, v) (wordCounts opportunity) ->
  v = valueOf (countedWords opportunity) k.
Proof.
  rewrite wordCounts_fold. apply increment_fold, counted_no_proto.
Qed.

(** The entries in the order the sort leaves them. *)
Lemma ranked_Permutation opportunity :
  Permutation (arraySort byCount (entries (wordCounts opportunity)))
    (wordCounts opportunity).
Proof.
  rewrite arraySort_Permutation. apply entries_Permutation.
Qed.

Lemma ranked_keys opportunity k :
  In k (map fst (arraySort byCount (entries (wordCounts opportunity))))
  <-> In k (countedWords opportunity).
Proof.
  rewrite <- (dedupFirst_In (countedWords opportunity)), <- wordCounts_keys.
  split; apply Permutation_in.
  - apply Permutation_map, ranked_Permutation.
  - symmetry. apply Permutation_map, ranked_Permutation.
Qed.

Lemma extractKeywords_In opportunity w :
  In w (extractKeywords opportunity) -> In w (countedWords opportunity).
Proof.
  unfold extractKeywords. intros Hin. apply ranked_keys.
  apply in_map_iff in Hin as (e & <- & He). apply in_map.
  rewrite <- (firstn_skipn 3). apply in_app_iff. now left.
Qed.

Lemma isStopWord_false w : isStopWord w = false -> ~ In w stopWords.
Proof.
  unfold isStopWord. intros E Hin.
  assert (existsb (streq w) stopWords = true) as E'; [|congruence].
  apply existsb_exists. exists w. split; [exact Hin | apply streq_refl].
Qed.

Lemma countedWords_pass opportunity w :
  In w (countedWords opportunity) ->
  (4 <= length w)%nat /\ ~ In w stopWords /\ w <> str "__proto__".
Proof.
  unfold countedWords, counted, keptWords. intros Hin.
  apply filter_In in Hin as [Hin Hp]. apply filter_In in Hin as [_ Hw].
  apply negb_true_iff, streq_false in Hp.
  unfold passes in Hw. apply negb_true_iff, orb_false_iff in Hw as [Hlen Hstop].
  apply Z.ltb_ge in Hlen. repeat split; [lia | now apply isStopWord_false | exact Hp].
Qed.

(** C10: the keywords are the keys of distinct own properties, so none
    occurs twice. *)
Theorem extractKeywords_NoDup (opportunity : Opportunity.t) :
  List.NoDup (extractKeywords opportunity).
Proof.
  unfold extractKeywords. rewrite <- firstn_map. apply NoDup_firstn.
  eapply Permutation_NoDup.
  - symmetry. apply Permutation_map, ranked_Permutation.
  - rewrite wordCounts_keys. apply dedupFirst_NoDup.
Qed.

Lemma codeBefore_trans opportunity a b c :
  codeBefore opportunity a b -> codeBefore opportunity b c ->
  codeBefore opportunity a c.
Proof.
  unfold codeBefore. intros [Hab|[Hab Kab]] [Hbc|[Hbc Kbc]];
    try (left; lia).
  right. split; [lia|]. eapply keyBefore_trans; eassumption.
Qed.

(** Without the word "constructor" every value is a count, and the sort
    ranks the entries by descending frequency, ties in the order of
    [Object.entries]. *)
Lemma ranked_sorted opportunity :
  ~ In (str "constructor") (countedWords opportunity) ->
  StronglySorted (fun e1 e2 => codeBefore opportunity e1.1 e2.1)
    (arraySort byCount (entries (wordCounts opportunity))).
Proof.
  intros Hctor.
  assert (Hcount : Forall (fun e => e.2 = Count (frequency opportunity e.1))
                     (entries (wordCounts opportunity))).
  { apply List.Forall_forall. intros [k v] Hin. simpl.
    apply (Permutation_in _ (entries_Permutation _)) in Hin.
    rewrite (wordCounts_values _ _ _ Hin). unfold valueOf, frequency.
    assert (Hk : In k (countedWords opportunity)).
    { apply dedupFirst_In. rewrite <- wordCounts_keys.
      now apply (in_map fst) in Hin. }
    assert (Hne : streq k (str "constructor") = false)
      by (apply streq_false; intros ->; tauto).
    now rewrite Hne. }
  rewrite arraySort_consistent.
  - apply (sortBy_sorted_from _
             (fun e1 e2 => keyBefore (countedWords opportunity) e1.1 e2.1)
             _ (fun e => e.2 = Count (frequency opportunity e.1))).
    + intros a b c. apply codeBefore_trans.
    + intros x y Hx Hy Hxy. unfold agrees, sortCompare, byCount.
      rewrite Hx, Hy. simpl. unfold codeBefore.
      split; intros E; ltb_prop E.
      * left. lia.
      * destruct (Z.eq_dec (frequency opportunity x.1) (frequency opportunity y.1));
          [right; split; assumption | left; lia].
    + apply entries_sorted, wordCounts_keys.
    + exact Hcount.
  - apply (consistent_by_key (fun e => frequency opportunity e.1)).
    intros x y Hx Hy. unfold byCount.
    rewrite (proj1 (List.Forall_forall _ _) Hcount x Hx),
      (proj1 (List.Forall_forall _ _) Hcount y Hy).
    reflexivity.
Qed.

Lemma keywordText_absent opportunity :
  Opportunity.title opportunity = None ->
  Opportunity.description opportunity = None ->
  Opportunity.department opportunity = None ->
  Opportunity.subjects opportunity = Absent ->
  Opportunity.requirements opportunity = Absent ->
  keywordText opportunity = [].
Proof.
  unfold keywordText. intros -> -> -> -> ->. simpl. apply toLowerCase_nil.
Qed.

(** C4, as the specification states it, fails on a word that is a number:
    "2025" comes second in the text and as often as "robotics", and it is
    returned first, because [Object.entries] lists the keys that are array
    indices before all others. *)
Lemma extractKeywords_numeric_first :
  @extractKeywords BasicLatin.host Samples.robotics2025
  = [str "2025"; str "robotics"]
  /\ @countedWords BasicLatin.host Samples.robotics2025
     = [str "robotics"; str "2025"]
  /\ ~ StronglySorted (@specBefore BasicLatin.host Samples.robotics2025)
        (@extractKeywords BasicLatin.host Samples.robotics2025).
Proof.
  assert (E : @extractKeywords BasicLatin.host Samples.robotics2025
              = [str "2025"; str "robotics"]) by reflexivity.
  split; [exact E | split; [reflexivity|]].
  rewrite E. intros Hs. apply StronglySorted_inv in Hs as [_ Hall].
  apply Forall_cons_iff in Hall as [Hb _]. unfold specBefore in Hb.
  assert (F1 : @frequency BasicLatin.host Samples.robotics2025 (str "2025") = 1)
    by reflexivity.
  assert (F2 : @frequency BasicLatin.host Samples.robotics2025 (str "robotics") = 1)
    by reflexivity.
  assert (I1 : firstIndex (str "2025")
                 (@countedWords BasicLatin.host Samples.robotics2025) = 1%nat)
    by reflexivity.
  assert (I2 : firstIndex (str "robotics")
                 (@countedWords BasicLatin.host Samples.robotics2025) = 0%nat)
    by reflexivity.
  rewrite F1, F2, I1, I2 in Hb. lia.
Qed.

(** C4, amended: [extractKeywords] returns at most 3 strings, each of
    length at least 4, none a stop word, each a word of the lower-cased text
    of title, description, department, subjects and requirements. Unless the
    text has the word "constructor", they are ordered by descending
    frequency, and every counted word left out ranks behind every word
    returned; among words of equal frequency, those that are canonical array
    indices (decimal numerals such as "2025") come first, in ascending
    numeric order, and the others follow in the order of their first
    occurrence. When all five fields are absent the result is empty. *)
Theorem extractKeywords_ranked (opportunity : Opportunity.t) :
  (length (extractKeywords opportunity) <= 3)%nat
  /\ Forall
       (fun w => (4 <= length w)%nat /\ ~ In w stopWords
                 /\ In w (countedWords opportunity))
       (extractKeywords opportunity)
  /\ (~ In (str "constructor") (countedWords opportunity) ->
      StronglySorted (codeBefore opportunity) (extractKeywords opportunity)
      /\ (forall x z,
            In x (extractKeywords opportunity) ->
            In z (countedWords opportunity) ->
            ~ In z (extractKeywords opportunity) ->
            codeBefore opportunity x z))
  /\ (Opportunity.title opportunity = None ->
      Opportunity.description opportunity = None ->
      Opportunity.department opportunity = None ->
      Opportunity.subjects opportunity = Absent ->
      Opportunity.requirements opportunity = Absent ->
      extractKeywords opportunity = []).
Proof.
  split; [|split; [|split]].
  - unfold extractKeywords. rewrite length_map, length_firstn. lia.
  - apply List.Forall_forall. intros w Hw.
    pose proof (extractKeywords_In _ _ Hw) as Hin.
    destruct (countedWords_pass _ _ Hin) as (Hlen & Hstop & _). auto.
  - intros Hctor. pose proof (ranked_sorted opportunity Hctor) as Hs.
    rewrite <- (firstn_skipn 3) in Hs.
    apply StronglySorted_app_inv in Hs as [Hs Hrest]. split.
    + unfold extractKeywords. now apply StronglySorted_map.
    + intros x z Hx Hz Hnz. unfold extractKeywords in Hx, Hnz.
      apply in_map_iff in Hx as (ex & <- & Hex).
      apply ranked_keys, in_map_iff in Hz as (ez & <- & Hez).
      apply Hrest; [exact Hex|].
      rewrite <- (firstn_skipn 3) in Hez. apply in_app_iff in Hez as [Hez|Hez];
        [|exact Hez].
      destruct Hnz. now apply in_map.
  - intros H1 H2 H3 H4 H5. unfold extractKeywords, wordCounts.
    now rewrite keywordText_absent.
Qed.

(** X14: when no counted word is an array index (nor "constructor"), the order
    of [Object.entries] is the order of first occurrence, and the result is
    ordered as the specification says. *)
Lemma extractKeywords_first_encountered (opportunity : Opportunity.t) :
  ~ In (str "constructor") (countedWords opportunity) ->
  Forall (fun w => arrayIndex w = None) (countedWords opportunity) ->
  StronglySorted (specBefore opportunity) (extractKeywords opportunity).
Proof.
  intros Hctor Hidx. pose proof (ranked_sorted opportunity Hctor) as Hs.
  rewrite <- (firstn_skipn 3) in Hs. apply StronglySorted_app_inv in Hs as [Hs _].
  unfold extractKeywords. apply StronglySorted_map.
  eapply StronglySorted_weaken; [|exact Hs].
  intros e1 e2 H1 H2 [Hlt|[Heq Hkey]]; [now left|]. right. split; [exact Heq|].
  assert (Hnone : forall e,
            In e (firstn 3 (arraySort byCount (entries (wordCounts opportunity)))) ->
            arrayIndex e.1 = None).
  { intros e He. forall_elim Hidx.
    apply extractKeywords_In. unfold extractKeywords. now apply in_map. }
  unfold keyBefore in Hkey. rewrite (Hnone _ H1), (Hnone _ H2) in Hkey. lia.
Qed.

End KeywordProofs.

Lemma extractKeywords_ranked_witness :
  ~ In (str "constructor")
      (@KeywordExtractor.countedWords BasicLatin.host Samples.robotics)
  /\ @KeywordExtractor.extractKeywords BasicLatin.host Samples.robotics
     = [str "robotics"; str "machine"; str "learning"]
  /\ StronglySorted (@KeywordExtractor.codeBefore BasicLatin.host Samples.robotics)
       (@KeywordExtractor.extractKeywords BasicLatin.host Samples.robotics).
Proof.
  assert (Hctor : ~ In (str "constructor")
                    (@KeywordExtractor.countedWords BasicLatin.host Samples.robotics)).
  { intros Hin. vm_compute in Hin.
    repeat (destruct Hin as [Hin|Hin]; [discriminate Hin|]). exact Hin. }
  split; [exact Hctor|]. split; [reflexivity|].
  exact (proj1 (proj1 (proj2 (proj2
    (@extractKeywords_ranked BasicLatin.host Samples.robotics))) Hctor)).
Defined.

(** * Further properties of the code *)

(** ** The saved opportunities *)

Section SavedListProofs.
Import SavedList.

Lemma NoDup_app_iff_snoc {A : Type} (l : list A) (x : A) :
  List.NoDup l -> ~ In x l -> List.NoDup (l ++ [x]).
Proof.
  intros Hl Hx. induction Hl as [|y l Hy Hl IH]; simpl.
  - repeat constructor. tauto.
  - constructor.
    + rewrite in_app_iff. simpl. intros [?|[->|[]]]; [tauto|]. apply Hx. now left.
    + apply IH. intros Hin. apply Hx. now right.
Qed.

Lemma existsb_filter_neq saved id id' :
  id' <> id ->
  existsb (fun s => streq (idOf s) id')
    (List.filter (fun s => negb (streq (idOf s) id)) saved)
  = existsb (fun s => streq (idOf s) id') saved.
Proof.
  intros Hne. induction saved as [|e saved IH]; [reflexivity|]. simpl.
  destruct (streq (idOf e) id) eqn:E; simpl.
  - rewrite IH. apply streq_true in E.
    assert (streq (idOf e) id' = false) as -> by (apply streq_false; congruence).
    reflexivity.
  - now rewrite IH.
Qed.

Lemma existsb_filter_self saved id :
  existsb (fun s => streq (idOf s) id)
    (List.filter (fun s => negb (streq (idOf s) id)) saved) = false.
Proof.
  induction saved as [|e saved IH]; [reflexivity|]. simpl.
  destruct (streq (idOf e) id) eqn:E; simpl; [exact IH | now rewrite E].
Qed.

(** X15: saving is a toggle on the id of the opportunity, and it does not touch
    what is saved under any other id. *)
Theorem handleSaveOpportunity_toggles (savedOpportunities : list entry)
    (opportunity : entry) (opportunityId : jsstring) :
  isOpportunitySaved (handleSaveOpportunity savedOpportunities opportunity)
    opportunityId
  = if streq opportunityId (idOf opportunity)
    then negb (isOpportunitySaved savedOpportunities (idOf opportunity))
    else isOpportunitySaved savedOpportunities opportunityId.
Proof.
  unfold isOpportunitySaved, handleSaveOpportunity. cbv zeta.
  destruct (streq opportunityId (idOf opportunity)) eqn:Hid.
  - apply streq_true in Hid. subst opportunityId.
    destruct (existsb _ savedOpportunities) eqn:E.
    + apply existsb_filter_self.
    + rewrite existsb_app, E. simpl. now rewrite streq_refl.
  - apply streq_false in Hid.
    destruct (existsb (fun saved => streq (idOf saved) (idOf opportunity))
                savedOpportunities) eqn:E.
    + now apply existsb_filter_neq.
    + rewrite existsb_app. simpl.
      assert (streq (idOf opportunity) opportunityId = false) as ->
        by (apply streq_false; congruence).
      now rewrite !orb_false_r.
Qed.

Lemma filter_neq_id saved id :
  existsb (fun s => streq (idOf s) id) saved = false ->
  List.filter (fun s => negb (streq (idOf s) id)) saved = saved.
Proof.
  induction saved as [|e saved IH]; [reflexivity|]. simpl.
  intros E. apply orb_false_iff in E as [E1 E2]. rewrite E1. simpl.
  now rewrite IH.
Qed.

(** X16: saving an opportunity that was not saved and then removing it gives
    back the list as it was. *)
Theorem handleSaveOpportunity_undo (savedOpportunities : list entry)
    (opportunity : entry) :
  isOpportunitySaved savedOpportunities (idOf opportunity) = false ->
  handleSaveOpportunity (handleSaveOpportunity savedOpportunities opportunity)
    opportunity
  = savedOpportunities.
Proof.
  unfold isOpportunitySaved. intros E.
  unfold handleSaveOpportunity at 2. cbv zeta. rewrite E.
  unfold handleSaveOpportunity. cbv zeta.
  rewrite existsb_app. simpl. rewrite streq_refl, orb_true_r.
  rewrite List.filter_app. simpl. rewrite streq_refl. simpl.
  rewrite app_nil_r. now apply filter_neq_id.
Qed.

(** X17: removing takes away every entry with the id, so removing and saving
    again leaves one entry with the id, the opportunity itself, at the
    end. *)
Theorem handleSaveOpportunity_resave (savedOpportunities : list entry)
    (opportunity : entry) :
  isOpportunitySaved savedOpportunities (idOf opportunity) = true ->
  handleSaveOpportunity (handleSaveOpportunity savedOpportunities opportunity)
    opportunity
  = List.filter (fun saved => negb (streq (idOf saved) (idOf opportunity)))
      savedOpportunities
    ++ [opportunity].
Proof.
  unfold isOpportunitySaved. intros E.
  unfold handleSaveOpportunity at 2. cbv zeta. rewrite E.
  unfold handleSaveOpportunity. cbv zeta.
  now rewrite existsb_filter_self.
Qed.

Lemma existsb_idOf_In saved id :
  existsb (fun s => streq (idOf s) id) saved = true <-> In id (map idOf saved).
Proof.
  rewrite existsb_exists, in_map_iff. split.
  - intros (e & He & E). apply streq_true in E. eauto.
  - intros (e & E & He). exists e. split; [exact He | now apply streq_true].
Qed.

(** X18: a list that holds no id twice stays so. *)
Theorem handleSaveOpportunity_NoDup (savedOpportunities : list entry)
    (opportunity : entry) :
  List.NoDup (map idOf savedOpportunities) ->
  List.NoDup (map idOf (handleSaveOpportunity savedOpportunities opportunity)).
Proof.
  intros Hnd. unfold handleSaveOpportunity. cbv zeta.
  destruct (existsb _ savedOpportunities) eqn:E.
  - now apply NoDup_map_filter.
  - rewrite map_app. simpl. apply NoDup_app_iff_snoc.
    + exact Hnd.
    + intros Hin. apply existsb_idOf_In in Hin. congruence.
Qed.

Lemma handleStatusChange_listing saved id st :
  map listing (handleStatusChange saved id st) = map listing saved.
Proof.
  unfold handleStatusChange. rewrite map_map. apply map_ext.
  intros e. now destruct (streq (idOf e) id).
Qed.

Lemma handleStatusChange_status saved id st e :
  In e (handleStatusChange saved id st) -> idOf e = id -> status e = Some st.
Proof.
  unfold handleStatusChange. intros Hin Hid.
  apply in_map_iff in Hin as (e0 & <- & _).
  destruct (streq (idOf e0) id) eqn:E; [reflexivity|].
  apply streq_false in E. now destruct E.
Qed.

(** X19: a change of status keeps every opportunity, in its place, sets the
    status of the entries with the id, and leaves the entries with another
    id as they are; when the id is not saved nothing changes. *)
Theorem handleStatusChange_updates (savedOpportunities : list entry)
    (opportunityId status' : jsstring) :
  map listing (handleStatusChange savedOpportunities opportunityId status')
  = map listing savedOpportunities
  /\ (forall e,
        In e (handleStatusChange savedOpportunities opportunityId status') ->
        idOf e = opportunityId -> status e = Some status')
  /\ (forall e, idOf e <> opportunityId ->
        (In e (handleStatusChange savedOpportunities opportunityId status')
         <-> In e savedOpportunities))
  /\ (isOpportunitySaved savedOpportunities opportunityId = false ->
      handleStatusChange savedOpportunities opportunityId status'
      = savedOpportunities).
Proof.
  split; [apply handleStatusChange_listing|].
  split; [intros e; apply handleStatusChange_status|]. split.
  - intros e Hne. unfold handleStatusChange. rewrite in_map_iff. split.
    + intros (e0 & E & Hin). destruct (streq (idOf e0) opportunityId) eqn:Hid.
      * apply streq_true in Hid. subst e. simpl in Hne. destruct Hne. exact Hid.
      * now subst e.
    + intros Hin. exists e. split; [|exact Hin].
      apply streq_false in Hne. now rewrite Hne.
  - unfold isOpportunitySaved, handleStatusChange. intros E.
    induction savedOpportunities as [|e l IH]; [reflexivity|]. simpl in *.
    apply orb_false_iff in E as [E1 E2]. rewrite E1. now rewrite IH.
Qed.

(** X20: choosing a status in the card stores the id of the opportunity as its
    status, whichever status was chosen: the page's handler takes the first
    argument of the call for the status. *)
Theorem statusClick_stores_id (savedOpportunities : list entry)
    (opportunity : entry) (chosen : jsstring) :
  (forall e, In e (statusClick savedOpportunities opportunity chosen) ->
     idOf e = idOf opportunity -> status e = Some (idOf opportunity))
  /\ (forall other,
        statusClick savedOpportunities opportunity chosen
        = statusClick savedOpportunities opportunity other)
  /\ map listing (statusClick savedOpportunities opportunity chosen)
     = map listing savedOpportunities.
Proof.
  unfold statusClick, onStatusChange. split; [|split].
  - intros e. apply handleStatusChange_status.
  - reflexivity.
  - apply handleStatusChange_listing.
Qed.

End SavedListProofs.

Lemma handleSaveOpportunity_undo_witness :
  SavedList.isOpportunitySaved
    [SavedList.Entry Samples.robotics None]
    (SavedList.idOf (SavedList.Entry (Samples.bare "phd-001") None)) = false
  /\ SavedList.handleSaveOpportunity
       (SavedList.handleSaveOpportunity [SavedList.Entry Samples.robotics None]
          (SavedList.Entry (Samples.bare "phd-001") None))
       (SavedList.Entry (Samples.bare "phd-001") None)
     = [SavedList.Entry Samples.robotics None].
Proof.
  split; [reflexivity|].
  exact (handleSaveOpportunity_undo [SavedList.Entry Samples.robotics None]
           (SavedList.Entry (Samples.bare "phd-001") None) eq_refl).
Defined.

Lemma handleSaveOpportunity_resave_witness :
  SavedList.isOpportunitySaved
    [SavedList.Entry Samples.robotics None;
     SavedList.Entry (Samples.bare "phd-001") None]
    (SavedList.idOf (SavedList.Entry Samples.robotics None)) = true
  /\ SavedList.handleSaveOpportunity
       (SavedList.handleSaveOpportunity
          [SavedList.Entry Samples.robotics None;
           SavedList.Entry (Samples.bare "phd-001") None]
          (SavedList.Entry Samples.robotics None))
       (SavedList.Entry Samples.robotics None)
     = [SavedList.Entry (Samples.bare "phd-001") None;
        SavedList.Entry Samples.robotics None].
Proof.
  split; [reflexivity|].
  exact (handleSaveOpportunity_resave
           [SavedList.Entry Samples.robotics None;
            SavedList.Entry (Samples.bare "phd-001") None]
           (SavedList.Entry Samples.robotics None) eq_refl).
Defined.

Lemma handleSaveOpportunity_NoDup_witness :
  List.NoDup (map SavedList.idOf [SavedList.Entry Samples.robotics None])
  /\ List.NoDup
       (map SavedList.idOf
          (SavedList.handleSaveOpportunity [SavedList.Entry Samples.robotics None]
             (SavedList.Entry (Samples.bare "phd-001") None))).
Proof.
  assert (Hnd : List.NoDup
                  (map SavedList.idOf [SavedList.Entry Samples.robotics None]))
    by (repeat constructor; simpl; tauto).
  split; [exact Hnd|].
  exact (handleSaveOpportunity_NoDup _ _ Hnd).
Defined.

(** ** The filter menu *)

Section FilterMenuProofs.
Import FilterMenu Opportunities.

Lemma passesFlags_both f g o :
  passesFlags (both f g) o = passesFlags f o && passesFlags g o.
Proof.
  unfold passesFlags, both. simpl.
  destruct (Filters.fullyFunded f), (Filters.fullyFunded g),
    (Filters.international f), (Filters.international g),
    (Filters.hasDeadline f), (Filters.hasDeadline g),
    (Filters.hasSupervisor f), (Filters.hasSupervisor g),
    (Opportunity.fullyFunded o), (Opportunity.international o),
    (deadlineSpecified o), (truthy (Opportunity.supervisor o)); reflexivity.
Qed.

(** X23: filtering what was filtered is filtering once with the flags of both
    configurations; so the flag filters commute, and filtering twice with
    the same flags changes nothing. *)
Theorem applyFlags_compose (f g : Filters.t) (l : list Opportunity.t) :
  applyFlags g (applyFlags f l) = applyFlags (both f g) l
  /\ applyFlags g (applyFlags f l) = applyFlags f (applyFlags g l)
  /\ applyFlags f (applyFlags f l) = applyFlags f l.
Proof.
  rewrite !applyFlags_filter, !filter_and. repeat split.
  - apply List.filter_ext. intros o. now rewrite passesFlags_both.
  - apply List.filter_ext. intros o. apply andb_comm.
  - apply List.filter_ext. intros o. now destruct (passesFlags f o).
Qed.

Lemma toggleFilter_cases filterName prev next :
  toggleFilter filterName prev = Some next ->
  next = Filters.Build (negb (Filters.fullyFunded prev))
           (Filters.international prev) (Filters.hasDeadline prev)
           (Filters.hasSupervisor prev) (Filters.subjects prev)
  \/ next = Filters.Build (Filters.fullyFunded prev)
             (negb (Filters.international prev)) (Filters.hasDeadline prev)
             (Filters.hasSupervisor prev) (Filters.subjects prev)
  \/ next = Filters.Build (Filters.fullyFunded prev)
             (Filters.international prev) (negb (Filters.hasDeadline prev))
             (Filters.hasSupervisor prev) (Filters.subjects prev)
  \/ next = Filters.Build (Filters.fullyFunded prev)
             (Filters.international prev) (Filters.hasDeadline prev)
             (negb (Filters.hasSupervisor prev)) (Filters.subjects prev).
Proof.
  unfold toggleFilter. cbv zeta.
  repeat (destruct (streq filterName _); [intros [= <-]; tauto|]).
  discriminate.
Qed.

(** X21: a button of the menu switches its flag and no other, the subjects stay,
    and a second press undoes the first. Switching a flag on can only take
    opportunities away: the new result is the old one filtered further.
    Switching it off gives the opposite. *)
Theorem toggleFilter_narrows (filterName : jsstring) (prev next : Filters.t)
    (l : list Opportunity.t) :
  toggleFilter filterName prev = Some next ->
  toggleFilter filterName next = Some prev
  /\ flagsChanged prev next = 1%nat
  /\ Filters.subjects next = Filters.subjects prev
  /\ (flagsSet next = S (flagsSet prev) \/ flagsSet prev = S (flagsSet next))
  /\ (flagsSet next = S (flagsSet prev) ->
      applyFlags next l = applyFlags next (applyFlags prev l))
  /\ (flagsSet prev = S (flagsSet next) ->
      applyFlags prev l = applyFlags prev (applyFlags next l)).
Proof.
  intros Ht. split; [|split; [|split; [|split; [|split]]]].
  - unfold toggleFilter in *. cbv zeta in *. destruct prev as [ff intl hd hs subj].
    simpl in *.
    repeat (destruct (streq filterName _);
            [injection Ht as <-; simpl; now rewrite negb_involutive|]).
    discriminate.
  - apply toggleFilter_cases in Ht.
    destruct prev as [[|] [|] [|] [|] subj];
      destruct Ht as [-> | [-> | [-> | ->]]]; reflexivity.
  - apply toggleFilter_cases in Ht.
    destruct Ht as [-> | [-> | [-> | ->]]]; reflexivity.
  - apply toggleFilter_cases in Ht.
    destruct prev as [[|] [|] [|] [|] subj];
      destruct Ht as [-> | [-> | [-> | ->]]]; simpl; auto.
  - intros Hn. rewrite !applyFlags_filter, filter_and.
    apply List.filter_ext. intros o. apply toggleFilter_cases in Ht.
    unfold passesFlags.
    destruct prev as [[|] [|] [|] [|] subj];
      destruct Ht as [-> | [-> | [-> | ->]]]; simpl in *; try discriminate;
      destruct (Opportunity.fullyFunded o), (Opportunity.international o),
        (deadlineSpecified o), (truthy (Opportunity.supervisor o)); reflexivity.
  - intros Hn. rewrite !applyFlags_filter, filter_and.
    apply List.filter_ext. intros o. apply toggleFilter_cases in Ht.
    unfold passesFlags.
    destruct prev as [[|] [|] [|] [|] subj];
      destruct Ht as [-> | [-> | [-> | ->]]]; simpl in *; try discriminate;
      destruct (Opportunity.fullyFunded o), (Opportunity.international o),
        (deadlineSpecified o), (truthy (Opportunity.supervisor o)); reflexivity.
Qed.

(** X22: the badge counts the array of subjects with the flags: its number is
    one more than the number of flags that are set, so a badge that shows
    never says 1. *)
Theorem badgeCount_counts_subjects (filters : Filters.t) :
  badgeCount filters = S (flagsSet filters)
  /\ (badgeShown filters = true <-> (1 <= flagsSet filters)%nat)
  /\ (badgeShown filters = true -> (2 <= badgeCount filters <= 5)%nat).
Proof.
  unfold badgeCount, flagsSet, badgeShown.
  destruct filters as [[|] [|] [|] [|] subj]; simpl;
    (split; [reflexivity|]); (split; [split; intros; (lia || reflexivity || discriminate)|]);
    intros; (lia || discriminate).
Qed.

End FilterMenuProofs.

Lemma toggleFilter_narrows_witness :
  FilterMenu.toggleFilter (str "hasDeadline") Filters.initial
  = Some Samples.hasDeadlineOnly
  /\ FilterMenu.toggleFilter (str "hasDeadline") Samples.hasDeadlineOnly
     = Some Filters.initial.
Proof.
  split; [reflexivity|].
  exact (proj1 (toggleFilter_narrows (str "hasDeadline") Filters.initial
                  Samples.hasDeadlineOnly [] eq_refl)).
Defined.

(** ** The two searches of searchService.js *)

Section SearchResultsProofs.
Context `{Host} `{UpperCase}.
Import HashScore SearchResults.

Lemma generateScore_mod s : generateScore s = HashScore.hashCode s mod 100.
Proof.
  unfold generateScore, HashScore.hashCode. rewrite scoreLoop_hashLoop.
  rewrite <- (Z.rem_abs (HashScore.hashLoop 0 s) 100) by lia.
  apply Z.rem_mod_nonneg; lia.
Qed.

Lemma generateScore_range s : 0 <= generateScore s <= 99.
Proof.
  rewrite generateScore_mod.
  pose proof (Z.mod_pos_bound (HashScore.hashCode s) 100). lia.
Qed.

(** X1: the score of both searches is the hash of the page taken modulo 100:
    the two files compute the same function, and the score lies between 0
    and 99. *)
Theorem generateScore_hashCode (s : jsstring) :
  generateScore s = HashScore.hashCode s mod 100
  /\ 0 <= generateScore s <= 99.
Proof. split; [apply generateScore_mod | apply generateScore_range]. Qed.

(** X2: whatever the query, the citations of the three professors lie in
    three bands that do not meet, so Smith has more citations than Johnson
    and Johnson more than Chen. The h-index and the i10-index stay in ranges
    that do overlap: for the query "(" the h-index of Johnson, 35, is above
    that of Smith, 30. Each professor has an h-index no greater than the
    i10-index, and an i10-index no greater than the citations. *)
Theorem searchProfessors_metrics (query : jsstring) :
  let m1 := Professor.scholarMetrics (smith query) in
  let m2 := Professor.scholarMetrics (johnson query) in
  let m3 := Professor.scholarMetrics (chen query) in
  (5000 <= Professor.citations m1 <= 5099
      /\ 30 <= Professor.hIndex m1 <= 49 /\ 50 <= Professor.i10Index m1 <= 79)
  /\ (3000 <= Professor.citations m2 <= 3099
      /\ 25 <= Professor.hIndex m2 <= 39 /\ 40 <= Professor.i10Index m2 <= 59)
  /\ (1500 <= Professor.citations m3 <= 1599
      /\ 18 <= Professor.hIndex m3 <= 27 /\ 25 <= Professor.i10Index m3 <= 39)
  /\ Professor.citations m3 < Professor.citations m2 < Professor.citations m1
  /\ (Professor.hIndex (Professor.scholarMetrics (smith (str "("))) = 30
      /\ Professor.hIndex (Professor.scholarMetrics (johnson (str "("))) = 35)
  /\ Forall
       (fun p =>
          Professor.hIndex (Professor.scholarMetrics p)
          <= Professor.i10Index (Professor.scholarMetrics p)
          <= Professor.citations (Professor.scholarMetrics p))
       (searchProfessors query).
Proof.
  cbv zeta. unfold searchProfessors, smith, johnson, chen. simpl.
  pose proof (generateScore_range query) as Hg.
  set (g := generateScore query) in *. clearbody g.
  rewrite !Z.rem_mod_nonneg by lia.
  pose proof (Z.mod_pos_bound g 10 ltac:(lia)).
  pose proof (Z.mod_pos_bound g 15 ltac:(lia)).
  pose proof (Z.mod_pos_bound g 20 ltac:(lia)).
  pose proof (Z.mod_pos_bound g 30 ltac:(lia)).
  assert (Hchen : 18 + g mod 10 <= 25 + g mod 15).
  { assert (E : (g mod 15) mod 5 = (g mod 10) mod 5).
    { rewrite (Z.mod_mod_divide g 15 5) by (now exists 3).
      rewrite (Z.mod_mod_divide g 10 5) by (now exists 2).
      reflexivity. }
    pose proof (Z.div_mod (g mod 15) 5 ltac:(lia)).
    pose proof (Z.div_mod (g mod 10) 5 ltac:(lia)).
    pose proof (Z.mod_pos_bound (g mod 10) 5 ltac:(lia)).
    lia. }
  split; [lia|]. split; [lia|]. split; [lia|]. split; [lia|].
  split; [split; reflexivity|].
  constructor; [simpl; lia|]. constructor; [simpl; lia|].
  constructor; [simpl; lia|]. constructor.
Qed.


Lemma deadlineLe_trans a b c : deadlineLe a b -> deadlineLe b c -> deadlineLe a c.
Proof.
  unfold deadlineLe.
  destruct (deadlineOf a), (deadlineOf b), (deadlineOf c); try tauto; lia.
Qed.

Lemma compareDeadline_agrees a b :
  agrees (fun x y => 0 <? sortCompare compareDeadline x y) deadlineLe a b.
Proof.
  unfold agrees, sortCompare, compareDeadline, deadlineLe.
  destruct (deadlineOf a), (deadlineOf b); split; intros E;
    try ltb_prop E; try discriminate; try exact I; lia.
Qed.

Lemma ordered_pairs_all {A : Type} (R : A -> A -> Prop) (l : list A) :
  (forall x y, R x y) -> ForallOrdPairs R l.
Proof.
  intros HR. apply (ordered_pairs_of_Forall R (fun _ => True)); [auto|].
  apply List.Forall_forall. auto.
Qed.

(** The comparator of the deadline sort never returns [NaN], and it orders
    the opportunities by their time values with the invalid dates as one
    class behind: it is consistent for every list. *)
Lemma compareDeadline_consistent l : consistent compareDeadline l = true.
Proof.
  apply consistent_intro.
  - intros a b _ _. unfold compareDeadline.
    destruct (deadlineOf a), (deadlineOf b); discriminate.
  - intros a _. unfold sortCompare, compareDeadline.
    destruct (deadlineOf a); [reflexivity | lia].
  - intros a b _ _. unfold sortCompare, compareDeadline.
    destruct (deadlineOf a), (deadlineOf b); lia.
  - intros a b c _ _ _. unfold sortCompare, compareDeadline.
    destruct (deadlineOf a), (deadlineOf b), (deadlineOf c); lia.
  - intros a b c _ _ _. unfold sortCompare, compareDeadline.
    destruct (deadlineOf a), (deadlineOf b), (deadlineOf c); lia.
  - intros a b c _ _ _. unfold sortCompare, compareDeadline.
    destruct (deadlineOf a), (deadlineOf b), (deadlineOf c); lia.
Qed.

Lemma sortByDeadline_sortBy l :
  sortByDeadline l = sortBy (fun x y => 0 <? sortCompare compareDeadline x y) l.
Proof. apply arraySort_consistent, compareDeadline_consistent. Qed.

(** X6: the sort by deadline rearranges the list so that the deadlines ascend
    and the opportunities whose deadline is no date come last; opportunities
    with the same deadline, or without a date, keep their order. *)
Theorem sortByDeadline_sorted (l : list Listing.t) :
  Permutation (sortByDeadline l) l
  /\ StronglySorted deadlineLe (sortByDeadline l)
  /\ (forall same : Listing.t -> bool,
        (forall x y, same x = true -> same y = true ->
                     deadlineOf x = deadlineOf y) ->
        List.filter same (sortByDeadline l) = List.filter same l).
Proof.
  rewrite sortByDeadline_sortBy. split; [apply sortBy_Permutation|]. split.
  - apply sortBy_sorted; [exact deadlineLe_trans|].
    apply ordered_pairs_all. exact compareDeadline_agrees.
  - intros same Hsame. apply sortBy_stable. intros x y Hx Hy.
    unfold sortCompare, compareDeadline. rewrite (Hsame x y Hx Hy).
    destruct (deadlineOf y); [reflexivity|]. rewrite Z.sub_diag. reflexivity.
Qed.


Lemma sortByDeadline_Permutation l : Permutation (sortByDeadline l) l.
Proof. apply arraySort_Permutation. Qed.

Lemma applyFilters_mock keyword filters :
  applyFilters filters (mockOpportunities keyword)
  = if Filters.fullyFunded filters || Filters.international filters
    then [stanford keyword; mit keyword]
    else [stanford keyword; mit keyword; berkeley keyword].
Proof. destruct filters as [[|] [|] [|] [|] subj]; reflexivity. Qed.

(** X5: every opportunity of the search has a deadline and a supervisor, so
    these two filters take nothing away; the other two each take away the
    Berkeley opportunity and no other. The result is never empty. *)
Theorem searchOpportunities_filters (keyword : jsstring) (filters : Filters.t) :
  searchOpportunities keyword filters
  = sortByDeadline
      (if Filters.fullyFunded filters || Filters.international filters
       then [stanford keyword; mit keyword]
       else [stanford keyword; mit keyword; berkeley keyword])
  /\ (2 <= length (searchOpportunities keyword filters) <= 3)%nat.
Proof.
  unfold searchOpportunities. rewrite applyFilters_mock.
  split; [reflexivity|].
  rewrite (Permutation_length (sortByDeadline_Permutation _)).
  destruct (_ || _); simpl; lia.
Qed.

Lemma sortBy_three {A : Type} (cmp : A -> A -> num) (a b c : A) :
  0 < sortCompare cmp a b -> 0 < sortCompare cmp a c ->
  0 < sortCompare cmp b c ->
  sortBy (fun x y => 0 <? sortCompare cmp x y) [a; b; c] = [c; b; a].
Proof.
  intros Hab Hac Hbc. unfold sortBy. simpl.
  apply Z.ltb_lt in Hab, Hac, Hbc.
  rewrite Hbc. simpl. rewrite Hac. simpl. now rewrite Hab.
Qed.

Lemma sortBy_two {A : Type} (cmp : A -> A -> num) (a b : A) :
  0 < sortCompare cmp a b ->
  sortBy (fun x y => 0 <? sortCompare cmp x y) [a; b] = [b; a].
Proof.
  intros Hab. unfold sortBy. simpl.
  apply Z.ltb_lt in Hab. now rewrite Hab.
Qed.

(** X7: when the host reads the three deadlines as dates in their calendar
    order, the search returns the opportunities by deadline, the earliest
    first: Berkeley (unless filtered out), MIT, Stanford, which is the
    reverse of the order they are built in. *)
Theorem searchOpportunities_order (keyword : jsstring) (filters : Filters.t)
    (april may june : Z) :
  dateParse (str "2025-04-30") = Num april ->
  dateParse (str "2025-05-01") = Num may ->
  dateParse (str "2025-06-15") = Num june ->
  april < may < june ->
  searchOpportunities keyword filters
  = if Filters.fullyFunded filters || Filters.international filters
    then [mit keyword; stanford keyword]
    else [berkeley keyword; mit keyword; stanford keyword].
Proof.
  intros Ha Hm Hj Hlt.
  unfold searchOpportunities. rewrite applyFilters_mock.
  rewrite sortByDeadline_sortBy.
  assert (Hsm : sortCompare compareDeadline (stanford keyword) (mit keyword)
                = june - may).
  { unfold sortCompare, compareDeadline, deadlineOf. simpl. now rewrite Hj, Hm. }
  assert (Hsb : sortCompare compareDeadline (stanford keyword) (berkeley keyword)
                = june - april).
  { unfold sortCompare, compareDeadline, deadlineOf. simpl. now rewrite Hj, Ha. }
  assert (Hmb : sortCompare compareDeadline (mit keyword) (berkeley keyword)
                = may - april).
  { unfold sortCompare, compareDeadline, deadlineOf. simpl. now rewrite Hm, Ha. }
  destruct (_ || _).
  - apply sortBy_two. lia.
  - apply sortBy_three; lia.
Qed.


Lemma scoreLoop_snoc s c :
  SearchService.scoreLoop 0 (s ++ [c]) = wrapStep (SearchService.scoreLoop 0 s) c.
Proof.
  rewrite !scoreLoop_hashLoop, !hashLoop_fold, fold_left_app. reflexivity.
Qed.

Lemma scoreLoop_range s : - 2 ^ 31 <= SearchService.scoreLoop 0 s < 2 ^ 31.
Proof.
  rewrite scoreLoop_hashLoop, hashLoop_fold. apply fold_wrapStep_range. lia.
Qed.

(** The accumulator after one more code unit [c + d], from the accumulator
    after [c]. *)
Lemma wrapStep_shift h c d : wrapStep h (c + d) = toInt32 (wrapStep h c + d).
Proof.
  unfold wrapStep. destruct (toInt32_diff (h * 32 - h + c)) as [k ->].
  apply toInt32_congr.
  replace (h * 32 - h + (c + d) - (h * 32 - h + c + k * 2 ^ 32 + d))
    with (- k * 2 ^ 32) by lia.
  apply Z.mod_mul. lia.
Qed.

Lemma generateScore_abs s :
  generateScore s = Z.abs (SearchService.scoreLoop 0 s) mod 100.
Proof.
  unfold generateScore. rewrite <- (Z.rem_abs _ 100) by lia.
  apply Z.rem_mod_nonneg; lia.
Qed.

Lemma mod_100_near a b : a mod 100 = b mod 100 -> - 100 < a - b < 100 -> a = b.
Proof.
  intros E Hd.
  pose proof (Z.div_mod a 100 ltac:(lia)). pose proof (Z.div_mod b 100 ltac:(lia)).
  lia.
Qed.

Lemma numberToString_inj_nat : forall i j : nat,
  (i < 100)%nat -> (j < 100)%nat ->
  numberToString (Z.of_nat i) = numberToString (Z.of_nat j) -> i = j.
Proof.
  assert (E : forallb (fun i => forallb (fun j =>
                implb (streq (numberToString (Z.of_nat i))
                             (numberToString (Z.of_nat j)))
                      (Nat.eqb i j)) (seq 0 100)) (seq 0 100) = true)
    by (vm_compute; reflexivity).
  intros i j Hi Hj Heq.
  rewrite forallb_forall in E. specialize (E i ltac:(apply in_seq; lia)).
  rewrite forallb_forall in E. specialize (E j ltac:(apply in_seq; lia)).
  rewrite Heq, streq_refl in E. simpl in E. now apply Nat.eqb_eq.
Qed.

Lemma numberToString_inj n m :
  0 <= n <= 99 -> 0 <= m <= 99 -> numberToString n = numberToString m -> n = m.
Proof.
  intros Hn Hm E.
  rewrite <- (Z2Nat.id n), <- (Z2Nat.id m) in E by lia.
  apply numberToString_inj_nat in E; lia.
Qed.

(** Two labels made from the scores of [s ++ "1"], [s ++ "2"] and
    [s ++ "3"]. *)
Lemma label_eq prefix s t :
  prefix ++ numberToString (generateScore s)
  = prefix ++ numberToString (generateScore t)
  <-> Z.abs (SearchService.scoreLoop 0 s) mod 100
      = Z.abs (SearchService.scoreLoop 0 t) mod 100.
Proof.
  rewrite <- !generateScore_abs. split.
  - intros E. apply app_inv_head in E.
    apply numberToString_inj in E; [exact E | apply generateScore_range ..].
  - now intros ->.
Qed.

Lemma suffix_scores s :
  let x := SearchService.scoreLoop 0 (s ++ str "1") in
  - 2 ^ 31 <= x < 2 ^ 31
  /\ SearchService.scoreLoop 0 (s ++ str "2") = toInt32 (x + 1)
  /\ SearchService.scoreLoop 0 (s ++ str "3") = toInt32 (x + 2).
Proof.
  cbv zeta. split; [apply scoreLoop_range|].
  change (str "1") with [49]. change (str "2") with [49 + 1].
  change (str "3") with [49 + 2].
  rewrite !scoreLoop_snoc. split; apply wrapStep_shift.
Qed.

Lemma toInt32_succ x :
  - 2 ^ 31 <= x < 2 ^ 31 ->
  toInt32 (x + 1) = if x =? 2 ^ 31 - 1 then - 2 ^ 31 else x + 1.
Proof.
  intros Hx. destruct (x =? 2 ^ 31 - 1) eqn:E.
  - apply Z.eqb_eq in E. subst x. reflexivity.
  - apply Z.eqb_neq in E. apply toInt32_small. lia.
Qed.

Lemma toInt32_succ2 x :
  - 2 ^ 31 <= x < 2 ^ 31 ->
  toInt32 (x + 2) = if 2 ^ 31 - 2 <=? x then x + 2 - 2 ^ 32 else x + 2.
Proof.
  intros Hx. destruct (2 ^ 31 - 2 <=? x) eqn:E.
  - apply Z.leb_le in E.
    assert (x = 2 ^ 31 - 2 \/ x = 2 ^ 31 - 1) as [-> | ->] by lia; reflexivity.
  - apply Z.leb_gt in E. apply toInt32_small. lia.
Qed.

Lemma adjacent_labels prefix s :
  prefix ++ numberToString (generateScore (s ++ str "1"))
  <> prefix ++ numberToString (generateScore (s ++ str "2"))
  /\ prefix ++ numberToString (generateScore (s ++ str "2"))
     <> prefix ++ numberToString (generateScore (s ++ str "3")).
Proof.
  rewrite !label_eq.
  destruct (suffix_scores s) as (Hx & -> & ->). cbv zeta in *.
  set (x := SearchService.scoreLoop 0 (s ++ str "1")) in *. clearbody x.
  rewrite toInt32_succ, toInt32_succ2 by exact Hx.
  destruct (Z.eqb_spec x (2 ^ 31 - 1)); destruct (Z.leb_spec (2 ^ 31 - 2) x);
    split; intros E; apply mod_100_near in E; lia.
Qed.

Lemma outer_labels prefix s :
  prefix ++ numberToString (generateScore (s ++ str "1"))
  = prefix ++ numberToString (generateScore (s ++ str "3"))
  <-> SearchService.scoreLoop 0 (s ++ str "1") = -1
      \/ SearchService.scoreLoop 0 (s ++ str "1") = 2 ^ 31 - 1.
Proof.
  rewrite label_eq.
  destruct (suffix_scores s) as (Hx & _ & ->). cbv zeta in *.
  set (x := SearchService.scoreLoop 0 (s ++ str "1")) in *. clearbody x.
  rewrite toInt32_succ2 by exact Hx. split.
  - intros E. destruct (Z.leb_spec (2 ^ 31 - 2) x); apply mod_100_near in E; lia.
  - intros [-> | ->]; reflexivity.
Qed.

(** X4: the ids of the results of a search come from the scores of the keyword
    followed by 1, 2 and 3. Neighbours in the list never share an id; the
    first and the third do when the hash of the keyword followed by 1 ends
    at -1 or at the largest 32-bit integer, and only then. The keyword
    "aeaswplo" is one for which it does. The same holds for the ids of the
    professors. *)
Theorem mockOpportunities_ids (keyword : jsstring) :
  Listing.id (stanford keyword) <> Listing.id (mit keyword)
  /\ Listing.id (mit keyword) <> Listing.id (berkeley keyword)
  /\ (Listing.id (stanford keyword) = Listing.id (berkeley keyword)
      <-> SearchService.scoreLoop 0 (keyword ++ str "1") = -1
          \/ SearchService.scoreLoop 0 (keyword ++ str "1") = 2 ^ 31 - 1)
  /\ Listing.id (stanford (str "aeaswplo")) = Listing.id (berkeley (str "aeaswplo"))
  /\ Professor.id (smith keyword) <> Professor.id (johnson keyword)
  /\ Professor.id (johnson keyword) <> Professor.id (chen keyword)
  /\ (Professor.id (smith keyword) = Professor.id (chen keyword)
      <-> Listing.id (stanford keyword) = Listing.id (berkeley keyword)).
Proof.
  split; [apply adjacent_labels|]. split; [apply adjacent_labels|].
  split; [apply outer_labels|]. split; [now vm_compute|].
  split; [apply adjacent_labels|]. split; [apply adjacent_labels|].
  exact (iff_trans (outer_labels (str "prof-") keyword)
           (iff_sym (outer_labels (str "opp-") keyword))).
Qed.


End SearchResultsProofs.

(** ** The results of a search and the scorer *)

Section SearchScoreProofs.
Context `{Host} `{UpperCase}.
Import SearchResults SearchService Spec.

Lemma startsWith_refl s : startsWith s s = true.
Proof. induction s as [|c s IH]; simpl; [reflexivity|]. now rewrite Z.eqb_refl. Qed.

Lemma includes_refl s : includes s s = true.
Proof. destruct s; simpl; [reflexivity|]. now rewrite Z.eqb_refl, startsWith_refl. Qed.

Lemma relatedPairs_same interests subjects k :
  In k interests -> In k subjects ->
  (1 <= length (relatedPairs interests subjects))%nat.
Proof.
  intros Hi Hs.
  assert (Hin : In (k, k) (relatedPairs interests subjects)).
  { unfold relatedPairs. apply filter_In. split; [now apply in_prod|].
    simpl. now rewrite includes_refl. }
  destruct (relatedPairs interests subjects); [destruct Hin | simpl; lia].
Qed.

Lemma score_of_listing (o : Listing.t) (user : UserProfile.t) :
  calculateCompatibilityScore (Some (Listing.toOpportunity o)) (Some user)
  = Ok (clamp
          (generateScore (Listing.id o) (userIdOf user)
           + Z.min (5 * Z.of_nat (length (relatedPairs
                                            (default [] (UserProfile.interests user))
                                            (Listing.subjects o)))) 20)
          0 100).
Proof.
  unfold calculateCompatibilityScore. rewrite userId_userIdOf.
  rewrite interestBonus_ok by (right; intros c s; discriminate).
  reflexivity.
Qed.

Lemma generateScore2_range oppId userId : 0 <= generateScore oppId userId <= 99.
Proof.
  rewrite generateScore_boundedHash.
  pose proof (boundedHash_range (oppId ++ str "-" ++ userId) 0 100).
  lia.
Qed.

Lemma keyword_first_subject keyword o filters :
  keyword <> [] -> In o (searchOpportunities keyword filters) ->
  In keyword (Listing.subjects o).
Proof.
  intros Hk Hin.
  unfold searchOpportunities in Hin. rewrite applyFilters_mock in Hin.
  apply (Permutation_in _ (sortByDeadline_Permutation _)) in Hin.
  assert (Ho : o = stanford keyword \/ o = mit keyword \/ o = berkeley keyword).
  { destruct (_ || _); simpl in Hin; intuition. }
  destruct keyword as [|c k]; [congruence|].
  destruct Ho as [-> | [-> | ->]]; now left.
Qed.

(** X8: the scorer accepts every opportunity of a search: the score of a result
    is a number between the base score of its id and 100, at most 20 above
    the base; and a profile that lists the searched keyword among its
    interests gets the bonus of 5 on every result. *)
Theorem searchOpportunities_scored (keyword : jsstring) (filters : Filters.t)
    (user : UserProfile.t) :
  Forall
    (fun o =>
       let base := generateScore (Listing.id o) (userIdOf user) in
       exists score,
         calculateCompatibilityScore (Some (Listing.toOpportunity o)) (Some user)
         = Ok score
         /\ 0 <= base <= score /\ score <= base + 20 /\ score <= 100
         /\ (keyword <> [] ->
             In keyword (default [] (UserProfile.interests user)) ->
             Z.min (base + 5) 100 <= score))
    (searchOpportunities keyword filters).
Proof.
  apply List.Forall_forall. intros o Hin. cbv zeta.
  rewrite score_of_listing.
  pose proof (generateScore2_range (Listing.id o) (userIdOf user)) as Hb.
  eexists. split; [reflexivity|]. unfold clamp.
  repeat split; try lia.
  intros Hk Hi.
  pose proof (relatedPairs_same _ _ keyword Hi
                (keyword_first_subject keyword o filters Hk Hin)).
  lia.
Qed.

Lemma filter_isLowerAlnum s : Forall (fun c => isLowerAlnum c = true) (List.filter isLowerAlnum s).
Proof.
  apply List.Forall_forall. intros c Hc. now apply filter_In in Hc.
Qed.

(** X3: the address of a professor is the query in lower case with everything
    but the letters a to z and the digits taken out, then the at sign and
    the domain of the university: it holds one at sign, and nothing stands
    before it when the query is empty, although the professor then has a
    name. *)
Theorem searchProfessors_email (query : jsstring) :
  map Professor.email (searchProfessors query)
  = map (fun domain => mailName query ++ str "@" ++ domain)
      [str "stanford.edu"; str "mit.edu"; str "berkeley.edu"]
  /\ Forall (fun c => 97 <= c <= 122 \/ 48 <= c <= 57) (mailName query)
  /\ Forall (fun p => count_occ Z.eq_dec (Professor.email p) 64 = 1%nat)
       (searchProfessors query)
  /\ map Professor.email (searchProfessors [])
     = [str "@stanford.edu"; str "@mit.edu"; str "@berkeley.edu"]
  /\ map Professor.name (searchProfessors [])
     = [str "John Smith"; str "Sarah Johnson"; str "David Chen"].
Proof.
  assert (Hl : Forall (fun c => 97 <= c <= 122 \/ 48 <= c <= 57) (mailName query)).
  { eapply List.Forall_impl; [|apply filter_isLowerAlnum].
    intros c Hc. unfold isLowerAlnum in Hc. lia. }
  assert (Hc : count_occ Z.eq_dec (mailName query) 64 = 0%nat).
  { apply count_occ_not_In. intros Hin.
    apply (proj1 (List.Forall_forall _ _) Hl) in Hin. lia. }
  split; [reflexivity|]. split; [exact Hl|]. split.
  - unfold searchProfessors, smith, johnson, chen.
    repeat constructor; simpl Professor.email;
      rewrite count_occ_app, Hc; reflexivity.
  - unfold searchProfessors, smith, johnson, chen, mailName, professorName.
    simpl. rewrite toLowerCase_nil. split; reflexivity.
Qed.

End SearchScoreProofs.

Lemma searchOpportunities_order_witness :
  @dateParse BasicLatin.host (str "2025-04-30") = Num 1745971200000
  /\ @dateParse BasicLatin.host (str "2025-05-01") = Num 1746057600000
  /\ @dateParse BasicLatin.host (str "2025-06-15") = Num 1749945600000
  /\ @SearchResults.searchOpportunities BasicLatin.host (str "Robotics")
       Filters.initial
     = [SearchResults.berkeley (str "Robotics");
        SearchResults.mit (str "Robotics");
        SearchResults.stanford (str "Robotics")].
Proof.
  split; [reflexivity|]. split; [reflexivity|]. split; [reflexivity|].
  exact (@searchOpportunities_order BasicLatin.host (str "Robotics")
           Filters.initial 1745971200000 1746057600000 1749945600000
           eq_refl eq_refl eq_refl ltac:(lia)).
Defined.
(** ** The image of a card *)

Section ImageProofs.
Context `{Host}.
Import OpportunityImage.

Lemma categoryOf_In term category :
  categoryOf term = Some category -> In category categories.
Proof.
  unfold categoryOf.
  repeat match goal with
         | |- context [if ?b then _ else _] => destruct b
         end;
    intros [= <-]; unfold categories; simpl; tauto.
Qed.

Lemma firstCategory_In terms : In (firstCategory terms) categories.
Proof.
  induction terms as [|term rest IH]; simpl.
  - unfold categories. simpl. tauto.
  - destruct (negb _); [exact IH|].
    destruct (categoryOf term) eqn:E; [now apply (categoryOf_In term) | exact IH].
Qed.

Lemma categories_images category :
  In category categories ->
  exists url, get category images = Some url /\ truthy (Some url) = true
              /\ url <> defaultImage.
Proof.
  unfold categories. simpl.
  intros Hin. repeat (destruct Hin as [<- | Hin]; [eexists; split; [reflexivity|]; split; [reflexivity|]; vm_compute; discriminate|]).
  destruct Hin.
Qed.

(** X10: whatever the opportunity, the category is one of the twelve that have
    an image, and the card shows the image of its category: the default
    image is never the one that is set. *)
Theorem image_configured (opportunity : Opportunity.t) :
  In (getCategory opportunity) categories
  /\ get (getCategory opportunity) images = Some (image opportunity)
  /\ image opportunity <> defaultImage.
Proof.
  pose proof (firstCategory_In
                (allTerms (Opportunity.department opportunity)
                   (Opportunity.subjects opportunity))) as Hin.
  split; [exact Hin|].
  destruct (categories_images _ Hin) as (url & Hget & Ht & Hne).
  unfold image. cbv zeta. unfold getCategory. rewrite Hget, Ht. auto.
Qed.

Lemma categoryOf_nil : categoryOf [] = None.
Proof. reflexivity. Qed.

Lemma firstCategory_decides term rest category :
  categoryOf term = Some category -> firstCategory (term :: rest) = category.
Proof.
  intros E. simpl. destruct term as [|c term]; [discriminate|]. simpl.
  now rewrite E.
Qed.

Lemma firstCategory_app l1 l2 :
  Forall (fun term => categoryOf term = None) l1 ->
  firstCategory (l1 ++ l2) = firstCategory l2.
Proof.
  induction 1 as [|term l1 Hterm Hl1 IH]; simpl; [reflexivity|].
  rewrite Hterm, IH. now destruct (negb _).
Qed.

(** X11: the department is looked at first: when it meets one of the tests, it
    decides the category, whatever the subjects are. *)
Theorem getCategory_department_first (opportunity : Opportunity.t)
    (department category : jsstring) :
  Opportunity.department opportunity = Some department ->
  categoryOf (toLowerCase department) = Some category ->
  getCategory opportunity = category.
Proof.
  intros Hd Hc. unfold getCategory, allTerms. rewrite Hd.
  destruct department as [|c d].
  - rewrite toLowerCase_nil in Hc. discriminate.
  - simpl. destruct (toLowerCase (c :: d)) as [|c' d'] eqn:E; [discriminate|].
    simpl. now rewrite Hc.
Qed.

Lemma split_no_sep s : ~ In 44 s -> split 44 s = [s].
Proof.
  induction s as [|c s IH]; intros Hs; simpl; [reflexivity|].
  destruct (Z.eqb_spec c 44) as [->|Hc]; [destruct Hs; now left|].
  rewrite IH; [reflexivity|]. intros Hin. apply Hs. now right.
Qed.

Lemma split_app s t : ~ In 44 s -> split 44 (s ++ 44 :: t) = s :: split 44 t.
Proof.
  induction s as [|c s IH]; intros Hs; simpl; [reflexivity|].
  destruct (Z.eqb_spec c 44) as [->|Hc]; [destruct Hs; now left|].
  rewrite IH; [reflexivity|]. intros Hin. apply Hs. now right.
Qed.

Lemma split_joinWith l :
  l <> [] -> Forall (fun s => ~ In 44 s) l ->
  split 44 (KeywordExtractor.joinWith (str ",") l) = l.
Proof.
  intros Hne Hl. induction Hl as [|x rest Hx Hrest IH]; [congruence|].
  destruct rest as [|y rest]; simpl.
  - now apply split_no_sep.
  - change (str ",") with [44]. simpl app.
    rewrite split_app by exact Hx. f_equal. apply IH. discriminate.
Qed.

Lemma joinWith_nil l :
  KeywordExtractor.joinWith (str ",") l = [] -> l = [] \/ l = [[]].
Proof.
  destruct l as [|x [|y rest]]; simpl; [now left | intros ->; now right |].
  change (str ",") with [44]. intros E. apply app_eq_nil in E as [_ E].
  discriminate.
Qed.

Lemma firstCategory_congr l l1 l2 :
  firstCategory l1 = firstCategory l2 ->
  firstCategory (l ++ l1) = firstCategory (l ++ l2).
Proof.
  intros E. induction l as [|term l IH]; simpl; [exact E|].
  rewrite IH. reflexivity.
Qed.

(** X12: the subjects may come as an array or as one string with the subjects
    between commas: both give the same terms, so the same category and the
    same image. *)
Theorem getCategory_comma_string (withString withArray : Opportunity.t)
    (subjects : list jsstring) :
  Forall (fun s => ~ In 44 s) subjects ->
  Opportunity.department withString = Opportunity.department withArray ->
  Opportunity.subjects withString
  = Text (KeywordExtractor.joinWith (str ",") subjects) ->
  Opportunity.subjects withArray = Items (map Opportunities.trim subjects) ->
  getCategory withString = getCategory withArray
  /\ image withString = image withArray.
Proof.
  intros Hl Hd Hs Ha.
  assert (E : getCategory withString = getCategory withArray).
  { unfold getCategory, allTerms. rewrite Hd, Hs, Ha.
    apply firstCategory_congr. simpl fieldTruthy.
    destruct (KeywordExtractor.joinWith (str ",") subjects) as [|c s] eqn:Ej.
    - apply joinWith_nil in Ej as [-> | ->]; [reflexivity|].
      simpl. change (Opportunities.trim []) with (@nil Z).
      rewrite toLowerCase_nil. reflexivity.
    - simpl truthy. cbv iota. rewrite <- Ej.
      rewrite split_joinWith; [reflexivity | | exact Hl].
      intros ->. discriminate. }
  split; [exact E|]. unfold image. cbv zeta. now rewrite E.
Qed.

End ImageProofs.

Lemma getCategory_department_first_witness :
  Opportunity.department Samples.robotics = Some (str "Computer Science")
  /\ OpportunityImage.categoryOf
       (@toLowerCase BasicLatin.host (str "Computer Science"))
     = Some (str "computerScience")
  /\ @OpportunityImage.getCategory BasicLatin.host Samples.robotics
     = str "computerScience".
Proof.
  split; [reflexivity|]. split; [reflexivity|].
  exact (@getCategory_department_first BasicLatin.host Samples.robotics
           (str "Computer Science") (str "computerScience") eq_refl eq_refl).
Defined.

Lemma getCategory_comma_string_witness :
  Opportunity.subjects Samples.roboticsCommaSubjects
  = Text (KeywordExtractor.joinWith (str ",")
            [str "Machine Learning"; str " Robotics"])
  /\ Opportunity.subjects Samples.robotics
     = Items (map Opportunities.trim [str "Machine Learning"; str " Robotics"])
  /\ @OpportunityImage.getCategory BasicLatin.host Samples.roboticsCommaSubjects
     = @OpportunityImage.getCategory BasicLatin.host Samples.robotics.
Proof.
  split; [reflexivity|]. split; [reflexivity|].
  refine (proj1 (@getCategory_comma_string BasicLatin.host
                   Samples.roboticsCommaSubjects Samples.robotics
                   [str "Machine Learning"; str " Robotics"]
                   _ eq_refl eq_refl eq_refl)).
  repeat constructor; vm_compute; intuition discriminate.
Defined.
(** ** Searching and generating *)

Section PageProofs.
Context `{Host}.
Import Opportunities Page.

Lemma filterM_idem {A : Type} (f : A -> result bool) l r :
  filterM f l = Ok r -> filterM f r = Ok r.
Proof.
  revert r. induction l as [|x l IH]; simpl; intros r Hr; [now inversion Hr|].
  destruct (f x) as [b|] eqn:Ex; simpl in Hr; [|discriminate].
  destruct (filterM f l) as [r'|]; simpl in Hr; [|discriminate].
  inversion Hr; subst. specialize (IH r' eq_refl).
  destruct b; [|exact IH]. simpl. now rewrite Ex, IH.
Qed.

Lemma filterM_incl {A : Type} (f : A -> result bool) l r :
  filterM f l = Ok r -> incl r l.
Proof.
  intros Hr. rewrite (filterM_Ok _ _ _ Hr). intros x Hx.
  now apply filter_In in Hx.
Qed.

(** X26: after a search that succeeds, the filter of the page on the same query
    takes nothing more away: what is shown is the result of the search,
    narrowed by the flags and sorted. The result holds generated
    opportunities only. *)
Theorem handleSearch_shown (generated : list Opportunity.t)
    (searchQuery : jsstring) (s : state) (filters : Filters.t)
    (sortBy : jsstring) (sortedScores : gmap jsstring Z) :
  truthy (Some (trim searchQuery)) = true ->
  error (handleSearch generated searchQuery s) = None ->
  let results := opportunities (handleSearch generated searchQuery s) in
  getSortedAndFilteredOpportunities results searchQuery filters sortBy
    sortedScores
  = Ok (sortOpportunities sortBy sortedScores (applyFlags filters results))
  /\ incl results generated
  /\ filterM (matchesQuery (toLowerCase searchQuery)) generated = Ok results.
Proof.
  intros Hq. unfold handleSearch. rewrite Hq. simpl negb. cbv iota zeta.
  destruct (filterM _ generated) as [results|] eqn:E; simpl; [|discriminate].
  intros _. split; [|split; [now apply filterM_incl in E | reflexivity]].
  unfold getSortedAndFilteredOpportunities, filterOpportunities.
  rewrite Hq, (filterM_idem _ _ _ E). reflexivity.
Qed.

(** A search with a blank query changes nothing. *)
Lemma handleSearch_blank generated searchQuery s :
  truthy (Some (trim searchQuery)) = false ->
  handleSearch generated searchQuery s = s.
Proof. intros Hq. unfold handleSearch. now rewrite Hq. Qed.

Lemma pickRequirements_cons draw rest acc :
  pickRequirements (draw :: rest) acc
  = if existsb (streq (nth draw requirements [])) acc
    then pickRequirements rest acc
    else pickRequirements rest (acc ++ [nth draw requirements []]).
Proof. reflexivity. Qed.

Lemma existsb_streq_In req acc :
  existsb (streq req) acc = true <-> In req acc.
Proof.
  rewrite existsb_exists. split.
  - intros (r & Hr & Er). apply streq_true in Er. now subst r.
  - intros Hin. exists req. split; [exact Hin | apply streq_refl].
Qed.

Lemma pickRequirements_keeps draws : forall acc,
  List.NoDup acc ->
  List.NoDup (pickRequirements draws acc)
  /\ (length acc <= length (pickRequirements draws acc)
      <= length acc + length draws)%nat
  /\ (forall req, In req (pickRequirements draws acc)
       <-> In req acc
           \/ exists draw, In draw draws /\ req = nth draw requirements []).
Proof.
  induction draws as [|draw rest IH]; intros acc Hnd.
  - simpl. repeat split; auto; try lia. intros [Hin | (d & [] & _)]. exact Hin.
  - rewrite pickRequirements_cons.
    set (req := nth draw requirements []).
    destruct (existsb (streq req) acc) eqn:E.
    + apply existsb_streq_In in E.
      destruct (IH acc Hnd) as (H1 & H2 & H3).
      split; [exact H1|]. split; [simpl length; lia|].
      intros r. rewrite H3. split.
      * intros [Hin | (d & Hd & ->)]; [now left|]. right. exists d.
        split; [now right | reflexivity].
      * intros [Hin | (d & [<- | Hd] & ->)]; [now left | now left |].
        right. now exists d.
    + assert (Hnot : ~ In req acc).
      { intros Hin. apply existsb_streq_In in Hin. congruence. }
      destruct (IH (acc ++ [req])) as (H1 & H2 & H3).
      { now apply NoDup_app_iff_snoc. }
      rewrite length_app in H2. simpl length in *.
      split; [exact H1|]. split; [lia|].
      intros r. rewrite H3, in_app_iff. split.
      * intros [[Hin | [<- | []]] | (d & Hd & ->)].
        -- now left.
        -- right. exists draw. split; [now left | reflexivity].
        -- right. exists d. split; [now right | reflexivity].
      * intros [Hin | (d & [<- | Hd] & ->)].
        -- left. now left.
        -- left. right. now left.
        -- right. now exists d.
Qed.

Lemma pickRequirements_repeat req n :
  forall draw, nth draw requirements [] = req ->
  pickRequirements (repeat draw n) [req] = [req].
Proof.
  intros draw <-. induction n as [|n IH]; [reflexivity|].
  change (repeat draw (S n)) with (draw :: repeat draw n).
  rewrite pickRequirements_cons.
  assert (existsb (streq (nth draw requirements []))
            [nth draw requirements []] = true) as ->
    by (apply existsb_streq_In; now left).
  exact IH.
Qed.

(** X27: the requirements of a generated opportunity are the requirements that
    were drawn, each once: no more than there were turns, and at least one.
    Equal draws give fewer than the turns, down to a single requirement when
    all the draws agree. *)
Theorem pickRequirements_distinct (draws : list nat) :
  Forall (fun draw => (draw < 10)%nat) draws ->
  let picked := pickRequirements draws [] in
  List.NoDup picked
  /\ incl picked requirements
  /\ (forall req, In req picked
       <-> exists draw, In draw draws /\ req = nth draw requirements [])
  /\ (length picked <= length draws)%nat
  /\ (draws <> [] -> (1 <= length picked)%nat)
  /\ (forall draw n, pickRequirements (repeat draw (S n)) []
                     = [nth draw requirements []]).
Proof.
  intros Hd picked.
  destruct (pickRequirements_keeps draws [] (List.NoDup_nil _)) as (H1 & H2 & H3).
  fold picked in H1, H2, H3.
  assert (Hiff : forall req, In req picked
                 <-> exists draw, In draw draws /\ req = nth draw requirements []).
  { intros req. rewrite H3. split; [intros [[] | Hx]; exact Hx | now right]. }
  split; [exact H1|]. split; [|split; [exact Hiff|]].
  - intros req Hreq. apply Hiff in Hreq as (d & Hin & ->).
    apply nth_In. exact (proj1 (List.Forall_forall _ _) Hd d Hin).
  - split; [simpl length in H2; lia|]. split.
    + intros Hne. destruct draws as [|d rest]; [congruence|].
      assert (Hin : In (nth d requirements []) picked).
      { apply Hiff. exists d. split; [now left | reflexivity]. }
      destruct picked; [destruct Hin | simpl; lia].
    + intros draw n. change (repeat draw (S n)) with (draw :: repeat draw n).
      rewrite pickRequirements_cons. change (existsb _ []) with false.
      cbv iota. now apply pickRequirements_repeat.
Qed.

End PageProofs.

Lemma handleSearch_shown_witness :
  truthy (Some (Opportunities.trim (str "Robotics"))) = true
  /\ Page.error
       (@Page.handleSearch BasicLatin.host
          [Samples.robotics; Samples.roboticsCommaSubjects] (str "Robotics")
          (Page.State [] None)) = None
  /\ @Opportunities.getSortedAndFilteredOpportunities BasicLatin.host
       (Page.opportunities
          (@Page.handleSearch BasicLatin.host
             [Samples.robotics; Samples.roboticsCommaSubjects] (str "Robotics")
             (Page.State [] None)))
       (str "Robotics") Filters.initial (str "date") ∅
     = Ok [Samples.robotics; Samples.roboticsCommaSubjects].
Proof.
  split; [reflexivity|]. split; [reflexivity|].
  exact (proj1 (@handleSearch_shown BasicLatin.host
                  [Samples.robotics; Samples.roboticsCommaSubjects]
                  (str "Robotics") (Page.State [] None) Filters.initial
                  (str "date") ∅ eq_refl eq_refl)).
Defined.

Lemma pickRequirements_distinct_witness :
  Forall (fun draw => (draw < 10)%nat) [1; 9; 1; 4]%nat
  /\ Page.pickRequirements [1; 9; 1; 4]%nat []
     = [str "Strong programming skills"; str "Research experience";
        str "Good communication skills"]
  /\ List.NoDup (Page.pickRequirements [1; 9; 1; 4]%nat []).
Proof.
  assert (Hd : Forall (fun draw => (draw < 10)%nat) [1; 9; 1; 4]%nat)
    by (repeat constructor).
  split; [exact Hd|]. split; [reflexivity|].
  exact (proj1 (pickRequirements_distinct [1; 9; 1; 4]%nat Hd)).
Defined.
(** ** The interests of a profile *)

Section InterestProofs.
Context `{Host}.
Import SearchService Spec.

Lemma relatedPairs_app interests extra subjects :
  length (relatedPairs (interests ++ extra) subjects)
  = (length (relatedPairs interests subjects)
     + length (relatedPairs extra subjects))%nat.
Proof.
  induction interests as [|i rest IH]; [reflexivity|].
  change ((i :: rest) ++ extra) with (i :: (rest ++ extra)).
  rewrite !relatedPairs_cons, IH. lia.
Qed.

Lemma relatedPairs_Permutation interests interests' subjects :
  Permutation interests interests' ->
  length (relatedPairs interests subjects)
  = length (relatedPairs interests' subjects).
Proof.
  induction 1 as [|i l l' _ IH|i j l|l l' l'' _ IH1 _ IH2].
  - reflexivity.
  - rewrite !relatedPairs_cons, IH. reflexivity.
  - rewrite !relatedPairs_cons. lia.
  - now rewrite IH1.
Qed.

Lemma score_of_interests opp id interests sop :
  (forall c s, Opportunity.subjects opp <> Text (c :: s)) ->
  calculateCompatibilityScore (Some opp)
    (Some (UserProfile.Build id (Some interests) sop))
  = Ok (clamp
          (generateScore (Opportunity.id opp)
             (userIdOf (UserProfile.Build id (Some interests) sop))
           + Z.min (5 * Z.of_nat (length (relatedPairs interests
                                            (subjectsOf (Opportunity.subjects opp)))))
               20)
          0 100).
Proof.
  intros Hty. unfold calculateCompatibilityScore. rewrite userId_userIdOf.
  rewrite interestBonus_ok by (right; exact Hty). reflexivity.
Qed.

(** X9: the interests count as a collection: their order does not change the
    score, a profile with no interests gets the base score of the two ids,
    and more interests never lower the score and never lift it by more than
    20. *)
Theorem calculateCompatibilityScore_interests (opp : Opportunity.t)
    (id sop : option jsstring) (interests interests' extra : list jsstring) :
  (forall c s, Opportunity.subjects opp <> Text (c :: s)) ->
  Permutation interests interests' ->
  let score := fun l =>
    calculateCompatibilityScore (Some opp)
      (Some (UserProfile.Build id (Some l) sop)) in
  let base :=
    generateScore (Opportunity.id opp)
      (userIdOf (UserProfile.Build id None sop)) in
  score interests' = score interests
  /\ score [] = Ok base
  /\ exists s s', score interests = Ok s /\ score (interests ++ extra) = Ok s'
                  /\ base <= s <= s' /\ s' <= base + 20 /\ s' <= 100.
Proof.
  intros Hty Hperm score base. unfold score.
  rewrite !score_of_interests by exact Hty.
  change (userIdOf (UserProfile.Build id (Some _) sop))
    with (userIdOf (UserProfile.Build id None sop)).
  fold base.
  assert (Hb : 0 <= base <= 99).
  { unfold base. rewrite generateScore_boundedHash.
    pose proof (boundedHash_range
                  (Opportunity.id opp ++ str "-"
                   ++ userIdOf (UserProfile.Build id None sop)) 0 100).
    lia. }
  split; [|split].
  - now rewrite (relatedPairs_Permutation _ _ _ Hperm).
  - unfold relatedPairs. simpl. unfold clamp. f_equal. lia.
  - eexists. eexists. split; [reflexivity|]. split; [reflexivity|].
    rewrite relatedPairs_app. unfold clamp. lia.
Qed.

End InterestProofs.

Lemma calculateCompatibilityScore_interests_witness :
  (forall c s, Opportunity.subjects Samples.robotics <> Text (c :: s))
  /\ Permutation [str "Learning"; str "Biology"] [str "Biology"; str "Learning"]
  /\ @SearchService.calculateCompatibilityScore BasicLatin.host
       (Some Samples.robotics)
       (Some (UserProfile.Build (Some (str "user123"))
                (Some [str "Biology"; str "Learning"]) None))
     = @SearchService.calculateCompatibilityScore BasicLatin.host
         (Some Samples.robotics)
         (Some (UserProfile.Build (Some (str "user123"))
                  (Some [str "Learning"; str "Biology"]) None)).
Proof.
  assert (Hty : forall c s, Opportunity.subjects Samples.robotics <> Text (c :: s))
    by (intros c s; discriminate).
  assert (Hp : Permutation [str "Learning"; str "Biology"]
                 [str "Biology"; str "Learning"]) by apply perm_swap.
  split; [exact Hty|]. split; [exact Hp|].
  exact (proj1 (@calculateCompatibilityScore_interests BasicLatin.host
                  Samples.robotics (Some (str "user123")) None
                  [str "Learning"; str "Biology"] [str "Biology"; str "Learning"]
                  [] Hty Hp)).
Defined.
(** ** The pipeline of the page *)

Section PipelineProofs.
Context `{Host}.
Import Opportunities.

Lemma applyFlags_incl filters l : incl (applyFlags filters l) l.
Proof.
  rewrite applyFlags_filter. intros o Ho. now apply filter_In in Ho.
Qed.

Lemma filterOpportunities_sub opportunities searchQuery filters filtered :
  filterOpportunities opportunities searchQuery filters = Ok filtered ->
  exists keep, filtered = List.filter keep opportunities.
Proof.
  unfold filterOpportunities. destruct (truthy _).
  - destruct (filterM _ opportunities) as [r|] eqn:E; simpl; [|discriminate].
    intros [= <-]. rewrite applyFlags_filter, (filterM_Ok _ _ _ E), filter_and.
    eauto.
  - simpl. intros [= <-]. rewrite applyFlags_filter. eauto.
Qed.

(** X24: the sort key and the scores decide the order of what the page shows and
    nothing else: whether the call returns, and which opportunities it
    returns, is the same under any two keys and caches. What is shown is
    taken from the list, each opportunity at most as often as it is there,
    so a list without repeated ids is shown without repeated ids. *)
Theorem getSortedAndFilteredOpportunities_same_set
    (opportunities : list Opportunity.t) (searchQuery : jsstring)
    (filters : Filters.t) (sortBy sortBy' : jsstring)
    (sortedScores sortedScores' : gmap jsstring Z) :
  match getSortedAndFilteredOpportunities opportunities searchQuery filters
          sortBy sortedScores,
        getSortedAndFilteredOpportunities opportunities searchQuery filters
          sortBy' sortedScores' with
  | Ok shown, Ok shown' =>
      Permutation shown shown'
      /\ incl shown opportunities
      /\ (length shown <= length opportunities)%nat
      /\ (List.NoDup (map Opportunity.id opportunities) ->
          List.NoDup (map Opportunity.id shown))
  | TypeError, TypeError => True
  | _, _ => False
  end.
Proof.
  unfold getSortedAndFilteredOpportunities.
  destruct (filterOpportunities opportunities searchQuery filters)
    as [filtered|] eqn:E; simpl; [|exact I].
  destruct (filterOpportunities_sub _ _ _ _ E) as [keep ->].
  unfold sortOpportunities.
  split; [|split; [|split]].
  - rewrite !arraySort_Permutation. reflexivity.
  - intros o Ho. apply arraySort_In in Ho. now apply filter_In in Ho.
  - rewrite (Permutation_length (arraySort_Permutation _ _)).
    apply filter_length_le.
  - intros Hnd.
    eapply Permutation_NoDup.
    + apply Permutation_map. symmetry. apply arraySort_Permutation.
    + now apply NoDup_map_filter.
Qed.

End PipelineProofs.

(** ** Subjects in the keywords *)

Section FusedKeywordProofs.
Context `{Host}.
Import KeywordExtractor.

Lemma splitWs_one s :
  Forall (fun c => isWhiteSpace c = false) s -> splitWs false s = [s].
Proof.
  induction 1 as [|c s Hc Hs IH]; simpl; [reflexivity|].
  now rewrite Hc, IH.
Qed.

Lemma isWordChar_not_space c : isWordChar c = true -> isWhiteSpace c = false.
Proof. unfold isWordChar, isWhiteSpace. lia. Qed.

Lemma joinWith_comma_cons x y rest :
  joinWith (str ",") (x :: y :: rest) = x ++ 44 :: joinWith (str ",") (y :: rest).
Proof. reflexivity. Qed.

Lemma joined_words subjects :
  Forall (fun s => forallb isWordChar s = true) subjects ->
  Forall (fun c => isWhiteSpace c = false) (joinWith (str ",") subjects)
  /\ cleanWord (joinWith (str ",") subjects) = concat subjects.
Proof.
  induction 1 as [|x rest Hx Hrest [IH1 IH2]]; [split; [constructor | reflexivity]|].
  assert (Hsp : Forall (fun c => isWhiteSpace c = false) x).
  { apply List.Forall_forall. intros c Hc. apply isWordChar_not_space.
    rewrite forallb_forall in Hx. now apply Hx. }
  assert (Hcl : cleanWord x = x).
  { unfold cleanWord. rewrite forallb_forall in Hx.
    clear -Hx. induction x as [|c x IH]; simpl; [reflexivity|].
    rewrite (Hx c (or_introl eq_refl)). f_equal. apply IH.
    intros d Hd. apply Hx. now right. }
  destruct rest as [|y rest].
  - simpl. rewrite app_nil_r. split; [exact Hsp | exact Hcl].
  - rewrite joinWith_comma_cons. split.
    + apply Forall_app. split; [exact Hsp|]. constructor; [reflexivity | exact IH1].
    + unfold cleanWord in *. rewrite List.filter_app, Hcl.
      replace (List.filter isWordChar (44 :: joinWith (str ",") (y :: rest)))
        with (List.filter isWordChar (joinWith (str ",") (y :: rest)))
        by reflexivity.
      rewrite IH2. reflexivity.
Qed.

Lemma extractKeywords_single (obj : jsobject) w v :
  obj = [(w, v)] ->
  map fst (firstn 3 (arraySort byCount (entries obj))) = [w].
Proof.
  intros ->.
  assert (E : entries [(w, v)] = [(w, v)]).
  { unfold entries. simpl List.filter. destruct (isIndexKey (w, v)); reflexivity. }
  rewrite E, arraySort_singleton. reflexivity.
Qed.

(** X13: the elements of an array of subjects are joined by commas, and only
    white space separates words: subjects of one word each come out as one
    word, all of them run together, and that word is the only candidate for
    a keyword when the opportunity has no other text. *)
Theorem extractKeywords_fused (opportunity : Opportunity.t)
    (subjects : list jsstring) :
  Opportunity.title opportunity = None ->
  Opportunity.description opportunity = None ->
  Opportunity.department opportunity = None ->
  Opportunity.requirements opportunity = Absent ->
  Opportunity.subjects opportunity = Items subjects ->
  Forall (fun s => forallb isWordChar s = true) subjects ->
  toLowerCase (joinWith (str ",") subjects) = joinWith (str ",") subjects ->
  keptWords opportunity = List.filter passes [concat subjects]
  /\ extractKeywords opportunity = counted (List.filter passes [concat subjects]).
Proof.
  intros Ht Hd Hp Hr Hs Hw Hlow.
  destruct (joined_words subjects Hw) as [Hsp Hcl].
  assert (Htext : keywordText opportunity = joinWith (str ",") subjects).
  { unfold keywordText. rewrite Ht, Hd, Hp, Hr, Hs. simpl. exact Hlow. }
  assert (Hsplit : splitWhitespace (keywordText opportunity)
                   = [joinWith (str ",") subjects]).
  { rewrite Htext. now apply splitWs_one. }
  split.
  - unfold keptWords. rewrite Hsplit. simpl map. now rewrite Hcl.
  - unfold extractKeywords, wordCounts. rewrite Hsplit. simpl fold_left.
    unfold countWord. cbv zeta. rewrite Hcl.
    simpl List.filter. unfold passes.
    destruct ((Z.of_nat (length (concat subjects)) <? 4)
              || isStopWord (concat subjects)); [reflexivity|].
    simpl negb. cbv iota. unfold increment, counted. simpl getOwn. cbv iota.
    simpl List.filter.
    destruct (streq (concat subjects) (str "__proto__")); [reflexivity|].
    simpl negb. cbv iota.
    destruct (streq (concat subjects) (str "constructor"));
      eapply extractKeywords_single; reflexivity.
Qed.

End FusedKeywordProofs.

Lemma extractKeywords_fused_witness :
  @KeywordExtractor.extractKeywords BasicLatin.host
    (Opportunity.Build (str "phd-001") None None None None
       (Items [str "machine"; str "learning"]) Absent None None false false None)
  = [str "machinelearning"].
Proof.
  assert (Hw : Forall (fun s => forallb KeywordExtractor.isWordChar s = true)
                 [str "machine"; str "learning"])
    by (repeat constructor).
  assert (Hl : @toLowerCase BasicLatin.host
                 (KeywordExtractor.joinWith (str ",")
                    [str "machine"; str "learning"])
               = KeywordExtractor.joinWith (str ",")
                   [str "machine"; str "learning"])
    by (vm_compute; reflexivity).
  exact (proj2 (@extractKeywords_fused BasicLatin.host
                  (Opportunity.Build (str "phd-001") None None None None
                     (Items [str "machine"; str "learning"]) Absent None None
                     false false None)
                  [str "machine"; str "learning"]
                  eq_refl eq_refl eq_refl eq_refl eq_refl Hw Hl)).
Defined.

Lemma extractKeywords_first_encountered_witness :
  ~ In (str "constructor")
      (@KeywordExtractor.countedWords BasicLatin.host Samples.robotics)
  /\ Forall (fun w => KeywordExtractor.arrayIndex w = None)
       (@KeywordExtractor.countedWords BasicLatin.host Samples.robotics)
  /\ StronglySorted (@KeywordExtractor.specBefore BasicLatin.host Samples.robotics)
       (@KeywordExtractor.extractKeywords BasicLatin.host Samples.robotics).
Proof.
  assert (Hc : ~ In (str "constructor")
                 (@KeywordExtractor.countedWords BasicLatin.host Samples.robotics)).
  { intros Hin. vm_compute in Hin.
    repeat (destruct Hin as [Hin|Hin]; [discriminate Hin|]). exact Hin. }
  assert (Hi : Forall (fun w => KeywordExtractor.arrayIndex w = None)
                 (@KeywordExtractor.countedWords BasicLatin.host Samples.robotics)).
  { apply List.Forall_forall. intros w Hin. vm_compute in Hin.
    repeat (destruct Hin as [Hin|Hin]; [subst w; reflexivity|]).
    destruct Hin. }
  split; [exact Hc|]. split; [exact Hi|].
  exact (@extractKeywords_first_encountered BasicLatin.host Samples.robotics Hc Hi).
Defined.
(** ** The scores of the page and the sort by them *)

Section PageScoreProofs.
Context `{Host}.
Import HashScore Opportunities.






End PageScoreProofs.

(** ** The date of a calendar event *)

Section CalendarProofs.
Import CalendarPopup.

Lemma monthLength_range y m : 28 <= monthLength y m <= 31.
Proof.
  unfold monthLength, BasicLatin.daysInMonth.
  destruct (m + 1 =? 2); [destruct (BasicLatin.isLeap y); lia|].
  destruct (_ || _); lia.
Qed.

Lemma makeDay_fits y m d :
  d <= monthLength y m -> makeDay y m d = Date y m d.
Proof.
  intros Hd. unfold makeDay. destruct (Z.to_nat d); simpl; [reflexivity|].
  apply Z.leb_le in Hd. now rewrite Hd.
Qed.

Lemma monthLength_after_short y m :
  0 <= m <= 10 -> monthLength y m < 31 -> monthLength y (m + 1) = 31.
Proof.
  unfold monthLength, BasicLatin.daysInMonth. intros Hm.
  assert (m = 0 \/ m = 1 \/ m = 2 \/ m = 3 \/ m = 4 \/ m = 5 \/ m = 6 \/ m = 7
          \/ m = 8 \/ m = 9 \/ m = 10) as Hc by lia.
  repeat (destruct Hc as [-> | Hc]; [simpl; try lia; destruct (BasicLatin.isLeap y); lia|]).
  subst m. simpl. lia.
Qed.

Lemma makeDay_over y m d :
  0 <= m <= 10 -> monthLength y m < d <= 31 ->
  makeDay y m d = Date y (m + 1) (d - monthLength y m).
Proof.
  intros Hm Hd. unfold makeDay.
  pose proof (monthLength_range y m) as Hr.
  pose proof (monthLength_range y (m + 1)) as Hr'.
  destruct (Z.to_nat d) as [|[|k]] eqn:E; try lia.
  simpl.
  destruct (Z.leb_spec d (monthLength y m)); [lia|].
  destruct (Z.eqb_spec m 11); [lia|].
  destruct (Z.leb_spec (d - monthLength y m) (monthLength y (m + 1))); [reflexivity | lia].
Qed.

Lemma setFullYear_day current year :
  valid current ->
  setFullYear current year
  = if (month current =? 1) && (day current =? 29)
       && negb (BasicLatin.isLeap year)
    then Date year 2 1
    else Date year (month current) (day current).
Proof.
  intros [Hm Hd]. unfold setFullYear.
  destruct ((month current =? 1) && (day current =? 29)
            && negb (BasicLatin.isLeap year)) eqn:E.
  - apply andb_true_iff in E as [E Hleap]. apply andb_true_iff in E as [E1 E2].
    apply Z.eqb_eq in E1, E2. rewrite E1, E2.
    apply negb_true_iff in Hleap.
    rewrite makeDay_over.
    + unfold monthLength, BasicLatin.daysInMonth. simpl. now rewrite Hleap.
    + lia.
    + unfold monthLength, BasicLatin.daysInMonth. simpl. rewrite Hleap. lia.
  - apply makeDay_fits.
    assert (Hsame : month current <> 1 \/ day current <> 29
                    \/ BasicLatin.isLeap year = true).
    { destruct (Z.eqb_spec (month current) 1); [|now left].
      destruct (Z.eqb_spec (day current) 29); [|right; now left].
      right. right. simpl in E. now apply negb_false_iff in E. }
    unfold monthLength, BasicLatin.daysInMonth in *.
    destruct (Z.eqb_spec (month current + 1) 2) as [E2|E2].
    + assert (month current = 1) by lia.
      destruct (BasicLatin.isLeap year) eqn:Hy.
      * destruct (BasicLatin.isLeap (fullYear current)); lia.
      * destruct (BasicLatin.isLeap (fullYear current)); destruct Hsame as [?|[?|?]];
          try lia; discriminate.
    + exact (proj2 Hd).
Qed.

(** [makeDay] against the day count of the calendar: its result is the day
    [d - 1] days after the first of the month, here for every month and every
    day number up to 62 of the years 2023 to 2028. *)
Example makeDay_day_number :
  forallb
    (fun y =>
       forallb
         (fun m =>
            forallb
              (fun d =>
                 let t := makeDay y m d in
                 BasicLatin.daysFromCivil (fullYear t) (month t + 1) (day t)
                 =? BasicLatin.daysFromCivil y (m + 1) 1 + d - 1)
              (map Z.of_nat (seq 1 62)))
         (map Z.of_nat (seq 0 12)))
    (map Z.of_nat (seq 2023 6))
  = true.
Proof. vm_compute. reflexivity. Qed.

(** X28: the handler sets the year, the month and the day one after the other,
    and each setter keeps the day of the month it finds: when that day does
    not exist in the month that was picked, [setMonth] runs on into the next
    month and the date that is stored is one month after the date that was
    picked. The picked date is stored exactly when the day carried over
    exists in the picked month; so it always is when the current day of the
    month is at most 28. *)
Theorem changeDate_slips (current : date) (year month day : Z) :
  valid current ->
  valid (Date year (month - 1) day) ->
  changeDate current year month day
  = (if dayCarried current year <=? monthLength year (month - 1)
     then Date year (month - 1) day
     else Date year month day)
  /\ (CalendarPopup.day current <= 28 ->
      changeDate current year month day = Date year (month - 1) day).
Proof.
  intros Hc [Hm Hd]. simpl fullYear in *. simpl CalendarPopup.month in *.
  simpl CalendarPopup.day in *.
  assert (Hcarried : 1 <= dayCarried current year <= 31).
  { unfold dayCarried. destruct Hc as [_ Hc].
    pose proof (monthLength_range (fullYear current) (CalendarPopup.month current)).
    destruct (_ && _); lia. }
  assert (Hafter : exists m0,
            setFullYear current year = Date year m0 (dayCarried current year)).
  { rewrite (setFullYear_day _ _ Hc). unfold dayCarried.
    destruct (_ && _); eauto. }
  destruct Hafter as [m0 Hafter].
  assert (E : changeDate current year month day
              = if dayCarried current year <=? monthLength year (month - 1)
                then Date year (month - 1) day
                else Date year month day).
  { unfold changeDate. cbv zeta. rewrite Hafter.
    unfold setMonth. simpl fullYear. simpl CalendarPopup.day.
    pose proof (monthLength_range year (month - 1)) as Hr.
    destruct (Z.leb_spec (dayCarried current year) (monthLength year (month - 1)))
      as [Hfit|Hover].
    - rewrite makeDay_fits by exact Hfit.
      unfold setDate. simpl. apply makeDay_fits. lia.
    - assert (Hm' : 0 <= month - 1 <= 10).
      { destruct (Z.eq_dec (month - 1) 11) as [E11|]; [|lia].
        rewrite E11 in Hover. change (monthLength year 11) with 31 in Hover. lia. }
      rewrite makeDay_over by lia.
      unfold setDate. simpl.
      replace (month - 1 + 1) with month by lia.
      apply makeDay_fits.
      pose proof (monthLength_after_short year (month - 1) Hm' ltac:(lia)) as E31.
      replace (month - 1 + 1) with month in E31 by lia. lia. }
  split; [exact E|].
  intros H28. rewrite E.
  assert (dayCarried current year <= 28).
  { unfold dayCarried. destruct (_ && _); lia. }
  pose proof (monthLength_range year (month - 1)).
  destruct (Z.leb_spec (dayCarried current year) (monthLength year (month - 1)));
    [reflexivity | lia].
Qed.

End CalendarProofs.

Lemma changeDate_slips_witness :
  CalendarPopup.valid (CalendarPopup.Date 2025 0 31)
  /\ CalendarPopup.valid (CalendarPopup.Date 2025 (2 - 1) 15)
  /\ CalendarPopup.changeDate (CalendarPopup.Date 2025 0 31) 2025 2 15
     = CalendarPopup.Date 2025 2 15.
Proof.
  assert (Hc : CalendarPopup.valid (CalendarPopup.Date 2025 0 31))
    by (unfold CalendarPopup.valid; simpl; vm_compute; intuition discriminate).
  assert (Hp : CalendarPopup.valid (CalendarPopup.Date 2025 (2 - 1) 15))
    by (unfold CalendarPopup.valid; simpl; vm_compute; intuition discriminate).
  split; [exact Hc|]. split; [exact Hp|].
  exact (proj1 (changeDate_slips (CalendarPopup.Date 2025 0 31) 2025 2 15 Hc Hp)).
Defined.
